(** * Bar aggregation, series recomputation and the sliding-window counter

    A shallow embedding of [src/utils/counter.ts]: the [Counter] class
    (sliding-window counter) and the [ChartController] class (bar
    aggregator, chunk selection, series preparation and recomputation).

    Conventions of the embedding:
    - The numbers a rolling average accumulates are IEEE doubles: binary64
      floats with their rounded additions and subtractions.  The other
      numbers are exact: integers [Z] in the controller (prices,
      sizes, volumes, timestamps) and rationals [Q] in the counter, whose
      interpolation divides; their rounding is not modelled.
    - Objects mutated in place become explicit state that every function
      takes and returns; a reference to a shared object (the live renderer
      passed to [computeBar]) is modelled by saying which object is meant.
    - A JavaScript exception is the [Throw] outcome of the [result] type. *)

From Stdlib Require Import ZArith QArith Qround Qminmax Lia PrimFloat.
From stdpp Require Import base option list strings gmap fin_maps.

Local Open Scope Z_scope.

(** A decimal literal of a double stands for the nearest double, as it does
    in JavaScript. *)
Set Warnings "-inexact-float".

(** ** Outcomes of code that may throw *)

Inductive result (A : Type) : Type :=
| Ok (a : A)
| Throw (message : string).
Arguments Ok {A} a.
Arguments Throw {A} message.

#[global] Instance result_ret : MRet result := fun A a => Ok a.

#[global] Instance result_bind : MBind result := fun A B k r =>
  match r with
  | Ok a => k a
  | Throw m => Throw m
  end.

Definition is_ok {A} (r : result A) : bool :=
  match r with Ok _ => true | Throw _ => false end.

(** ** The sliding-window counter (class [Counter]) *)

Module Counter.
Local Open Scope Q_scope.

(** [remaining] and [timestamp] are numbers that may still be
    [undefined]: [None].  [timeouts] holds, for every pending expiry
    timer, the wall-clock instant at which [setTimeout] fires it. *)
Record t := mk {
  window : Q;
  granularity : Q;
  type : string;
  serie : bool;
  timestamp : option Q;
  live : Q;
  stacks : list Q;
  filled : bool;
  remaining : option Q;
  timeouts : list Q
}.

(** Truthiness of a number that may be [undefined]. *)
Definition truthy (v : option Q) : bool :=
  match v with
  | Some q => negb (Qeq_bool q 0)
  | None => false
  end.

(** [clear()] *)
Definition clear (c : t) : t :=
  mk (window c) (granularity c) (type c) (serie c) (timestamp c)
     0 [] false (Some 0) [].

(** The constructor: [window] is the option when it is a number, else the
    stored default, and 60000 when that is zero; the granularity is at
    least a 5000th of the window. *)
Definition create (statsWindow statsGranularity : Q) (optWindow : option Q)
    (optType : option string) : t :=
  let w := match optWindow with Some w => w | None => statsWindow end in
  let w := if Qeq_bool w 0 then 60000 else w in
  clear (mk w (Qmax statsGranularity (w / 5000))
            (default "line"%string optType) false None 0 [] false (Some 0) []).

(** [addData(data)]: the last slot and the live sum both grow.  [onStats]
  only calls it with a slot in place. *)
Definition addData (data : Q) (c : t) : t :=
  let n := length (stacks c) in
  mk (window c) (granularity c) (type c) (serie c) (timestamp c)
     (live c + data)
     (match last (stacks c) with
      | Some s => <[pred n := s + data]> (stacks c)
      | None => stacks c
      end)
     (filled c) (remaining c) (timeouts c).

(** [appendStack(timestamp)] at wall-clock instant [now]. *)
Definition appendStack (now : Q) (ts : Q) (c : t) : t :=
  let ts := if Qeq_bool ts 0 then now else ts in
  let stacks' := stacks c ++ [0] in
  mk (window c) (granularity c) (type c) (serie c) (Some ts)
     (live c) stacks'
     (if negb (filled c)
         && Qeq_bool (inject_Z (Z.of_nat (length stacks')))
                     (window c / granularity c)
      then true else filled c)
     (remaining c)
     (timeouts c ++ [now + window c]).

(** [shiftStack()], the body of an expiry timer. *)
Definition shiftStack (c : t) : t :=
  let timeouts' := tail (timeouts c) in
  let stack := head (stacks c) in
  let stacks' := tail (stacks c) in
  if negb (truthy stack) then
    mk (window c) (granularity c) (type c) (serie c) (timestamp c)
       (live c) stacks' (filled c) (remaining c) timeouts'
  else
    mk (window c) (granularity c) (type c) (serie c) (timestamp c)
       (match remaining c with
        | Some r => if truthy (Some r) then live c - r else live c
        | None => live c
        end)
       stacks' (filled c) (head stacks') timeouts'.

(** [onStats(timestamp, stats)], with [value = outputFunction(stats)]. *)
Definition onStats (now : Q) (ts : Q) (value : Q) (c : t) : t :=
  let newSlot :=
    match stacks c, timestamp c with
    | [], _ => true
    | _, Some t0 => negb (Qle_bool ts (t0 + granularity c))
    | _, None => false
    end in
  let c1 :=
    if newSlot then appendStack now ts c
    else if filled c && truthy (remaining c) then
      match timestamp c, head (stacks c), remaining c with
      | Some t0, Some s0, Some rem =>
          let p := (ts - t0) / granularity c in
          let remaining' := inject_Z (Qceiling (s0 * (1 - p))) in
          let change := rem - remaining' in
          mk (window c) (granularity c) (type c) (serie c) (timestamp c)
             (live c - change) (stacks c) (filled c) (Some remaining')
             (timeouts c)
      | _, _, _ => c
      end
    else c in
  addData value c1.

(** [getValue()] *)
Definition getValue (c : t) : Q := live c.

(** [updateSerie()]: the point handed to the chart's [update], if any. *)
Definition updateSerie (c : t) : option (Q * Q) :=
  let value := getValue c in
  if negb (serie c) || negb (truthy (timestamp c))
     || (String.eqb (type c) "histogram" && Qeq_bool value 0)
  then None
  else match timestamp c with
       | Some ts => Some (ts / 1000, value)
       | None => None
       end.

(** The event loop: expiry timers all wait [window], so they fire in the
    order they were set; [elapse now] fires the ones due by [now]. *)
Fixpoint fire (n : nat) (now : Q) (c : t) : t :=
  match n with
  | O => c
  | S n' =>
      match timeouts c with
      | due :: _ => if Qle_bool due now then fire n' now (shiftStack c) else c
      | [] => c
      end
  end.

Definition elapse (now : Q) (c : t) : t := fire (length (timeouts c)) now c.

(** An update arriving at wall-clock instant [now]. *)
Definition update (now : Q) (value : Q) (c : t) : t :=
  onStats now now value (elapse now c).

Definition updates (events : list (Q * Q)) (c : t) : t :=
  fold_left (fun c e => update (fst e) (snd e) c) events c.
End Counter.

(** ** JavaScript values that reach the controller *)

(** A number-typed slot: a number, [NaN], [null] or [undefined]. *)
Inductive JsNumber :=
| Num (z : Z)
| NaN
| Null
| Undefined.

(** What an adapter returns: a primitive, or a plain object whose
    properties are number-typed ([{open, high, low, close}], [{value, ...}]). *)
Inductive JsValue :=
| Prim (v : JsNumber)
| Obj (fields : gmap string JsNumber).

#[global] Instance JsNumber_eq_dec : EqDecision JsNumber.
Proof. solve_decision. Defined.

#[global] Instance JsValue_eq_dec : EqDecision JsValue.
Proof. solve_decision. Defined.

(** The global [isNaN]: its argument is first converted to a number;
    [null] converts to 0, [undefined] and plain objects to [NaN]. *)
Definition isNaN (v : JsValue) : bool :=
  match v with
  | Prim (Num _) => false
  | Prim NaN => true
  | Prim Null => false
  | Prim Undefined => true
  | Obj _ => true
  end.

(** Property read [v.k]: a [TypeError] on [null] and [undefined],
    [undefined] on a number, the property (or [undefined]) on an object. *)
Definition getProp (v : JsValue) (k : string) : result JsNumber :=
  match v with
  | Prim Null | Prim Undefined =>
      Throw "TypeError: cannot read properties of null or undefined"
  | Prim _ => Ok Undefined
  | Obj fields => Ok (default Undefined (fields !! k))
  end.

(** Object spread [{...v}]: the own properties of an object, nothing for a
    primitive. *)
Definition spread (v : JsValue) : gmap string JsValue :=
  match v with
  | Prim _ => ∅
  | Obj fields => Prim <$> fields
  end.

(** Conversion to a number for arithmetic and comparison: [null] is 0,
    [undefined] and [NaN] give no number. *)
Definition toNumber (a : JsNumber) : option Z :=
  match a with
  | Num z => Some z
  | Null => Some 0
  | NaN | Undefined => None
  end.

(** [a < b] and [a > b]: false as soon as one side is not a number. *)
Definition js_lt (a b : JsNumber) : bool :=
  match toNumber a, toNumber b with
  | Some x, Some y => x <? y
  | _, _ => false
  end.

Definition js_gt (a b : JsNumber) : bool := js_lt b a.

(** [a === b] *)
Definition js_strict_eq (a b : JsNumber) : bool :=
  match a, b with
  | Num x, Num y => x =? y
  | Null, Null => true
  | Undefined, Undefined => true
  | _, _ => false
  end.

(** [a + b] on number-typed slots. *)
Definition js_add (a b : JsNumber) : JsNumber :=
  match toNumber a, toNumber b with
  | Some x, Some y => Num (x + y)
  | _, _ => NaN
  end.

(** Truthiness of a number-typed slot: a number other than 0. *)
Definition js_truthy (a : JsNumber) : bool :=
  match a with
  | Num z => negb (z =? 0)
  | _ => false
  end.

(** ** Data model of the chart controller *)

Inductive Side := buy | sell.

#[global] Instance Side_eq_dec : EqDecision Side.
Proof. solve_decision. Defined.

(** A trade as the controller reads it; the type is declared by the
    aggregator service. *)
Module Trade.
Record t := mk {
  exchange : string;
  pair : string;
  price : Z;
  size : Z;
  side : Side;
  liquidation : bool;
  timestamp : Z
}.
End Trade.

(** Interface [Bar] in the shape of a per-source bar (a SourceBar in the
    renderer, a finished bar in a chunk).  All numeric properties are set by
    [resetBar] or [cloneSourceBar] before they are read; [pair] and
    [timestamp] are only set by [cloneSourceBar] and [empty] only by the
    live fold, so these may be [undefined]. *)
Module Bar.
Record t := mk {
  exchange : string;
  pair : option string;
  timestamp : JsNumber;
  open : Z;
  high : Z;
  low : Z;
  close : Z;
  vbuy : Z;
  vsell : Z;
  cbuy : Z;
  csell : Z;
  lbuy : Z;
  lsell : Z;
  empty : option bool
}.

Definition set_empty (e : option bool) (b : t) : t :=
  mk (exchange b) (pair b) (timestamp b) (open b) (high b) (low b) (close b)
     (vbuy b) (vsell b) (cbuy b) (csell b) (lbuy b) (lsell b) e.

(** [bar['l' + side] += amount] *)
Definition add_l (s : Side) (amount : Z) (b : t) : t :=
  match s with
  | buy =>
      mk (exchange b) (pair b) (timestamp b) (open b) (high b) (low b) (close b)
         (vbuy b) (vsell b) (cbuy b) (csell b) (lbuy b + amount) (lsell b) (empty b)
  | sell =>
      mk (exchange b) (pair b) (timestamp b) (open b) (high b) (low b) (close b)
         (vbuy b) (vsell b) (cbuy b) (csell b) (lbuy b) (lsell b + amount) (empty b)
  end.

(** [bar['v' + side] += amount] *)
Definition add_v (s : Side) (amount : Z) (b : t) : t :=
  match s with
  | buy =>
      mk (exchange b) (pair b) (timestamp b) (open b) (high b) (low b) (close b)
         (vbuy b + amount) (vsell b) (cbuy b) (csell b) (lbuy b) (lsell b) (empty b)
  | sell =>
      mk (exchange b) (pair b) (timestamp b) (open b) (high b) (low b) (close b)
         (vbuy b) (vsell b + amount) (cbuy b) (csell b) (lbuy b) (lsell b) (empty b)
  end.

(** [bar['c' + side]++] *)
Definition incr_c (s : Side) (b : t) : t :=
  match s with
  | buy =>
      mk (exchange b) (pair b) (timestamp b) (open b) (high b) (low b) (close b)
         (vbuy b) (vsell b) (cbuy b + 1) (csell b) (lbuy b) (lsell b) (empty b)
  | sell =>
      mk (exchange b) (pair b) (timestamp b) (open b) (high b) (low b) (close b)
         (vbuy b) (vsell b) (cbuy b) (csell b + 1) (lbuy b) (lsell b) (empty b)
  end.

(** [high = max(high, price); low = min(low, price); close = price] *)
Definition set_price (p : Z) (b : t) : t :=
  mk (exchange b) (pair b) (timestamp b) (open b)
     (Z.max (high b) p) (Z.min (low b) p) p
     (vbuy b) (vsell b) (cbuy b) (csell b) (lbuy b) (lsell b) (empty b).
End Bar.

(** Interface [Bar] in the shape of the renderer's combined bar: the six
    sums, and the flags [empty] and [hasData] where they were ever set. *)
Module CombinedBar.
Record t := mk {
  vbuy : Z;
  vsell : Z;
  cbuy : Z;
  csell : Z;
  lbuy : Z;
  lsell : Z;
  empty : option bool;
  hasData : option bool
}.

Definition set_empty (e : option bool) (b : t) : t :=
  mk (vbuy b) (vsell b) (cbuy b) (csell b) (lbuy b) (lsell b) e (hasData b).

Definition set_hasData (h : option bool) (b : t) : t :=
  mk (vbuy b) (vsell b) (cbuy b) (csell b) (lbuy b) (lsell b) (empty b) h.

Definition add_l (s : Side) (amount : Z) (b : t) : t :=
  match s with
  | buy => mk (vbuy b) (vsell b) (cbuy b) (csell b) (lbuy b + amount) (lsell b)
              (empty b) (hasData b)
  | sell => mk (vbuy b) (vsell b) (cbuy b) (csell b) (lbuy b) (lsell b + amount)
               (empty b) (hasData b)
  end.

Definition add_v (s : Side) (amount : Z) (b : t) : t :=
  match s with
  | buy => mk (vbuy b + amount) (vsell b) (cbuy b) (csell b) (lbuy b) (lsell b)
              (empty b) (hasData b)
  | sell => mk (vbuy b) (vsell b + amount) (cbuy b) (csell b) (lbuy b) (lsell b)
               (empty b) (hasData b)
  end.

Definition incr_c (s : Side) (b : t) : t :=
  match s with
  | buy => mk (vbuy b) (vsell b) (cbuy b + 1) (csell b) (lbuy b) (lsell b)
              (empty b) (hasData b)
  | sell => mk (vbuy b) (vsell b) (cbuy b) (csell b + 1) (lbuy b) (lsell b)
               (empty b) (hasData b)
  end.

(** [bar.vbuy += b.vbuy; ...; bar.lsell += b.lsell] *)
Definition add_bar (s : Bar.t) (b : t) : t :=
  mk (vbuy b + Bar.vbuy s) (vsell b + Bar.vsell s) (cbuy b + Bar.cbuy s)
     (csell b + Bar.csell s) (lbuy b + Bar.lbuy s) (lsell b + Bar.lsell s)
     (empty b) (hasData b).
End CombinedBar.

(** A flag that may be [undefined] is falsy unless it is [true]. *)
Definition flag (f : option bool) : bool := default false f.

(** A number-typed slot of the state of a rolling average: a double,
    [null] or [undefined]. *)
Inductive JsDouble :=
| Dbl (f : float)
| DblNull
| DblUndefined.

(** Conversion to a number for [+=] and [-=]: [null] is 0, [undefined] is
    [NaN]. *)
Definition toDouble (v : JsDouble) : float :=
  match v with
  | Dbl f => f
  | DblNull => 0%float
  | DblUndefined => nan
  end.

(** Compiled formula nodes.  The [type] tag of a [SerieInstruction] and the
    shape of its [state] are built together by the transpiler: one
    constructor stands for both. *)
Inductive InstructionState :=
| AverageState (points : list JsDouble) (sum : JsDouble) (count : Z) (output : JsDouble)
| OhlcState (open high low close : Z)
| ArrayState (items : list JsNumber)
| OtherState (type : string) (state : JsValue).

Module SerieInstruction.
Record t := mk {
  name : string;
  arg : Z;
  state : InstructionState
}.

Definition type (i : t) : string :=
  match state i with
  | AverageState _ _ _ _ => "average_function"
  | OhlcState _ _ _ _ => "ohlc"
  | ArrayState _ => "array"
  | OtherState ty _ => ty
  end.
End SerieInstruction.

(** ** The copy through JSON

    [JSON.parse(JSON.stringify(x))]: a number that is [NaN] or infinite
    comes back as [null] and [-0] as [0]; [undefined] comes back as [null]
    in an array, and a property that holds [undefined] is left out, so that
    it reads as [undefined] again. *)

(** A double held by a property. *)
Definition jsonDouble (v : JsDouble) : JsDouble :=
  match v with
  | Dbl f =>
      if (is_nan f || is_infinity f)%bool then DblNull
      else if (f =? 0)%float then Dbl 0%float
      else Dbl f
  | _ => v
  end.

(** A double held by an array. *)
Definition jsonDoubleItem (v : JsDouble) : JsDouble :=
  match v with
  | DblUndefined => DblNull
  | _ => jsonDouble v
  end.

(** A number-typed slot held by a property. *)
Definition jsonNumber (v : JsNumber) : JsNumber :=
  match v with
  | NaN => Null
  | _ => v
  end.

(** A number-typed slot held by an array. *)
Definition jsonNumberItem (v : JsNumber) : JsNumber :=
  match v with
  | NaN | Undefined => Null
  | _ => v
  end.

(** A value held by a property. *)
Definition jsonValue (v : JsValue) : JsValue :=
  match v with
  | Prim n => Prim (jsonNumber n)
  | Obj fields =>
      Obj (jsonNumber <$> filter (fun field => field.2 ≠ Undefined) fields)
  end.

Definition jsonState (state : InstructionState) : InstructionState :=
  match state with
  | AverageState points sum count output =>
      AverageState (jsonDoubleItem <$> points) (jsonDouble sum) count
                   (jsonDouble output)
  | OhlcState open high low close => OhlcState open high low close
  | ArrayState items => ArrayState (jsonNumberItem <$> items)
  | OtherState type state => OtherState type (jsonValue state)
  end.

Definition jsonInstruction (instruction : SerieInstruction.t) : SerieInstruction.t :=
  SerieInstruction.mk (SerieInstruction.name instruction)
    (SerieInstruction.arg instruction)
    (jsonState (SerieInstruction.state instruction)).

Module RendererSerieData.
Record t := mk {
  value : JsValue;
  point : JsValue;
  variables : list SerieInstruction.t;
  functions : list SerieInstruction.t
}.
End RendererSerieData.

(** [timestamp] is whatever number-typed value the renderer was created or
    advanced with; [exchanges] is a property that [createRenderer] never
    creates: [None] is [undefined]. *)
Module Renderer.
Record t := mk {
  timestamp : JsNumber;
  bar : CombinedBar.t;
  sources : gmap string Bar.t;
  exchanges : option (gmap string Bar.t);
  series : gmap string RendererSerieData.t
}.

Definition set_bar (b : CombinedBar.t) (r : t) : t :=
  mk (timestamp r) b (sources r) (exchanges r) (series r).

Definition set_sources (s : gmap string Bar.t) (r : t) : t :=
  mk (timestamp r) (bar r) s (exchanges r) (series r).

Definition set_series (s : gmap string RendererSerieData.t) (r : t) : t :=
  mk (timestamp r) (bar r) (sources r) (exchanges r) s.

Definition set_timestamp (ts : JsNumber) (r : t) : t :=
  mk ts (bar r) (sources r) (exchanges r) (series r).

Definition set_exchanges (e : option (gmap string Bar.t)) (r : t) : t :=
  mk (timestamp r) (bar r) (sources r) e (series r).
End Renderer.

Inductive SerieTranspilationOutputType := ohlc | value | custom.

#[global] Instance OutputType_eq_dec : EqDecision SerieTranspilationOutputType.
Proof. solve_decision. Defined.

Module SerieTranspilationResult.
Record t := mk {
  output : string;
  type : SerieTranspilationOutputType;
  variables : list SerieInstruction.t;
  functions : list SerieInstruction.t;
  references : list string
}.
End SerieTranspilationResult.

(** An adapter reads the renderer and updates, in place, the function and
    variable states it is given: [(renderer, functions, variables) ->
    (point, functions, variables)]. *)
Definition SerieAdapter : Type :=
  Renderer.t → list SerieInstruction.t → list SerieInstruction.t →
  JsValue * list SerieInstruction.t * list SerieInstruction.t.

(** [model], [adapter] and [api] start as [null]: [None], and [false] for
    a chart series that is not created. *)
Module ActiveSerie.
Record t := mk {
  enabled : bool;
  id : string;
  type : string;
  input : string;
  model : option SerieTranspilationResult.t;
  adapter : option SerieAdapter;
  api : bool
}.

Definition set_model (m : option SerieTranspilationResult.t) (s : t) : t :=
  mk (enabled s) (id s) (type s) (input s) m (adapter s) (api s).

Definition set_adapter (a : option SerieAdapter) (s : t) : t :=
  mk (enabled s) (id s) (type s) (input s) (model s) a (api s).

Definition set_api (a : bool) (s : t) : t :=
  mk (enabled s) (id s) (type s) (input s) (model s) (adapter s) a.
End ActiveSerie.

Module TimeRange.
Record t := mk { from : JsNumber; to : JsNumber }.
End TimeRange.

Module Chunk.
Record t := mk {
  from : JsNumber;
  to : JsNumber;
  active : bool;
  rendered : bool;
  bars : list Bar.t
}.

Definition set_active (a : bool) (c : t) : t :=
  mk (from c) (to c) a (rendered c) (bars c).

Definition set_to (x : JsNumber) (c : t) : t :=
  mk (from c) x (active c) (rendered c) (bars c).

Definition set_bars (b : list Bar.t) (c : t) : t :=
  mk (from c) (to c) (active c) (rendered c) b.

Definition set_rendered (r : bool) (c : t) : t :=
  mk (from c) (to c) (active c) r (bars c).
End Chunk.

Module ChartCache.
Record t := mk {
  chunks : list Chunk.t;
  cacheRange : TimeRange.t
}.

(** Modelled from the spec: [saveChunk] of [chartCache.ts], which is not
    part of the sources.  "[saveChunk(descriptor)] creates and appends a
    new chunk, returns it as the new active chunk": the cache with the
    chunk appended, and the position of the new chunk. *)
Definition saveChunk (descriptor : Chunk.t) (c : t) : t * nat :=
  (mk (chunks c ++ [descriptor]) (cacheRange c), length (chunks c)).
End ChartCache.

(** ** The controller, its configuration and the render sink *)

(** An entry of [store.state.settings.series] or of [defaultChartSeries]. *)
Module SerieSettings.
Record t := mk {
  type : option string;
  input : option string;
  enabled : option bool
}.
End SerieSettings.

(** What the controller only reads: the settings of the store, the constant
    [MAX_BARS_PER_CHUNKS], the table [defaultChartSeries] and the three
    entry points of the series transpiler, none of which is part of the
    sources.  [transpile] throws a compile error or returns a model. *)
Record Env := {
  timeframe : Z;
  timezoneOffset : Z;
  activeExchanges : gmap string bool;
  MAX_BARS_PER_CHUNKS : Z;
  settingsSeries : gmap string SerieSettings.t;
  defaultChartSeries : gmap string SerieSettings.t;
  transpile : ActiveSerie.t → result SerieTranspilationResult.t;
  getAdapter : string → SerieAdapter;
  updateInstructionsArgument : list SerieInstruction.t → list SerieInstruction.t
}.

(** [store.state.app.activeExchanges[key]] as a condition. *)
Definition isActive (env : Env) (key : string) : bool :=
  default false (activeExchanges env !! key).

(** A point of the render sink is an object: [{time, value}],
    [{time, open, high, low, close}] or [{time, ...custom}]. *)
Abbreviation Point := (gmap string JsValue).

(** Calls received by the chart library, in order. *)
Inductive SinkCall :=
| SinkAddSeries (id type : string)
| SinkUpdate (id : string) (point : Point)
| SinkSetData (id : string) (points : list Point).

(** [activeChunk] refers to a chunk held by the cache: it is the position
    of that chunk in [chartCache.chunks].  [serieErrors], [enabledSeries]
    and [dialogOpened] are the parts of the store and of the dialog service
    that the controller writes. *)
Module Controller.
Record t := mk {
  chartInstance : bool;
  activeSeries : list ActiveSerie.t;
  activeRenderer : option Renderer.t;
  activeChunk : option nat;
  renderedRange : TimeRange.t;
  chartCache : ChartCache.t;
  panPrevented : bool;
  serieErrors : gmap string (option string);
  enabledSeries : gset string;
  dialogOpened : bool;
  sink : list SinkCall
}.

Definition set_activeSeries (x : list ActiveSerie.t) (c : t) : t :=
  mk (chartInstance c) x (activeRenderer c) (activeChunk c) (renderedRange c)
     (chartCache c) (panPrevented c) (serieErrors c) (enabledSeries c)
     (dialogOpened c) (sink c).

Definition set_activeRenderer (x : option Renderer.t) (c : t) : t :=
  mk (chartInstance c) (activeSeries c) x (activeChunk c) (renderedRange c)
     (chartCache c) (panPrevented c) (serieErrors c) (enabledSeries c)
     (dialogOpened c) (sink c).

Definition set_activeChunk (x : option nat) (c : t) : t :=
  mk (chartInstance c) (activeSeries c) (activeRenderer c) x (renderedRange c)
     (chartCache c) (panPrevented c) (serieErrors c) (enabledSeries c)
     (dialogOpened c) (sink c).

Definition set_renderedRange (x : TimeRange.t) (c : t) : t :=
  mk (chartInstance c) (activeSeries c) (activeRenderer c) (activeChunk c) x
     (chartCache c) (panPrevented c) (serieErrors c) (enabledSeries c)
     (dialogOpened c) (sink c).

Definition set_chartCache (x : ChartCache.t) (c : t) : t :=
  mk (chartInstance c) (activeSeries c) (activeRenderer c) (activeChunk c)
     (renderedRange c) x (panPrevented c) (serieErrors c) (enabledSeries c)
     (dialogOpened c) (sink c).

Definition set_panPrevented (x : bool) (c : t) : t :=
  mk (chartInstance c) (activeSeries c) (activeRenderer c) (activeChunk c)
     (renderedRange c) (chartCache c) x (serieErrors c) (enabledSeries c)
     (dialogOpened c) (sink c).

Definition set_serieErrors (x : gmap string (option string)) (c : t) : t :=
  mk (chartInstance c) (activeSeries c) (activeRenderer c) (activeChunk c)
     (renderedRange c) (chartCache c) (panPrevented c) x (enabledSeries c)
     (dialogOpened c) (sink c).

Definition set_enabledSeries (x : gset string) (c : t) : t :=
  mk (chartInstance c) (activeSeries c) (activeRenderer c) (activeChunk c)
     (renderedRange c) (chartCache c) (panPrevented c) (serieErrors c) x
     (dialogOpened c) (sink c).

Definition set_dialogOpened (x : bool) (c : t) : t :=
  mk (chartInstance c) (activeSeries c) (activeRenderer c) (activeChunk c)
     (renderedRange c) (chartCache c) (panPrevented c) (serieErrors c)
     (enabledSeries c) x (sink c).

Definition set_sink (x : list SinkCall) (c : t) : t :=
  mk (chartInstance c) (activeSeries c) (activeRenderer c) (activeChunk c)
     (renderedRange c) (chartCache c) (panPrevented c) (serieErrors c)
     (enabledSeries c) (dialogOpened c) x.
End Controller.

(** [store.commit('app/SET_SERIE_ERROR', {id, error})] followed by opening
    the series dialog unless one is open. *)
Definition reportSerieError (id : string) (error : string) (c : Controller.t)
    : Controller.t :=
  Controller.set_dialogOpened true
    (Controller.set_serieErrors (<[id := Some error]> (Controller.serieErrors c)) c).

(** [series && series.indexOf(id) === -1]: the serie is left out of a
    restricted recomputation. *)
Definition excluded (series : option (list string)) (id : string) : bool :=
  match series with
  | Some ids => negb (bool_decide (id ∈ ids))
  | None => false
  end.

(** ** Binding series to a renderer *)

(** [unbindSerie(serie, renderer)] *)
Definition unbindSerie (serie : ActiveSerie.t) (renderer : option Renderer.t)
    : option Renderer.t :=
  match renderer with
  | Some r =>
      Some (Renderer.set_series (delete (ActiveSerie.id serie) (Renderer.series r)) r)
  | None => None
  end.

(** [bindSerie(serie, renderer)]: the instructions of the model are copied
    through JSON into the renderer and the adapter is resolved.  The serie
    and the renderer are both written. *)
Definition bindSerie (env : Env) (serie : ActiveSerie.t)
    (renderer : option Renderer.t) : ActiveSerie.t * option Renderer.t :=
  match renderer, ActiveSerie.model serie with
  | Some r, Some m =>
      match Renderer.series r !! ActiveSerie.id serie with
      | Some _ => (serie, renderer)
      | None =>
          let functions :=
            updateInstructionsArgument env
              (jsonInstruction <$> SerieTranspilationResult.functions m) in
          let variables := jsonInstruction <$> SerieTranspilationResult.variables m in
          let data :=
            RendererSerieData.mk (Prim Null) (Prim Null) variables functions in
          (ActiveSerie.set_adapter
             (Some (getAdapter env (SerieTranspilationResult.output m))) serie,
           Some (Renderer.set_series
                   (<[ActiveSerie.id serie := data]> (Renderer.series r)) r))
      end
  | _, _ => (serie, renderer)
  end.

(** The body of the loop of [createRenderer]: binding writes the serie too,
    so the series seen so far are kept with the renderer. *)
Definition bindInto (env : Env) (series : option (list string))
    (acc : Renderer.t * list ActiveSerie.t) (serie : ActiveSerie.t)
    : Renderer.t * list ActiveSerie.t :=
  if excluded series (ActiveSerie.id serie) then (acc.1, acc.2 ++ [serie])
  else
    match bindSerie env serie (Some acc.1) with
    | (serie', Some r') => (r', acc.2 ++ [serie'])
    | (serie', None) => (acc.1, acc.2 ++ [serie'])
    end.

(** [createRenderer(firstBarTimestamp, series)]: the renderer, and the
    active series as binding left them. *)
Definition createRenderer (env : Env) (activeSeries : list ActiveSerie.t)
    (firstBarTimestamp : JsNumber) (series : option (list string))
    : Renderer.t * list ActiveSerie.t :=
  fold_left (bindInto env series) activeSeries
    (Renderer.mk firstBarTimestamp (CombinedBar.mk 0 0 0 0 0 0 None None) ∅ None ∅, []).

(** ** Advancing a renderer to the next bucket *)

(** [resetBar(bar)] *)
Definition resetBar (b : Bar.t) : Bar.t :=
  Bar.mk (Bar.exchange b) (Bar.pair b) (Bar.timestamp b)
         (Bar.close b) (Bar.close b) (Bar.close b) (Bar.close b)
         0 0 0 0 0 0 (Some false).

(** [resetRendererBar(renderer)]: a new combined bar, and [resetBar] on the
    bars of [renderer.exchanges] when that property is defined. *)
Definition resetRendererBar (renderer : Renderer.t) : Renderer.t :=
  Renderer.mk (Renderer.timestamp renderer)
    (CombinedBar.mk 0 0 0 0 0 0 None (Some false))
    (Renderer.sources renderer)
    (match Renderer.exchanges renderer with
     | Some exchanges => Some (resetBar <$> exchanges)
     | None => None
     end)
    (Renderer.series renderer).

(** The bucket-advance step of one function instruction. *)
Definition advanceFunction (instruction : SerieInstruction.t) : SerieInstruction.t :=
  match SerieInstruction.state instruction with
  | AverageState points sum count output =>
      let points := points ++ [output] in
      let sum := Dbl (toDouble sum + toDouble output)%float in
      let count := count + 1 in
      SerieInstruction.mk (SerieInstruction.name instruction)
        (SerieInstruction.arg instruction)
        (if SerieInstruction.arg instruction <? count then
           match points with
           | oldest :: rest =>
               AverageState rest (Dbl (toDouble sum - toDouble oldest)%float)
                            (count - 1) output
           | [] =>
               AverageState points (Dbl (toDouble sum - toDouble DblUndefined)%float)
                            (count - 1) output
           end
         else AverageState points sum count output)
  | OhlcState _ _ _ close =>
      SerieInstruction.mk (SerieInstruction.name instruction)
        (SerieInstruction.arg instruction) (OhlcState close close close close)
  | _ => instruction
  end.

(** The bucket-advance step of one variable instruction. *)
Definition advanceVariable (instruction : SerieInstruction.t) : SerieInstruction.t :=
  match SerieInstruction.state instruction with
  | ArrayState items =>
      let items := default Undefined (head items) :: items in
      SerieInstruction.mk (SerieInstruction.name instruction)
        (SerieInstruction.arg instruction)
        (ArrayState
           (if SerieInstruction.arg instruction <? Z.of_nat (length items)
            then removelast items else items))
  | _ => instruction
  end.

Definition advanceSerieData (data : RendererSerieData.t) : RendererSerieData.t :=
  RendererSerieData.mk (RendererSerieData.value data) (RendererSerieData.point data)
    (advanceVariable <$> RendererSerieData.variables data)
    (advanceFunction <$> RendererSerieData.functions data).

(** The loop of [nextBar] over the active series: a serie without data in
    the renderer is skipped. *)
Definition advanceSeries (activeSeries : list ActiveSerie.t)
    (series : gmap string RendererSerieData.t) : gmap string RendererSerieData.t :=
  fold_left
    (fun series serie =>
       match series !! ActiveSerie.id serie with
       | Some data => <[ActiveSerie.id serie := advanceSerieData data]> series
       | None => series
       end)
    activeSeries series.

(** [nextBar(timestamp, renderer)] *)
Definition nextBar (activeSeries : list ActiveSerie.t) (timestamp : JsNumber)
    (renderer : Renderer.t) : Renderer.t :=
  let renderer :=
    if negb (flag (CombinedBar.empty (Renderer.bar renderer)))
    then Renderer.set_series
           (advanceSeries activeSeries (Renderer.series renderer)) renderer
    else renderer in
  resetRendererBar (Renderer.set_timestamp timestamp renderer).

(** ** Recomputing the series of a bucket *)

Fixpoint foldM {A B} (f : B → A → result B) (l : list A) (b : B) : result B :=
  match l with
  | [] => Ok b
  | a :: l' => b' ← f b a; foldM f l' b'
  end.

(** [computeBar] is called on the live renderer ([this.activeRenderer]
    itself) and on the temporary renderer of a replay.  It unbinds from
    [this.activeRenderer]: from the renderer it computes in the first case,
    from another object in the second. *)
Inductive RendererRef := LiveRenderer | TemporaryRenderer.

(** A write to the renderer being computed: the live renderer is the object
    [this.activeRenderer] refers to, so the controller sees the write; the
    temporary renderer is an object of its own. *)
Definition written (which : RendererRef) (renderer : Renderer.t) (c : Controller.t)
    : Controller.t :=
  match which with
  | LiveRenderer => Controller.set_activeRenderer (Some renderer) c
  | TemporaryRenderer => c
  end.

(** The body of the loop of [computeBar] for one active serie.  The state
    is the controller, the renderer being computed and the points so far. *)
Definition computeSerie (which : RendererRef) (time : JsNumber)
    (series : option (list string))
    (st : Controller.t * Renderer.t * gmap string Point) (serie : ActiveSerie.t)
    : result (Controller.t * Renderer.t * gmap string Point) :=
  let '(c, renderer, points) := st in
  let id := ActiveSerie.id serie in
  if excluded series id then Ok st
  else
    match Renderer.series renderer !! id, ActiveSerie.adapter serie,
          ActiveSerie.model serie with
    | None, _, _ => Throw "TypeError: cannot read properties of undefined (serieData)"
    | Some _, None, _ => Throw "TypeError: serie.adapter is not a function"
    | Some _, Some _, None => Throw "TypeError: cannot read properties of null (model)"
    | Some serieData, Some adapter, Some model =>
        let '(point, functions, variables) :=
          adapter renderer (RendererSerieData.functions serieData)
                  (RendererSerieData.variables serieData) in
        '(val, emitted) ←
          match SerieTranspilationResult.type model with
          | value =>
              Ok (point, ({[ "time" := Prim time; "value" := point ]} : Point))
          | ohlc =>
              close ← getProp point "close";
              open ← getProp point "open";
              high ← getProp point "high";
              low ← getProp point "low";
              Ok (Prim close,
                  ({[ "time" := Prim time; "open" := Prim open; "high" := Prim high;
                      "low" := Prim low; "close" := Prim close ]} : Point))
          | custom =>
              v ← getProp point "value";
              Ok (Prim v, spread point ∪ ({[ "time" := Prim time ]} : Point))
          end;
        let serieData' := RendererSerieData.mk val point variables functions in
        let renderer :=
          Renderer.set_series (<[id := serieData']> (Renderer.series renderer)) renderer in
        let c := written which renderer c in
        let points := <[id := emitted]> points in
        if isNaN val then
          let c := reportSerieError id (id +:+ " is NaN") c in
          match which with
          | LiveRenderer =>
              let renderer :=
                Renderer.set_series (delete id (Renderer.series renderer)) renderer in
              Ok (written LiveRenderer renderer c, renderer, points)
          | TemporaryRenderer =>
              Ok (Controller.set_activeRenderer
                    (unbindSerie serie (Controller.activeRenderer c)) c,
                  renderer, points)
          end
        else if bool_decide (val = Prim Null)
                || (String.eqb (ActiveSerie.type serie) "histogram"
                    && bool_decide (val = Prim (Num 0)))
        then Ok (c, renderer, delete id points)
        else Ok (c, renderer, points)
    end.

(** [computeBar(renderer, series)] *)
Definition computeBar (env : Env) (which : RendererRef) (c : Controller.t)
    (renderer : Renderer.t) (series : option (list string))
    : result (Controller.t * Renderer.t * gmap string Point) :=
  let time := js_add (Renderer.timestamp renderer) (Num (timezoneOffset env / 1000)) in
  foldM (computeSerie which time series) (Controller.activeSeries c)
        (c, renderer, ∅).

(** [computeBar(this.activeRenderer)] *)
Definition computeActiveBar (env : Env) (c : Controller.t)
    : result (Controller.t * gmap string Point) :=
  match Controller.activeRenderer c with
  | None => Throw "TypeError: cannot read properties of null (renderer)"
  | Some renderer =>
      '(c, renderer, points) ← computeBar env LiveRenderer c renderer None;
      Ok (Controller.set_activeRenderer (Some renderer) c, points)
  end.

(** ** The render sink *)

(** [preventPan()]; the timer that releases the flag is not modelled. *)
Definition preventPan (c : Controller.t) : Controller.t :=
  Controller.set_panPrevented true c.

(** [updateBar(bar)] *)
Definition updateBar (bar : gmap string Point) (c : Controller.t) : Controller.t :=
  fold_left
    (fun c serie =>
       match bar !! ActiveSerie.id serie with
       | Some point =>
           Controller.set_sink
             (Controller.sink c ++ [SinkUpdate (ActiveSerie.id serie) point]) c
       | None => c
       end)
    (Controller.activeSeries c) c.

(** [replaceData(computedSeries)] *)
Definition replaceData (computedSeries : gmap string (list Point)) (c : Controller.t)
    : Controller.t :=
  fold_left
    (fun c serie =>
       match computedSeries !! ActiveSerie.id serie with
       | Some (p :: ps) =>
           Controller.set_sink
             (Controller.sink c ++ [SinkSetData (ActiveSerie.id serie) (p :: ps)]) c
       | _ => c
       end)
    (Controller.activeSeries c) (preventPan c).

(** [clearChart()] *)
Definition clearChart (c : Controller.t) : Controller.t :=
  let c :=
    fold_left
      (fun c serie =>
         Controller.set_sink
           (Controller.sink c ++ [SinkSetData (ActiveSerie.id serie) []]) c)
      (Controller.activeSeries c) (preventPan c) in
  Controller.set_renderedRange (TimeRange.mk Null Null) c.

(** ** The live fold: [renderRealtimeTrades] *)

(** [cloneSourceBar(sourceBar, timestamp)]; [Undefined] is the omitted
    argument.  [empty] is not copied. *)
Definition cloneSourceBar (sourceBar : Bar.t) (timestamp : JsNumber) : Bar.t :=
  Bar.mk (Bar.exchange sourceBar) (Bar.pair sourceBar)
    (if js_truthy timestamp then timestamp else Bar.timestamp sourceBar)
    (Bar.open sourceBar) (Bar.high sourceBar) (Bar.low sourceBar) (Bar.close sourceBar)
    (Bar.vbuy sourceBar) (Bar.vsell sourceBar) (Bar.cbuy sourceBar)
    (Bar.csell sourceBar) (Bar.lbuy sourceBar) (Bar.lsell sourceBar) None.

(** The bucket of a trade:
    [Math.floor(timestamp / 1000 / timeframe) * timeframe]. *)
Definition bucketOf (env : Env) (trade : Trade.t) : Z :=
  Trade.timestamp trade / 1000 / timeframe env * timeframe env.

Definition identifierOf (trade : Trade.t) : string :=
  Trade.exchange trade +:+ Trade.pair trade.

(** Folding one trade into the renderer: the part of the loop body after
    the bucket advancement. *)
Definition foldTrade (env : Env) (trade : Trade.t) (renderer : Renderer.t)
    : Renderer.t :=
  let identifier := identifierOf trade in
  let amount := Trade.price trade * Trade.size trade in
  let source :=
    match Renderer.sources renderer !! identifier with
    | Some source => source
    | None =>
        resetBar (Bar.mk (Trade.exchange trade) None Undefined 0 0 0
                         (Trade.price trade) 0 0 0 0 0 0 None)
    end in
  let source := Bar.set_empty (Some false) source in
  let active := isActive env identifier in
  if Trade.liquidation trade then
    let source := Bar.add_l (Trade.side trade) amount source in
    let bar :=
      if active then
        CombinedBar.set_empty (Some false)
          (CombinedBar.add_l (Trade.side trade) amount (Renderer.bar renderer))
      else Renderer.bar renderer in
    Renderer.set_bar bar
      (Renderer.set_sources (<[identifier := source]> (Renderer.sources renderer))
         renderer)
  else
    let source :=
      Bar.add_v (Trade.side trade) amount
        (Bar.incr_c (Trade.side trade) (Bar.set_price (Trade.price trade) source)) in
    let bar :=
      if active then
        CombinedBar.set_empty (Some false)
          (CombinedBar.incr_c (Trade.side trade)
             (CombinedBar.add_v (Trade.side trade) amount (Renderer.bar renderer)))
      else Renderer.bar renderer in
    Renderer.set_bar bar
      (Renderer.set_sources (<[identifier := source]> (Renderer.sources renderer))
         renderer).

(** Choosing the chunk that receives the closed bucket. *)
Definition selectActiveChunk (env : Env) (renderer : Renderer.t) (c : Controller.t)
    : result Controller.t :=
  let cache := Controller.chartCache c in
  let chunks := ChartCache.chunks cache in
  needed ←
    match Controller.activeChunk c with
    | None => Ok true
    | Some i =>
        match chunks !! i with
        | Some chunk =>
            Ok (js_lt (Chunk.to chunk) (Renderer.timestamp renderer)
                && (MAX_BARS_PER_CHUNKS env <=? Z.of_nat (length (Chunk.bars chunk))))
        | None => Throw "activeChunk is not a chunk of the cache"
        end
    end;
  if negb needed then Ok c
  else
    match Controller.activeChunk c with
    | None =>
        if js_strict_eq (TimeRange.to (ChartCache.cacheRange cache))
                        (Renderer.timestamp renderer)
        then
          match last chunks with
          | None => Throw "TypeError: cannot set properties of undefined (chunk)"
          | Some chunk =>
              let i := pred (length chunks) in
              Ok (Controller.set_activeChunk (Some i)
                    (Controller.set_chartCache
                       (ChartCache.mk (<[i := Chunk.set_active true chunk]> chunks)
                                      (ChartCache.cacheRange cache)) c))
          end
        else
          let '(cache, i) :=
            ChartCache.saveChunk
              (Chunk.mk (Renderer.timestamp renderer) (Renderer.timestamp renderer)
                        true true []) cache in
          Ok (Controller.set_activeChunk (Some i) (Controller.set_chartCache cache c))
    | Some j =>
        let cache :=
          ChartCache.mk (alter (Chunk.set_active false) j chunks)
                        (ChartCache.cacheRange cache) in
        let '(cache, i) :=
          ChartCache.saveChunk
            (Chunk.mk (Renderer.timestamp renderer) (Renderer.timestamp renderer)
                      true true []) cache in
        Ok (Controller.set_activeChunk (Some i) (Controller.set_chartCache cache c))
    end.

(** The bars a closed bucket hands to the active chunk: a copy of every
    source bar whose [empty] flag is not set.  The loop of the code visits
    the sources in the order in which they first traded; the map gives them
    in the order of its keys, so only what does not depend on the order of
    these bars is stated of them. *)
Definition finishedBars (renderer : Renderer.t) : list Bar.t :=
  (fun source => cloneSourceBar source (Renderer.timestamp renderer))
    <$> filter (fun source => negb (flag (Bar.empty source)))
          (map_to_list (Renderer.sources renderer)).*2.

(** Closing the bucket of the live renderer and advancing it to the bucket
    [timestamp]. *)
Definition closeBucket (env : Env) (timestamp : Z)
    (st : Controller.t * list (gmap string Point))
    : result (Controller.t * list (gmap string Point)) :=
  let '(c, formatedBars) := st in
  match Controller.activeRenderer c with
  | None => Throw "TypeError: cannot read properties of null (renderer)"
  | Some renderer =>
      c ← selectActiveChunk env renderer c;
      '(c, formatedBars) ←
        (if negb (flag (CombinedBar.empty (Renderer.bar renderer))) then
           '(c, points) ← computeActiveBar env c;
           Ok (c, formatedBars ++ [points])
         else Ok (c, formatedBars));
      match Controller.activeRenderer c, Controller.activeChunk c with
      | Some renderer, Some i =>
          let cache := Controller.chartCache c in
          match ChartCache.chunks cache !! i with
          | None => Throw "activeChunk is not a chunk of the cache"
          | Some chunk =>
              let chunk :=
                Chunk.set_to (Renderer.timestamp renderer)
                  (Chunk.set_bars (Chunk.bars chunk ++ finishedBars renderer) chunk) in
              let cache :=
                ChartCache.mk (<[i := chunk]> (ChartCache.chunks cache))
                  (TimeRange.mk (TimeRange.from (ChartCache.cacheRange cache))
                                (Renderer.timestamp renderer)) in
              let c := Controller.set_chartCache cache c in
              let range := Controller.renderedRange c in
              let c :=
                if js_lt (TimeRange.to range) (Renderer.timestamp renderer)
                then Controller.set_renderedRange
                       (TimeRange.mk (TimeRange.from range) (Renderer.timestamp renderer)) c
                else c in
              Ok (Controller.set_activeRenderer
                    (Some (nextBar (Controller.activeSeries c) (Num timestamp) renderer)) c,
                  formatedBars)
          end
      | _, _ => Throw "TypeError: cannot read properties of null"
      end
  end.

(** The body of the loop of [renderRealtimeTrades] for one trade. *)
Definition renderTrade (env : Env) (st : Controller.t * list (gmap string Point))
    (trade : Trade.t) : result (Controller.t * list (gmap string Point)) :=
  let timestamp := bucketOf env trade in
  '(c, formatedBars) ←
    match Controller.activeRenderer st.1 with
    | None =>
        let '(renderer, activeSeries) :=
          createRenderer env (Controller.activeSeries st.1) (Num timestamp) None in
        Ok (preventPan
              (Controller.set_activeRenderer (Some renderer)
                 (Controller.set_activeSeries activeSeries st.1)), st.2)
    | Some renderer =>
        if js_lt (Renderer.timestamp renderer) (Num timestamp) then
          '(c, formatedBars) ← closeBucket env timestamp st;
          Ok (preventPan c, formatedBars)
        else Ok st
    end;
  match Controller.activeRenderer c with
  | None => Throw "TypeError: cannot read properties of null (renderer)"
  | Some renderer =>
      Ok (Controller.set_activeRenderer (Some (foldTrade env trade renderer)) c,
          formatedBars)
  end.

(** [renderRealtimeTrades(trades)] *)
Definition renderRealtimeTrades (env : Env) (trades : list Trade.t) (c : Controller.t)
    : result Controller.t :=
  match trades with
  | [] => Ok c
  | _ =>
      '(c, formatedBars) ← foldM (renderTrade env) trades (c, []);
      match Controller.activeRenderer c with
      | None => Throw "TypeError: cannot read properties of null (renderer)"
      | Some renderer =>
          '(c, formatedBars) ←
            (if negb (flag (CombinedBar.empty (Renderer.bar renderer))) then
               '(c, points) ← computeActiveBar env c;
               let range := Controller.renderedRange c in
               let c :=
                 if js_lt (TimeRange.to range) (Renderer.timestamp renderer)
                 then Controller.set_renderedRange
                        (TimeRange.mk (TimeRange.from range)
                                      (Renderer.timestamp renderer)) c
                 else c in
               Ok (c, formatedBars ++ [points])
             else Ok (c, formatedBars));
          Ok (fold_left (fun c bar => updateBar bar c) formatedBars c)
      end
  end.

(** ** The replay: [renderBars] and [renderVisibleChunks] *)

(** The state of the loop of [renderBars]: the controller, the temporary
    renderer once it exists, the points computed per serie, and the range
    [from], [to] of the buckets computed. *)
Module Replay.
Record t := mk {
  controller : Controller.t;
  temporaryRenderer : option Renderer.t;
  computedSeries : gmap string (list Point);
  from : JsNumber;
  to : JsNumber
}.
End Replay.

(** [for (const id in computedBar) computedSeries[id].push(computedBar[id])] *)
Definition pushPoints (computedBar : gmap string Point)
    (computedSeries : gmap string (list Point)) : gmap string (list Point) :=
  map_fold
    (fun id point acc => <[id := default [] (acc !! id) ++ [point]]> acc)
    computedSeries computedBar.

(** The bucket of the temporary renderer is computed when it has data. *)
Definition computeReplayBucket (env : Env) (series : option (list string))
    (st : Replay.t) : result Replay.t :=
  match Replay.temporaryRenderer st with
  | Some renderer =>
      if flag (CombinedBar.hasData (Renderer.bar renderer)) then
        let from :=
          if js_strict_eq (Replay.from st) Null then Renderer.timestamp renderer
          else Replay.from st in
        '(c, renderer, computedBar) ←
          computeBar env TemporaryRenderer (Replay.controller st) renderer series;
        Ok (Replay.mk c (Some renderer)
              (pushPoints computedBar (Replay.computedSeries st))
              from (Renderer.timestamp renderer))
      else Ok st
  | None => Ok st
  end.

(** The body of the loop of [renderBars] for one bar of the sequence. *)
Definition replayBar (env : Env) (series : option (list string)) (st : Replay.t)
    (bar : Bar.t) : result Replay.t :=
  '(st, renderer) ←
    match Replay.temporaryRenderer st with
    | Some renderer =>
        if js_gt (Bar.timestamp bar) (Renderer.timestamp renderer) then
          st ← computeReplayBucket env series st;
          match Replay.temporaryRenderer st with
          | Some renderer =>
              Ok (st, nextBar (Controller.activeSeries (Replay.controller st))
                              (Bar.timestamp bar) renderer)
          | None => Throw "TypeError: cannot read properties of undefined (renderer)"
          end
        else Ok (st, renderer)
    | None =>
        let '(renderer, activeSeries) :=
          createRenderer env (Controller.activeSeries (Replay.controller st))
                         (Bar.timestamp bar) series in
        Ok (Replay.mk (Controller.set_activeSeries activeSeries (Replay.controller st))
                      None (Replay.computedSeries st) (Replay.from st) (Replay.to st),
            renderer)
    end;
  if negb (isActive env (Bar.exchange bar)) then
    Ok (Replay.mk (Replay.controller st) (Some renderer) (Replay.computedSeries st)
                  (Replay.from st) (Replay.to st))
  else
    let combined :=
      CombinedBar.add_bar bar
        (CombinedBar.set_hasData (Some true) (Renderer.bar renderer)) in
    match Renderer.exchanges renderer with
    | None => Throw "TypeError: cannot set properties of undefined (exchanges)"
    | Some exchanges =>
        let renderer :=
          Renderer.set_exchanges
            (Some (<[Bar.exchange bar := cloneSourceBar bar Undefined]> exchanges))
            (Renderer.set_bar combined renderer) in
        Ok (Replay.mk (Replay.controller st) (Some renderer) (Replay.computedSeries st)
                      (Replay.from st) (Replay.to st))
    end.

(** [renderBars(bars, series)] *)
Definition renderBars (env : Env) (bars : list Bar.t) (series : option (list string))
    (c : Controller.t) : result Controller.t :=
  match bars with
  | [] => Ok c
  | _ =>
      st ← foldM (replayBar env series) bars (Replay.mk c None ∅ Null Null);
      st ← computeReplayBucket env series st;
      let c := Replay.controller st in
      let c :=
        match series with
        | None =>
            Controller.set_renderedRange (TimeRange.mk (Replay.from st) (Replay.to st))
              (clearChart c)
        | Some _ => c
        end in
      let c := replaceData (Replay.computedSeries st) c in
      match Controller.activeRenderer c, Replay.temporaryRenderer st with
      | Some active, Some temporary =>
          Ok (Controller.set_activeRenderer
                (Some (Renderer.set_series
                         (Renderer.series temporary ∪ Renderer.series active) active)) c)
      | Some active, None => Throw "TypeError: cannot read properties of undefined"
      | None, temporary => Ok (Controller.set_activeRenderer temporary c)
      end
  end.

(** The lookback of the chunk selection, in buckets. *)
Definition lookback : Z := 20.

(** What the time scale of the chart reports: the visible range and the
    visible logical range (positions counted in bars), or [null] for both. *)
Module TimeScale.
Record t := mk {
  visibleFrom : Z;
  visibleTo : Z;
  logicalFrom : Z;
  logicalTo : Z
}.
End TimeScale.

(** [getVisibleRange()] *)
Definition getVisibleRange (env : Env) (scale : option TimeScale.t) : option (Z * Z) :=
  match scale with
  | Some s =>
      Some (TimeScale.visibleFrom s - timezoneOffset env / 1000,
            TimeScale.visibleTo s - timezoneOffset env / 1000)
  | None => None
  end.

(** The start of the selection: the visible start, moved back to the first
    logical position when that position is negative. *)
Definition selectionStart (env : Env) (scale : TimeScale.t) : Z :=
  let from := TimeScale.visibleFrom scale - timezoneOffset env / 1000 in
  if TimeScale.logicalFrom scale <? 0
  then from + timeframe env * TimeScale.logicalFrom scale
  else from.

(** The callback of [filter] in [renderVisibleChunks]: the value given to
    [c.rendered]. *)
Definition isRendered (env : Env) (scale : option TimeScale.t) (chunk : Chunk.t) : bool :=
  match scale with
  | None => true
  | Some s => js_gt (Chunk.to chunk) (Num (selectionStart env s - timeframe env * lookback))
  end.

(** The chunks of the cache with [rendered] updated, and the bars of the
    selected chunks in the order of the cache. *)
Definition selectChunks (env : Env) (scale : option TimeScale.t) (chunks : list Chunk.t)
    : list Chunk.t * list Bar.t :=
  let chunks := (fun c => Chunk.set_rendered (isRendered env scale c) c) <$> chunks in
  (chunks, concat (Chunk.bars <$> filter (fun c => Chunk.rendered c = true) chunks)).

(** [renderVisibleChunks()] *)
Definition renderVisibleChunks (env : Env) (scale : option TimeScale.t)
    (c : Controller.t) : result Controller.t :=
  let cache := Controller.chartCache c in
  match ChartCache.chunks cache with
  | [] => Ok c
  | _ =>
      if negb (Controller.chartInstance c) then Ok c
      else
        let '(chunks, bars) := selectChunks env scale (ChartCache.chunks cache) in
        renderBars env bars None
          (Controller.set_chartCache (ChartCache.mk chunks (ChartCache.cacheRange cache)) c)
  end.

(** ** Registering a serie: [prepareSerie] and [addSerie] *)

Definition isOhlcVisual (type : string) : bool :=
  String.eqb type "candlestick" || String.eqb type "bar".

(** The [catch] block of [prepareSerie]. *)
Definition prepareFailed (serie : ActiveSerie.t) (message : string) (c : Controller.t)
    : bool * ActiveSerie.t * Controller.t :=
  (false, serie, reportSerieError (ActiveSerie.id serie) message c).

(** [prepareSerie(serie)]: [true] and the serie with its model, or [false]
    and the error recorded.  The transpiler is called twice. *)
Definition prepareSerie (env : Env) (serie : ActiveSerie.t) (c : Controller.t)
    : bool * ActiveSerie.t * Controller.t :=
  match transpile env serie with
  | Throw message => prepareFailed serie message c
  | Ok transpilationResult =>
      match transpile env serie with
      | Throw message => prepareFailed serie message c
      | Ok instructions =>
          let output := SerieTranspilationResult.output transpilationResult in
          let type := SerieTranspilationResult.type transpilationResult in
          let c :=
            Controller.set_serieErrors
              (<[ActiveSerie.id serie := None]> (Controller.serieErrors c)) c in
          let register output type :=
            (true,
             ActiveSerie.set_model
               (Some (SerieTranspilationResult.mk output type
                        (SerieTranspilationResult.variables instructions)
                        (SerieTranspilationResult.functions instructions)
                        (SerieTranspilationResult.references instructions)))
               serie,
             c) in
          if bool_decide (type = ohlc) && negb (isOhlcVisual (ActiveSerie.type serie))
          then register (output +:+ ".close") value
          else if bool_decide (type = value) && isOhlcVisual (ActiveSerie.type serie)
          then
            prepareFailed serie
              "code output is a single value but ohlc object ({open, high, low, close}) was expected"
              c
          else register output type
      end
  end.

(** The series the chart library can create: [chartInstance['add' + Type +
    'Series']] is a function for these types only. *)
Definition chartSeriesTypes : list string :=
  ["line"; "area"; "histogram"; "candlestick"; "bar"].

(** A string property used as a condition: defined and not empty. *)
Definition truthyString (s : option string) : option string :=
  match s with
  | Some x => if String.eqb x "" then None else Some x
  | None => None
  end.

(** The serie object that [addSerie(id)] builds from the settings of the
    store and the defaults, or the error it throws when no type is known. *)
Definition newSerie (env : Env) (id : string) : result ActiveSerie.t :=
  let serieSettings := settingsSeries env !! id in
  let defaultSerieSettings := defaultChartSeries env !! id in
  let pick (f : SerieSettings.t → option string) (s : option SerieSettings.t) :=
    match s with Some x => f x | None => None end in
  let firstOf (a b : option string) :=
    match truthyString a with Some x => Some x | None => truthyString b end in
  match firstOf (pick SerieSettings.type serieSettings)
                (pick SerieSettings.type defaultSerieSettings) with
  | None => Throw "unknown-serie-type"
  | Some serieType =>
      let serieInput :=
        default ""%string
          (firstOf (pick SerieSettings.input serieSettings)
                   (pick SerieSettings.input defaultSerieSettings)) in
      Ok (ActiveSerie.mk false id serieType serieInput None None false)
  end.

(** [addSerie(id)]: [true] when the serie is registered, [false] for the
    early return after a failed preparation. *)
Definition addSerie (env : Env) (id : string) (c : Controller.t)
    : result (bool * Controller.t) :=
  serie ← newSerie env id;
  let c := Controller.set_enabledSeries ({[id]} ∪ Controller.enabledSeries c) c in
  let '(prepared, serie, c) := prepareSerie env serie c in
  if negb prepared then Ok (false, c)
  else if negb (Controller.chartInstance c)
  then Throw "TypeError: cannot read properties of null (chartInstance)"
  else if negb (bool_decide (ActiveSerie.type serie ∈ chartSeriesTypes))
  then Throw "TypeError: chartInstance[apiMethodName] is not a function"
  else
    let c :=
      Controller.set_sink
        (Controller.sink c ++ [SinkAddSeries id (ActiveSerie.type serie)]) c in
    let serie := ActiveSerie.set_api true serie in
    let '(serie, renderer) := bindSerie env serie (Controller.activeRenderer c) in
    Ok (true,
        Controller.set_activeRenderer renderer
          (Controller.set_activeSeries (Controller.activeSeries c ++ [serie]) c)).

(** ** Looking up a serie: [getSerie] *)



(** ** The queue of trades *)

(** The two fields of the queue: the trades waiting to be rendered and the
    lock on rendering. *)
Module Queue.
Record t := mk {
  queuedTrades : list Trade.t;
  preventRender : bool
}.
End Queue.

(** [queueTrades(trades)] *)
Definition queueTrades (trades : list Trade.t) (q : Queue.t) : Queue.t :=
  Queue.mk (Queue.queuedTrades q ++ trades) (Queue.preventRender q).

(** [lockRender()] and [unlockRender()] *)
Definition lockRender (q : Queue.t) : Queue.t :=
  Queue.mk (Queue.queuedTrades q) true.

Definition unlockRender (q : Queue.t) : Queue.t :=
  Queue.mk (Queue.queuedTrades q) false.

(** [releaseQueue()]: the outcome of the rendering, and the queue as the
    call leaves it.  The queue is emptied after [renderRealtimeTrades]: an
    exception of the rendering leaves the method before that, with the
    queue as it was. *)
Definition releaseQueue (env : Env) (q : Queue.t) (c : Controller.t)
    : result Controller.t * Queue.t :=
  match Queue.queuedTrades q with
  | [] => (Ok c, q)
  | trades =>
      if Queue.preventRender q then (Ok c, q)
      else
        match renderRealtimeTrades env trades c with
        | Ok c' => (Ok c', Queue.mk [] (Queue.preventRender q))
        | Throw message => (Throw message, q)
        end
  end.

(** ** Markers of a serie: [setMarkers] *)

Section Markers.
Context {Marker : Type} (time : Marker → Z).

(** The loop of [setMarkers] runs from the last marker to the first and
    removes the first marker it meets that has the time of the new one;
    here on the markers in reverse order. *)
Fixpoint spliceFirst (t : Z) (reversed : list Marker) : list Marker :=
  match reversed with
  | [] => []
  | m :: rest => if time m =? t then rest else m :: spliceFirst t rest
  end.

(** [setMarkers(serie, marker)] on [serie.markers], which starts as
    [undefined]: [None].  The call that hands the markers to the chart is
    deferred by a timer and is not modelled. *)
Definition setMarkers (markers : option (list Marker)) (marker : Marker)
    : list Marker :=
  reverse (spliceFirst (time marker) (reverse (default [] markers))) ++ [marker].
End Markers.

(** ** The FTX feed: [onMessage] *)

Section Feed.
Context {Item : Type} (liquidation : Item → bool).

(** What the exchange emits for a message. *)
Inductive Emit :=
| EmitLiquidations (api : string) (items : list Item)
| EmitTrades (api : string) (items : list Item).

(** The loop of [onMessage]: every item goes to the liquidations or to the
    trades. *)
Definition splitFeed (data : list Item) : list Item * list Item :=
  fold_left
    (fun acc item =>
       if liquidation item then (acc.1, acc.2 ++ [item])
       else (acc.1 ++ [item], acc.2))
    data ([], []).

(** [onMessage(event, api)] on the parsed [json.data], [None] when the
    message has none: the value returned ([true], or [false] for
    [undefined]) and what is emitted, in order. *)
Definition onMessage (api : string) (data : option (list Item)) : bool * list Emit :=
  match data with
  | None | Some [] => (false, [])
  | Some data =>
      let '(trades, liquidations) := splitFeed data in
      (true,
       (match liquidations with [] => [] | _ => [EmitLiquidations api liquidations] end)
       ++ (match trades with [] => [] | _ => [EmitTrades api trades] end))
  end.
End Feed.

(** ** Recombination, as a function of the renderer *)

(** The sum of one field over the source bars of the sources marked
    active. *)
Definition sumActive (env : Env) (field : Bar.t → Z) (sources : gmap string Bar.t) : Z :=
  map_fold
    (fun identifier source acc =>
       if isActive env identifier then field source + acc else acc)
    0 sources.

(** What one source bar adds to that sum. *)
Definition contribution (env : Env) (field : Bar.t → Z) (identifier : string)
    (source : Bar.t) : Z :=
  if isActive env identifier then field source else 0.

(** The combined bar of a renderer is the recombination of its source
    bars. *)
Definition recombined (env : Env) (renderer : Renderer.t) : Prop :=
  let bar := Renderer.bar renderer in
  let sources := Renderer.sources renderer in
  CombinedBar.vbuy bar = sumActive env Bar.vbuy sources
  ∧ CombinedBar.vsell bar = sumActive env Bar.vsell sources
  ∧ CombinedBar.cbuy bar = sumActive env Bar.cbuy sources
  ∧ CombinedBar.csell bar = sumActive env Bar.csell sources
  ∧ CombinedBar.lbuy bar = sumActive env Bar.lbuy sources
  ∧ CombinedBar.lsell bar = sumActive env Bar.lsell sources.

(** ** The state of a rolling average *)

(** The sum of the entries of a queue, added from the oldest entry on, and
    added from the newest entry back. *)
Definition queueSum (points : list JsDouble) : float :=
  fold_left (fun acc point => (acc + toDouble point)%float) points 0%float.

Definition queueSumBack (points : list JsDouble) : float :=
  foldr (fun point acc => (toDouble point + acc)%float) 0%float points.

(** In the words of the specification: the count is the length of the
    queue, the running sum equals the sum of its entries, and the queue holds
    no more than [arg] entries. *)
Definition averageInvariant (arg : Z) (state : InstructionState) : Prop :=
  match state with
  | AverageState points sum count _ =>
      count = Z.of_nat (length points)
      ∧ (toDouble sum =? queueSum points)%float = true
      ∧ Z.of_nat (length points) ≤ arg
  | _ => True
  end.

(** The part of it that does not speak of the sum. *)
Definition queueInvariant (arg : Z) (state : InstructionState) : Prop :=
  match state with
  | AverageState points _ count _ =>
      count = Z.of_nat (length points) ∧ Z.of_nat (length points) ≤ arg
  | _ => True
  end.

(** ** The chunk selection, stated *)

(** In the words of the specification: a chunk is selected when its [to] is
    greater than the start of the visible range minus [lookback] buckets. *)
Definition selectedBySpec (env : Env) (rangeStart : Z) (chunk : Chunk.t) : bool :=
  js_gt (Chunk.to chunk) (Num (rangeStart - lookback * timeframe env)).

(** The rule of the selection, written out: without a visible range every
    chunk is selected; with one, the chunks whose [to] is greater than the
    visible start, moved back by the first logical position when that is
    negative, minus 20 buckets. *)
Definition selectedByRule (env : Env) (scale : option TimeScale.t) (chunk : Chunk.t)
    : bool :=
  match scale with
  | None => true
  | Some s =>
      js_gt (Chunk.to chunk)
        (Num (TimeScale.visibleFrom s - timezoneOffset env / 1000
              + (if TimeScale.logicalFrom s <? 0
                 then timeframe env * TimeScale.logicalFrom s else 0)
              - 20 * timeframe env))
  end.

(** ** Values that give no point *)

(** The value recorded for serie [id] gives no point: it is [null], or it
    is 0 and the series of that identifier are drawn as histograms. *)
Definition omitted (activeSeries : list ActiveSerie.t) (id : string) (v : JsValue) : Prop :=
  v = Prim Null
  ∨ (v = Prim (Num 0)
     ∧ ∀ serie, serie ∈ activeSeries → ActiveSerie.id serie = id →
         ActiveSerie.type serie = "histogram"%string).

(** ** Sums of slots *)

Definition Qsum (l : list Q) : Q := foldr Qplus 0%Q l.

(** A slot that holds something: [!stack] is false. *)
Definition nonzero (q : Q) : Prop := Qeq_bool q 0 = false.

(** ** Concrete runs *)

Module Scenario.
(** Buckets of 60 seconds and no serie.  Source A is marked active under
    its identifier "AUSD", the key of the live fold, and under the name of
    its exchange "A", the key of the replay; source B is not active. *)
Definition env : Env :=
  {| timeframe := 60;
     timezoneOffset := 0;
     activeExchanges := {[ "AUSD"%string := true; "A"%string := true ]};
     MAX_BARS_PER_CHUNKS := 1000;
     settingsSeries := ∅;
     defaultChartSeries := ∅;
     transpile := fun _ => Throw "no formula";
     getAdapter := fun _ _ functions variables => (Prim Null, functions, variables);
     updateInstructionsArgument := fun functions => functions |}.

(** A controller with a chart and nothing else: no serie, no renderer,
    an empty cache, and ranges that are [{from: null, to: null}]. *)
Definition controller : Controller.t :=
  Controller.mk true [] None None (TimeRange.mk Null Null)
    (ChartCache.mk [] (TimeRange.mk Null Null)) false ∅ ∅ false [].

(** A buy of 1 at 100 on A at 0 s, a sell of 2 at 102 on B at 10 s, a buy
    of 1 at 101 on A at 65 s. *)
Definition tradeA0 : Trade.t := Trade.mk "A" "USD" 100 1 buy false 0.
Definition tradeB10 : Trade.t := Trade.mk "B" "USD" 102 2 sell false 10000.
Definition tradeA65 : Trade.t := Trade.mk "A" "USD" 101 1 buy false 65000.

(** Three buys of 1 on A in bucket 0, at 100, 105 and 101. *)
Definition tradeA5 : Trade.t := Trade.mk "A" "USD" 105 1 buy false 5000.
Definition tradeA10 : Trade.t := Trade.mk "A" "USD" 101 1 buy false 10000.

(** A counter over a window of 60 s in three slots of 20 s, fed 5 at
    1 s, 22 s and 43 s. *)
Definition counter : Counter.t :=
  Counter.updates [(1000, 5); (22000, 5); (43000, 5)]%Q
    (Counter.create 60000 20000 None None).

(** The live renderer of the scenario once it is in bucket 60. *)
Definition renderer60 : Renderer.t :=
  Renderer.mk (Num 60) (CombinedBar.mk 101 0 1 0 0 0 (Some false) (Some false))
    {[ "AUSD"%string :=
         Bar.mk "A" None Undefined 100 101 100 101 201 0 2 0 0 0 (Some false);
       "BUSD"%string :=
         Bar.mk "B" None Undefined 102 102 102 102 0 204 0 1 0 0 (Some false) ]}
    None ∅.

Definition live60 : Controller.t :=
  Controller.set_activeRenderer (Some renderer60) controller.

(** A buy of 1 at 99 on A at 30 s, a trade of bucket 0. *)
Definition lateTrade : Trade.t := Trade.mk "A" "USD" 99 1 buy false 30000.

(** A liquidation: a sell of 3 at 100 on A at 70 s. *)
Definition liquidationA70 : Trade.t := Trade.mk "A" "USD" 100 3 sell true 70000.

(** A serie "sma" bound to a renderer of bucket 0 with data: one rolling
    average over 2 buckets, holding 1 and 2, whose last output is 5. *)
Definition sma : ActiveSerie.t :=
  ActiveSerie.mk true "sma" "line" "avg(bar.close, 2)" None None true.

Definition smaData : RendererSerieData.t :=
  RendererSerieData.mk (Prim (Num 5)) (Prim (Num 5)) []
    [SerieInstruction.mk "avg" 2
       (AverageState [Dbl 1; Dbl 2] (Dbl 3) 2 (Dbl 5))].

Definition rendererSma : Renderer.t :=
  Renderer.mk (Num 0) (CombinedBar.mk 100 0 1 0 0 0 (Some false) None) ∅ None
    {[ "sma"%string := smaData ]}.

(** What an adapter does to the rolling averages it computes: it leaves
    its result in [output]. *)
Definition setOutput (output : float) (instruction : SerieInstruction.t)
    : SerieInstruction.t :=
  match SerieInstruction.state instruction with
  | AverageState points sum count _ =>
      SerieInstruction.mk (SerieInstruction.name instruction)
        (SerieInstruction.arg instruction)
        (AverageState points sum count (Dbl output))
  | _ => instruction
  end.

Definition withOutput (output : float) (renderer : Renderer.t) : Renderer.t :=
  Renderer.set_series
    ((fun data =>
        RendererSerieData.mk (RendererSerieData.value data)
          (RendererSerieData.point data) (RendererSerieData.variables data)
          (setOutput output <$> RendererSerieData.functions data))
       <$> Renderer.series renderer)
    renderer.

(** The serie "sma" bound with a rolling average over 2 buckets that has
    seen nothing yet, on a renderer of bucket 0 with data; then three
    buckets close, with the outputs 0.1, 0.2 and 0.3. *)
Definition rendererEmptySma : Renderer.t :=
  Renderer.mk (Num 0) (CombinedBar.mk 100 0 1 0 0 0 (Some false) None) ∅ None
    {[ "sma"%string :=
         RendererSerieData.mk (Prim Null) (Prim Null) []
           [SerieInstruction.mk "avg" 2 (AverageState [] (Dbl 0) 0 DblUndefined)] ]}.

Definition rendererAfterThree : Renderer.t :=
  nextBar [sma] (Num 180)
    (withOutput 0.3
       (nextBar [sma] (Num 120)
          (withOutput 0.2
             (nextBar [sma] (Num 60) (withOutput 0.1 rendererEmptySma))))).

(** A transpiler that knows two formulas: one of kind OHLC, one of kind
    single value. *)
Definition transpileTwo (serie : ActiveSerie.t) : result SerieTranspilationResult.t :=
  if String.eqb (ActiveSerie.input serie) "ohlc(bar)"
  then Ok (SerieTranspilationResult.mk "ohlc(bar)" ohlc [] [] [])
  else if String.eqb (ActiveSerie.input serie) "bar.vbuy"
  then Ok (SerieTranspilationResult.mk "bar.vbuy" value [] [] [])
  else Throw "unknown formula".

(** Settings with a line drawn from an OHLC formula and a candlestick
    drawn from a single value. *)
Definition envSeries : Env :=
  {| timeframe := 60;
     timezoneOffset := 0;
     activeExchanges := {[ "AUSD"%string := true; "A"%string := true ]};
     MAX_BARS_PER_CHUNKS := 1000;
     settingsSeries :=
       {[ "price"%string :=
            SerieSettings.mk (Some "line"%string) (Some "ohlc(bar)"%string) None;
          "volume"%string :=
            SerieSettings.mk (Some "candlestick"%string) (Some "bar.vbuy"%string) None ]};
     defaultChartSeries := ∅;
     transpile := transpileTwo;
     getAdapter := fun _ _ functions variables => (Prim Null, functions, variables);
     updateInstructionsArgument := fun functions => functions |}.

Definition priceSerie : ActiveSerie.t :=
  ActiveSerie.mk false "price" "line" "ohlc(bar)" None None false.

Definition volumeSerie : ActiveSerie.t :=
  ActiveSerie.mk false "volume" "candlestick" "bar.vbuy" None None false.

(** The chart shows the range from 10000 s on, and its first logical
    position is 5 bars before the first bar. *)
Definition scale : TimeScale.t := TimeScale.mk 10000 20000 (-5) 160.

(** A chunk that ends at 8600 s, with one finished bar. *)
Definition oldBar : Bar.t :=
  Bar.mk "A" None (Num 8580) 100 100 100 100 100 0 1 0 0 0 None.

Definition oldChunk : Chunk.t :=
  Chunk.mk (Num 8000) (Num 8600) false false [oldBar].

(** Three series of kind single value: "flat" computes 7, "gaps"
    computes [null], "delta" is a histogram that computes 0. *)
Definition adapterOf (v : JsNumber) : SerieAdapter :=
  fun _ functions variables => (Prim v, functions, variables).

Definition serieOf (id type : string) (v : JsNumber) : ActiveSerie.t :=
  ActiveSerie.mk true id type id
    (Some (SerieTranspilationResult.mk id value [] [] []))
    (Some (adapterOf v)) true.

Definition threeSeries : list ActiveSerie.t :=
  [serieOf "flat" "line" (Num 7); serieOf "gaps" "line" Null;
   serieOf "delta" "histogram" (Num 0)].

(** The data of a serie that was bound and not computed yet. *)
Definition freshData : RendererSerieData.t :=
  RendererSerieData.mk (Prim Null) (Prim Null) [] [].

Definition rendererThree : Renderer.t :=
  Renderer.mk (Num 0) (CombinedBar.mk 100 0 1 0 0 0 (Some false) None) ∅ None
    {[ "flat"%string := freshData; "gaps"%string := freshData;
       "delta"%string := freshData ]}.

Definition controllerThree : Controller.t :=
  Controller.set_activeRenderer (Some rendererThree)
    (Controller.set_activeSeries threeSeries controller).

(** Three series of kind single value.  "ratio" computes 1 while the
    buy volume of the bucket is 100 and [NaN] afterwards, "nan" computes
    [NaN], "seven" computes 7. *)
Definition adapterRatio : SerieAdapter :=
  fun renderer functions variables =>
    (Prim (if CombinedBar.vbuy (Renderer.bar renderer) =? 100 then Num 1 else NaN),
     functions, variables).

Definition envNaN : Env :=
  {| timeframe := 60;
     timezoneOffset := 0;
     activeExchanges := {[ "AUSD"%string := true; "A"%string := true ]};
     MAX_BARS_PER_CHUNKS := 1000;
     settingsSeries := ∅;
     defaultChartSeries := ∅;
     transpile := fun _ => Throw "no formula";
     getAdapter := fun output =>
       if String.eqb output "ratio" then adapterRatio
       else if String.eqb output "nan" then adapterOf NaN
       else adapterOf (Num 7);
     updateInstructionsArgument := fun functions => functions |}.

Definition preparedSerie (id : string) : ActiveSerie.t :=
  ActiveSerie.mk true id "line" id
    (Some (SerieTranspilationResult.mk id value [] [] [])) None true.

Definition controllerNaN : Controller.t :=
  Controller.set_activeSeries
    [preparedSerie "ratio"; preparedSerie "nan"; preparedSerie "seven"] controller.

(** A second buy on A in bucket 0, at 20 s. *)
Definition tradeA20 : Trade.t := Trade.mk "A" "USD" 100 1 buy false 20000.
End Scenario.


(** ** The live bars as a fold of the trades *)

(** A renderer without its series: its bucket, its combined bar and its
    source bars. *)
Definition stripSeries (r : Renderer.t) : Renderer.t := Renderer.set_series ∅ r.

(** One trade on the live bars: a first renderer starts in the bucket of
    the trade; a renderer of an older bucket moves to the bucket of the trade
    with a new combined bar; the trade is then folded. *)
Definition aggregateTrade (env : Env) (live : option Renderer.t) (trade : Trade.t)
    : Renderer.t :=
  let bucket := Num (bucketOf env trade) in
  foldTrade env trade
    (match live with
     | None => Renderer.mk bucket (CombinedBar.mk 0 0 0 0 0 0 None None) ∅ None ∅
     | Some r =>
         if js_lt (Renderer.timestamp r) bucket
         then resetRendererBar (Renderer.set_timestamp bucket r)
         else r
     end).

Definition aggregate (env : Env) (trades : list Trade.t) (live : option Renderer.t)
    : option Renderer.t :=
  fold_left (fun live trade => Some (aggregateTrade env live trade)) trades live.

(** The prices of a bar are in order: the low is the least and the high the
    greatest of the four. *)
Definition orderedPrices (b : Bar.t) : Prop :=
  Bar.low b ≤ Bar.open b ≤ Bar.high b ∧ Bar.low b ≤ Bar.close b ≤ Bar.high b.

(** Two controllers that differ at most in the series data of the live
    renderer, in the recorded errors and in the dialog flag. *)
Definition sameButSeries (c c' : Controller.t) : Prop :=
  Controller.activeSeries c' = Controller.activeSeries c
  ∧ Controller.activeChunk c' = Controller.activeChunk c
  ∧ Controller.chartCache c' = Controller.chartCache c
  ∧ Controller.renderedRange c' = Controller.renderedRange c
  ∧ Controller.sink c' = Controller.sink c
  ∧ Controller.chartInstance c' = Controller.chartInstance c
  ∧ Controller.enabledSeries c' = Controller.enabledSeries c
  ∧ Controller.panPrevented c' = Controller.panPrevented c
  ∧ (stripSeries <$> Controller.activeRenderer c')
    = (stripSeries <$> Controller.activeRenderer c).

(** ** Concrete runs, continued *)

Module Scenario2.
(** A serie "cvd" bound to a renderer of bucket 0 with data: an OHLC
    instruction that opened at 1 and closed at 4, and an array variable of
    at most 3 entries that holds 7, 8 and 9. *)
Definition cvd : ActiveSerie.t :=
  ActiveSerie.mk true "cvd" "candlestick" "cum_ohlc(bar.vbuy)" None None true.

Definition cvdData : RendererSerieData.t :=
  RendererSerieData.mk (Prim (Num 4)) (Prim (Num 4))
    [SerieInstruction.mk "history" 3 (ArrayState [Num 7; Num 8; Num 9])]
    [SerieInstruction.mk "cum" 0 (OhlcState 1 5 0 4)].

Definition rendererCvd : Renderer.t :=
  Renderer.mk (Num 0) (CombinedBar.mk 100 0 1 0 0 0 (Some false) None) ∅ None
    {[ "cvd"%string := cvdData ]}.

(** A serie with a model that is not bound yet. *)
Definition modelled : ActiveSerie.t :=
  ActiveSerie.mk true "flat" "line" "7"
    (Some (SerieTranspilationResult.mk "7" value [] [] [])) None true.

(** A serie whose model has an array variable that holds [undefined],
    [NaN], [null] and 1. *)
Definition sparse : ActiveSerie.t :=
  ActiveSerie.mk true "sparse" "line" "x"
    (Some (SerieTranspilationResult.mk "x" value
             [SerieInstruction.mk "history" 4
                (ArrayState [Undefined; NaN; Null; Num 1])] [] []))
    None true.

(** The controller after a trade in bucket 0 and one in bucket 60: a live
    renderer of bucket 60 and an active chunk that holds the bar of
    bucket 0. *)
Definition controllerLive : Controller.t :=
  match renderRealtimeTrades Scenario.env [Scenario.tradeA0; Scenario.tradeA65]
          Scenario.controller with
  | Ok c => c
  | Throw _ => Scenario.controller
  end.

(** A bar of a source that is not active. *)
Definition idleBar : Bar.t :=
  Bar.mk "C" None (Num 8580) 100 100 100 100 100 0 1 0 0 0 None.
End Scenario2.

(** ** Chunks in the order of time *)

(** The [to] of the chunks of a cache are numbers that do not decrease
    along the cache. *)
Definition sortedByTo (chunks : list Chunk.t) : Prop :=
  ∀ i j ci cj,
    (i ≤ j)%nat → chunks !! i = Some ci → chunks !! j = Some cj →
    ∃ ti tj, Chunk.to ci = Num ti ∧ Chunk.to cj = Num tj ∧ ti ≤ tj.

(** ** The replay before its first bar of an active source *)

(** The temporary renderer of a replay, when there is one, has no
    [exchanges] property and no data yet. *)
Definition untouchedReplay (st : Replay.t) : Prop :=
  match Replay.temporaryRenderer st with
  | Some renderer =>
      Renderer.exchanges renderer = None
      ∧ flag (CombinedBar.hasData (Renderer.bar renderer)) = false
  | None => True
  end.

(** A bar of a source that is not active. *)
Definition inactiveBar (env : Env) (bar : Bar.t) : Prop :=
  isActive env (Bar.exchange bar) = false.
(** * Properties *)

(** ** Results of code that may throw *)

Lemma bind_ok_inv {A B} (r : result A) (k : A → result B) b :
  r ≫= k = Ok b → ∃ a, r = Ok a ∧ k a = Ok b.
Proof. destruct r as [a|m]; simpl; [eauto | discriminate]. Qed.

(** ** The sliding-window counter *)

Section CounterDecay.
Local Open Scope Q_scope.
Import Counter.

(** Once the oldest slot is the one [remaining] was read from, the
    timers that are due subtract every slot that is left. *)
Lemma fire_subtracts_slots now s rest : ∀ c,
  stacks c = s :: rest →
  remaining c = Some s →
  Forall nonzero (s :: rest) →
  length (timeouts c) = length (s :: rest) →
  Forall (fun due => Qle_bool due now = true) (timeouts c) →
  live (fire (length (s :: rest)) now c) == live c - s - Qsum rest
  ∧ stacks (fire (length (s :: rest)) now c) = [].
Proof.
  revert s. induction rest as [|s' rest IH]; intros s c Hstacks Hrem Hnz Hlen Hdue.
  - destruct (timeouts c) as [|due tl] eqn:Htimeouts; [done|].
    apply Forall_cons in Hdue as [Hdue _]. apply Forall_cons in Hnz as [Hs _].
    simpl. rewrite Htimeouts, Hdue. unfold shiftStack.
    rewrite Hstacks, Hrem. simpl. unfold nonzero in Hs. rewrite Hs. simpl.
    split; [ring|done].
  - destruct (timeouts c) as [|due tl] eqn:Htimeouts; [done|].
    apply Forall_cons in Hdue as [Hdue Htl]. apply Forall_cons in Hnz as [Hs Hnz].
    change (fire (length (s :: s' :: rest)) now c)
      with (match timeouts c with
            | due :: _ =>
                if Qle_bool due now
                then fire (length (s' :: rest)) now (shiftStack c) else c
            | [] => c
            end).
    rewrite Htimeouts, Hdue.
    assert (Hshift : stacks (shiftStack c) = s' :: rest
                     ∧ remaining (shiftStack c) = Some s'
                     ∧ timeouts (shiftStack c) = tl
                     ∧ live (shiftStack c) = live c - s).
    { unfold shiftStack. rewrite Hstacks, Hrem, Htimeouts. simpl.
      unfold nonzero in Hs. rewrite Hs. done. }
    destruct Hshift as (Hstacks' & Hrem' & Htimeouts' & Hlive').
    destruct (IH s' (shiftStack c) Hstacks' Hrem' Hnz) as [Hlive Hempty].
    + rewrite Htimeouts'. simpl in Hlen. simpl. lia.
    + by rewrite Htimeouts'.
    + split; [|exact Hempty]. rewrite Hlive, Hlive'. unfold Qsum. simpl. ring.
Qed.

(** A counter that has not seen an expiry yet ([remaining] is 0), whose
    slots are all non-zero and whose timers are all due: when the timers
    have fired, the live sum has lost every slot but the first. *)
Lemma elapse_keeps_first_slot now c s rest :
  stacks c = s :: rest →
  remaining c = Some 0 →
  Forall nonzero (s :: rest) →
  length (timeouts c) = length (s :: rest) →
  Forall (fun due => Qle_bool due now = true) (timeouts c) →
  getValue (elapse now c) == live c - Qsum rest
  ∧ stacks (elapse now c) = [].
Proof.
  intros Hstacks Hrem Hnz Hlen Hdue. unfold elapse, getValue. rewrite Hlen.
  destruct (timeouts c) as [|due tl] eqn:Htimeouts; [done|].
  apply Forall_cons in Hdue as [Hdue Htl]. apply Forall_cons in Hnz as [Hs Hnz].
  change (fire (length (s :: rest)) now c)
    with (match timeouts c with
          | due :: _ =>
              if Qle_bool due now then fire (length rest) now (shiftStack c) else c
          | [] => c
          end).
  rewrite Htimeouts, Hdue.
  assert (Hshift : stacks (shiftStack c) = rest
                   ∧ remaining (shiftStack c) = head rest
                   ∧ timeouts (shiftStack c) = tl
                   ∧ live (shiftStack c) = live c).
  { unfold shiftStack. rewrite Hstacks, Hrem, Htimeouts. simpl.
    unfold nonzero in Hs. rewrite Hs. done. }
  destruct Hshift as (Hstacks' & Hrem' & Htimeouts' & Hlive').
  destruct rest as [|s' rest].
  - simpl. rewrite Hlive', Hstacks'. split; [unfold Qsum; simpl; ring|done].
  - destruct (fire_subtracts_slots now s' rest (shiftStack c) Hstacks' Hrem' Hnz)
      as [Hlive Hempty].
    + rewrite Htimeouts'. simpl in Hlen. simpl. lia.
    + by rewrite Htimeouts'.
    + split; [|exact Hempty]. rewrite Hlive, Hlive'. unfold Qsum. simpl. ring.
Qed.
End CounterDecay.

(** A histogram counter whose value is 0 sends no point. *)
Lemma updateSerie_histogram_zero c :
  Counter.type c = "histogram"%string →
  Qeq_bool (Counter.getValue c) 0 = true →
  Counter.updateSerie c = None.
Proof.
  intros Htype Hzero. unfold Counter.updateSerie. rewrite Htype, Hzero. simpl.
  by rewrite orb_true_r.
Qed.

(** C4, evaluated on the code.  The window of the counter is filled by
    three updates of 5; no update follows.  One window after the last
    update every expiry timer has fired, and [getValue()] is 5, the sum of
    the first slot, not 0: [shiftStack] subtracts [remaining], which is
    still 0 when the first slot expires. *)
Theorem counter_decay_keeps_first_slot :
  Counter.filled Scenario.counter = true
  ∧ Counter.getValue Scenario.counter = 15%Q
  ∧ Counter.timeouts (Counter.elapse (43000 + 60000) Scenario.counter) = []
  ∧ Counter.stacks (Counter.elapse (43000 + 60000) Scenario.counter) = []
  ∧ (Counter.getValue (Counter.elapse (43000 + 60000) Scenario.counter) == 5)%Q
  ∧ ¬ (Counter.getValue (Counter.elapse (43000 + 60000) Scenario.counter) == 0)%Q.
Proof.
  repeat split; try (vm_compute; reflexivity).
  vm_compute. discriminate.
Qed.

(** ** The live fold across buckets *)

(** [nextBar] never writes the source bars of [renderer.sources]. *)
Lemma nextBar_sources activeSeries timestamp renderer :
  Renderer.sources (nextBar activeSeries timestamp renderer) = Renderer.sources renderer.
Proof. unfold nextBar. by destruct (negb _). Qed.

(** Binding a serie writes [renderer.series] only. *)
Lemma bindInto_frame env series acc serie :
  let r := (bindInto env series acc serie).1 in
  Renderer.timestamp r = Renderer.timestamp acc.1
  ∧ Renderer.bar r = Renderer.bar acc.1
  ∧ Renderer.sources r = Renderer.sources acc.1
  ∧ Renderer.exchanges r = Renderer.exchanges acc.1.
Proof.
  unfold bindInto, bindSerie.
  destruct (excluded series (ActiveSerie.id serie)); [done|].
  destruct (ActiveSerie.model serie); [|done].
  by destruct (Renderer.series acc.1 !! ActiveSerie.id serie).
Qed.

(** A renderer made by [createRenderer] is in the bucket asked for, with a
    combined bar of zeros, no source bar and no [exchanges] property. *)
Lemma createRenderer_frame env activeSeries timestamp series :
  let r := (createRenderer env activeSeries timestamp series).1 in
  Renderer.timestamp r = timestamp
  ∧ Renderer.bar r = CombinedBar.mk 0 0 0 0 0 0 None None
  ∧ Renderer.sources r = ∅
  ∧ Renderer.exchanges r = None.
Proof.
  unfold createRenderer.
  set (acc := (Renderer.mk timestamp _ ∅ None ∅, [])).
  assert (Hacc : Renderer.timestamp acc.1 = timestamp
                 ∧ Renderer.bar acc.1 = CombinedBar.mk 0 0 0 0 0 0 None None
                 ∧ Renderer.sources acc.1 = ∅
                 ∧ Renderer.exchanges acc.1 = None) by done.
  clearbody acc. revert acc Hacc.
  induction activeSeries as [|serie l IH]; intros acc Hacc; [done|].
  simpl. apply IH.
  destruct (bindInto_frame env series acc serie) as (-> & -> & -> & ->).
  exact Hacc.
Qed.

(** C2, evaluated on the code.  Source A trades at 100, 105 and 101 in
    bucket 0 of a new live renderer, which then advances to bucket 60: the
    source bar of A is the one of bucket 0, with its open, its high, its
    volume and its count.  [resetRendererBar] resets the bars of
    [renderer.exchanges]; the live fold keeps its source bars in
    [renderer.sources]. *)
Theorem nextBar_keeps_live_source_bars :
  ∃ c renderer,
    renderRealtimeTrades Scenario.env
      [Scenario.tradeA0; Scenario.tradeA5; Scenario.tradeA10] Scenario.controller
    = Ok c
    ∧ Controller.activeRenderer c = Some renderer
    ∧ Renderer.timestamp renderer = Num 0
    ∧ Renderer.sources renderer !! "AUSD"%string
      = Some (Bar.mk "A" None Undefined 100 105 100 101 306 0 3 0 0 0 (Some false))
    ∧ Renderer.timestamp (nextBar (Controller.activeSeries c) (Num 60) renderer) = Num 60
    ∧ Renderer.sources (nextBar (Controller.activeSeries c) (Num 60) renderer)
        !! "AUSD"%string
      = Some (Bar.mk "A" None Undefined 100 105 100 101 306 0 3 0 0 0 (Some false)).
Proof.
  eexists _, _. split; [vm_compute; reflexivity|].
  split; [reflexivity|].
  repeat split; vm_compute; reflexivity.
Qed.

(** C1, evaluated on the code.  After the three trades of the scenario the
    live renderer is in bucket 60, where only the buy of 101 on A was
    folded: the combined bar has volume 101 and count 1, the source bar of
    the active source A has volume 201 and count 2.  Replaying the cache
    then throws at the finished bar of A, before the bar is recorded. *)
Theorem live_fold_second_bucket_not_recombined :
  ∃ c renderer,
    renderRealtimeTrades Scenario.env
      [Scenario.tradeA0; Scenario.tradeB10; Scenario.tradeA65] Scenario.controller
    = Ok c
    ∧ Controller.activeRenderer c = Some renderer
    ∧ Renderer.timestamp renderer = Num 60
    ∧ CombinedBar.vbuy (Renderer.bar renderer) = 101
    ∧ sumActive Scenario.env Bar.vbuy (Renderer.sources renderer) = 201
    ∧ CombinedBar.cbuy (Renderer.bar renderer) = 1
    ∧ sumActive Scenario.env Bar.cbuy (Renderer.sources renderer) = 2
    ∧ renderVisibleChunks Scenario.env None c
      = Throw "TypeError: cannot set properties of undefined (exchanges)".
Proof.
  eexists _, _. split; [vm_compute; reflexivity|].
  split; [reflexivity|].
  repeat split; vm_compute; reflexivity.
Qed.

(** ** Recombination inside one bucket *)

Section Recombination.
Context (env : Env).

Lemma sumActive_empty field : sumActive env field ∅ = 0.
Proof. apply map_fold_empty. Qed.

Lemma sumActive_insert_fresh field identifier source (sources : gmap string Bar.t) :
  sources !! identifier = None →
  sumActive env field (<[identifier := source]> sources)
  = contribution env field identifier source + sumActive env field sources.
Proof.
  intros Hfresh. unfold sumActive, contribution.
  rewrite map_fold_insert_L; [|intros; repeat case_match; lia|done].
  case_match; lia.
Qed.

Lemma sumActive_delete field identifier source (sources : gmap string Bar.t) :
  sources !! identifier = Some source →
  sumActive env field sources
  = contribution env field identifier source + sumActive env field (delete identifier sources).
Proof.
  intros Hin.
  rewrite <- (insert_delete_id sources identifier source Hin) at 1.
  apply sumActive_insert_fresh, lookup_delete_eq.
Qed.

(** Writing the bar of one source moves the sum by the difference of its
    contributions. *)
Lemma sumActive_insert field identifier source (sources : gmap string Bar.t) :
  sumActive env field (<[identifier := source]> sources)
  = sumActive env field sources
    + contribution env field identifier source
    - match sources !! identifier with
      | Some old => contribution env field identifier old
      | None => 0
      end.
Proof.
  destruct (sources !! identifier) as [old|] eqn:Hold.
  - rewrite (sumActive_delete field identifier old sources Hold).
    rewrite <- insert_delete_eq.
    rewrite sumActive_insert_fresh by apply lookup_delete_eq. lia.
  - rewrite sumActive_insert_fresh by done. lia.
Qed.

(** Folding a trade keeps the combined bar equal to the recombination of
    the source bars. *)
Lemma foldTrade_recombined trade renderer :
  recombined env renderer → recombined env (foldTrade env trade renderer).
Proof.
  unfold recombined, foldTrade.
  intros (Hvb & Hvs & Hcb & Hcs & Hlb & Hls).
  destruct (Trade.liquidation trade), (Trade.side trade);
    cbn [Renderer.bar Renderer.sources Renderer.set_bar Renderer.set_sources];
    rewrite !sumActive_insert; unfold contribution;
    destruct (Renderer.sources renderer !! identifierOf trade) as [old|];
    destruct (isActive env (identifierOf trade)); simpl;
    repeat split; lia.
Qed.

(** A renderer made by [createRenderer] is recombined: it has no source
    bar and a combined bar of zeros. *)
Lemma createRenderer_recombined activeSeries timestamp series :
  recombined env (createRenderer env activeSeries timestamp series).1.
Proof.
  destruct (createRenderer_frame env activeSeries timestamp series)
    as (_ & Hbar & Hsources & _).
  unfold recombined. rewrite Hbar, Hsources, !sumActive_empty. done.
Qed.

(** In the first bucket of a live renderer the combined bar is the
    recombination of the source bars, after any number of trades. *)
Lemma first_bucket_recombined activeSeries timestamp series trades :
  recombined env
    (fold_left (fun renderer trade => foldTrade env trade renderer) trades
       (createRenderer env activeSeries timestamp series).1).
Proof.
  generalize (createRenderer_recombined activeSeries timestamp series).
  generalize ((createRenderer env activeSeries timestamp series).1).
  induction trades as [|trade trades IH]; intros renderer Hrec; [done|].
  simpl. apply IH, foldTrade_recombined, Hrec.
Qed.

(** A trade of a source that is not active leaves the combined bar as it
    is and is recorded in the bar of its source. *)
Lemma foldTrade_inactive trade renderer :
  isActive env (identifierOf trade) = false →
  Renderer.bar (foldTrade env trade renderer) = Renderer.bar renderer
  ∧ is_Some (Renderer.sources (foldTrade env trade renderer) !! identifierOf trade).
Proof.
  intros Hinactive. unfold foldTrade. rewrite Hinactive.
  destruct (Trade.liquidation trade); simpl;
    (split; [done|rewrite lookup_insert_eq; eauto]).
Qed.
End Recombination.

(** ** The bucket of the live renderer *)

Lemma foldTrade_timestamp env trade renderer :
  Renderer.timestamp (foldTrade env trade renderer) = Renderer.timestamp renderer.
Proof. unfold foldTrade. by destruct (Trade.liquidation trade). Qed.

Lemma nextBar_timestamp activeSeries timestamp renderer :
  Renderer.timestamp (nextBar activeSeries timestamp renderer) = timestamp.
Proof. unfold nextBar. by destruct (negb _). Qed.

(** When [closeBucket] returns, the live renderer is in the new bucket. *)
Lemma closeBucket_timestamp env timestamp st c formatedBars :
  closeBucket env timestamp st = Ok (c, formatedBars) →
  ∃ renderer,
    Controller.activeRenderer c = Some renderer
    ∧ Renderer.timestamp renderer = Num timestamp.
Proof.
  unfold closeBucket. destruct st as [c0 fb0].
  destruct (Controller.activeRenderer c0) as [r0|]; [|done].
  intros H.
  apply bind_ok_inv in H as (c1 & _ & H).
  apply bind_ok_inv in H as ([c2 fb2] & _ & H).
  destruct (Controller.activeRenderer c2) as [r2|]; [|done].
  destruct (Controller.activeChunk c2) as [i|]; [|done].
  destruct (ChartCache.chunks (Controller.chartCache c2) !! i); [|done].
  injection H as <- <-.
  eexists. split; [reflexivity|]. apply nextBar_timestamp.
Qed.

Lemma js_lt_Num a b : js_lt (Num a) (Num b) = (a <? b).
Proof. done. Qed.

(** C3 as the code has it.  The bucket of the live renderer never
    decreases; a trade whose bucket is not newer than the bucket of the live
    renderer, so also a trade of a strictly older bucket, leaves the
    renderer in its bucket and is folded into it like a trade of the
    current bucket: the controller is the one before the trade with
    [foldTrade] applied to its renderer, and the bar of the source of the
    trade is there afterwards, marked as touched. *)
Theorem late_trade_is_folded_into_current_bucket
    env c formatedBars trade renderer t :
  Controller.activeRenderer c = Some renderer →
  Renderer.timestamp renderer = Num t →
  (∀ c' formatedBars',
      renderTrade env (c, formatedBars) trade = Ok (c', formatedBars') →
      ∃ renderer' t',
        Controller.activeRenderer c' = Some renderer'
        ∧ Renderer.timestamp renderer' = Num t'
        ∧ t ≤ t')
  ∧ (bucketOf env trade ≤ t →
      renderTrade env (c, formatedBars) trade
      = Ok (Controller.set_activeRenderer (Some (foldTrade env trade renderer)) c,
            formatedBars)
      ∧ Renderer.timestamp (foldTrade env trade renderer) = Num t
      ∧ ∃ source,
          Renderer.sources (foldTrade env trade renderer) !! identifierOf trade
          = Some source
          ∧ Bar.empty source = Some false
          ∧ (Trade.liquidation trade = false → Bar.close source = Trade.price trade)).
Proof.
  intros Hrenderer Ht. split.
  - intros c' fb'. unfold renderTrade. cbn [fst snd].
    rewrite Hrenderer, Ht, js_lt_Num.
    destruct (Z.ltb_spec t (bucketOf env trade)) as [Hlt|Hge].
    + intros H. apply bind_ok_inv in H as ([c1 fb1] & H1 & H).
      apply bind_ok_inv in H1 as ([c2 fb2] & H2 & H1).
      apply closeBucket_timestamp in H2 as (r2 & Hr2 & Hts).
      injection H1 as <- <-. unfold preventPan in H. simpl in H. rewrite Hr2 in H.
      injection H as <- <-.
      eexists _, _. split; [reflexivity|].
      rewrite foldTrade_timestamp. split; [exact Hts|lia].
    + simpl. rewrite Hrenderer. intros [= <- <-].
      eexists _, _. split; [reflexivity|].
      rewrite foldTrade_timestamp. split; [exact Ht|lia].
  - intros Hle. repeat split.
    + unfold renderTrade. cbn [fst snd]. rewrite Hrenderer, Ht, js_lt_Num.
      destruct (Z.ltb_spec t (bucketOf env trade)) as [Hlt|Hge]; [lia|].
      simpl. by rewrite Hrenderer.
    + by rewrite foldTrade_timestamp.
    + unfold foldTrade.
      destruct (Trade.liquidation trade); simpl; rewrite lookup_insert_eq;
        eexists; (split; [reflexivity|]); destruct (Trade.side trade); done.
Qed.

Lemma late_trade_is_folded_witness :
  Controller.activeRenderer Scenario.live60 = Some Scenario.renderer60
  ∧ Renderer.timestamp Scenario.renderer60 = Num 60
  ∧ bucketOf Scenario.env Scenario.lateTrade ≤ 60
  ∧ renderTrade Scenario.env (Scenario.live60, []) Scenario.lateTrade
    = Ok (Controller.set_activeRenderer
            (Some (foldTrade Scenario.env Scenario.lateTrade Scenario.renderer60))
            Scenario.live60, []).
Proof.
  assert (Hle : bucketOf Scenario.env Scenario.lateTrade ≤ 60)
    by (vm_compute; discriminate).
  split; [reflexivity|]. split; [reflexivity|]. split; [exact Hle|].
  destruct (late_trade_is_folded_into_current_bucket
              Scenario.env Scenario.live60 [] Scenario.lateTrade
              Scenario.renderer60 60 eq_refl eq_refl) as [_ Hfold].
  exact (proj1 (Hfold Hle)).
Defined.

(** C3 as stated fails on the code.  After the three trades of the
    scenario the live renderer is in bucket 60.  It then receives a buy of 1
    at 99 on A stamped 30 s, a trade of bucket 0: the trade is not dropped,
    the combined bar and the source bar of A both take its volume. *)
Lemma late_trade_not_dropped :
  ∃ c renderer c' renderer',
    renderRealtimeTrades Scenario.env
      [Scenario.tradeA0; Scenario.tradeB10; Scenario.tradeA65] Scenario.controller
    = Ok c
    ∧ Controller.activeRenderer c = Some renderer
    ∧ Renderer.timestamp renderer = Num 60
    ∧ bucketOf Scenario.env Scenario.lateTrade = 0
    ∧ renderRealtimeTrades Scenario.env [Scenario.lateTrade] c = Ok c'
    ∧ Controller.activeRenderer c' = Some renderer'
    ∧ Renderer.timestamp renderer' = Num 60
    ∧ CombinedBar.vbuy (Renderer.bar renderer) = 101
    ∧ CombinedBar.vbuy (Renderer.bar renderer') = 200
    ∧ Bar.vbuy <$> Renderer.sources renderer !! "AUSD"%string = Some 201
    ∧ Bar.vbuy <$> Renderer.sources renderer' !! "AUSD"%string = Some 300.
Proof.
  eexists _, _, _, _. split; [vm_compute; reflexivity|].
  split; [reflexivity|]. split; [vm_compute; reflexivity|].
  split; [vm_compute; reflexivity|].
  split; [vm_compute; reflexivity|].
  split; [reflexivity|].
  repeat split; vm_compute; reflexivity.
Qed.

(** ** Liquidations *)

(** C8.  A liquidation folded into a source bar that exists adds its
    amount to the liquidation volume of its side and leaves the prices, the
    volumes, the counts and the liquidation volume of the other side of
    that bar as they were; the bars of the other sources are not written;
    the combined bar receives the same amount on the same field when the
    source is active, and nothing else. *)
Theorem liquidation_only_adds_liquidation_volume env trade renderer source :
  Trade.liquidation trade = true →
  Renderer.sources renderer !! identifierOf trade = Some source →
  let amount := Trade.price trade * Trade.size trade in
  let on (s : Side) := if decide (Trade.side trade = s) then amount else 0 in
  let mirrored (s : Side) := if isActive env (identifierOf trade) then on s else 0 in
  let renderer' := foldTrade env trade renderer in
  (∃ source',
     Renderer.sources renderer' !! identifierOf trade = Some source'
     ∧ Bar.open source' = Bar.open source
     ∧ Bar.high source' = Bar.high source
     ∧ Bar.low source' = Bar.low source
     ∧ Bar.close source' = Bar.close source
     ∧ Bar.vbuy source' = Bar.vbuy source
     ∧ Bar.vsell source' = Bar.vsell source
     ∧ Bar.cbuy source' = Bar.cbuy source
     ∧ Bar.csell source' = Bar.csell source
     ∧ Bar.lbuy source' = Bar.lbuy source + on buy
     ∧ Bar.lsell source' = Bar.lsell source + on sell)
  ∧ (∀ other, other ≠ identifierOf trade →
       Renderer.sources renderer' !! other = Renderer.sources renderer !! other)
  ∧ CombinedBar.lbuy (Renderer.bar renderer')
    = CombinedBar.lbuy (Renderer.bar renderer) + mirrored buy
  ∧ CombinedBar.lsell (Renderer.bar renderer')
    = CombinedBar.lsell (Renderer.bar renderer) + mirrored sell
  ∧ CombinedBar.vbuy (Renderer.bar renderer') = CombinedBar.vbuy (Renderer.bar renderer)
  ∧ CombinedBar.vsell (Renderer.bar renderer') = CombinedBar.vsell (Renderer.bar renderer)
  ∧ CombinedBar.cbuy (Renderer.bar renderer') = CombinedBar.cbuy (Renderer.bar renderer)
  ∧ CombinedBar.csell (Renderer.bar renderer') = CombinedBar.csell (Renderer.bar renderer).
Proof.
  intros Hliquidation Hsource amount on mirrored renderer'.
  subst renderer' mirrored on amount. unfold foldTrade.
  rewrite Hliquidation, Hsource.
  cbn [Renderer.bar Renderer.sources Renderer.set_bar Renderer.set_sources].
  split; [|split].
  - rewrite lookup_insert_eq. eexists. split; [reflexivity|].
    destruct (Trade.side trade); simpl; repeat split; lia.
  - intros other Hother. by rewrite lookup_insert_ne.
  - destruct (isActive env (identifierOf trade)), (Trade.side trade);
      simpl; repeat split; lia.
Qed.

Lemma liquidation_only_adds_liquidation_volume_witness :
  Trade.liquidation Scenario.liquidationA70 = true
  ∧ Renderer.sources Scenario.renderer60 !! identifierOf Scenario.liquidationA70
    = Some (Bar.mk "A" None Undefined 100 101 100 101 201 0 2 0 0 0 (Some false))
  ∧ ∃ source',
      Renderer.sources (foldTrade Scenario.env Scenario.liquidationA70 Scenario.renderer60)
        !! identifierOf Scenario.liquidationA70 = Some source'
      ∧ Bar.close source' = 101
      ∧ Bar.lsell source' = 300.
Proof.
  split; [reflexivity|]. split; [vm_compute; reflexivity|].
  destruct (liquidation_only_adds_liquidation_volume
              Scenario.env Scenario.liquidationA70 Scenario.renderer60
              (Bar.mk "A" None Undefined 100 101 100 101 201 0 2 0 0 0 (Some false))
              eq_refl ltac:(vm_compute; reflexivity))
    as ((source' & Hlookup & _ & _ & _ & Hclose & _ & _ & _ & _ & _ & Hlsell) & _).
  exists source'. split; [exact Hlookup|]. split; [exact Hclose|exact Hlsell].
Defined.

(** ** Instructions at a bucket close *)

Lemma advanceSeries_cons serie activeSeries (series : gmap string RendererSerieData.t) :
  advanceSeries (serie :: activeSeries) series
  = advanceSeries activeSeries
      (match series !! ActiveSerie.id serie with
       | Some data => <[ActiveSerie.id serie := advanceSerieData data]> series
       | None => series
       end).
Proof. done. Qed.

(** With distinct identifiers, the loop of [nextBar] advances the data of
    every active serie once and leaves the rest of [renderer.series]. *)
Lemma advanceSeries_lookup activeSeries (series : gmap string RendererSerieData.t) id :
  NoDup (ActiveSerie.id <$> activeSeries) →
  advanceSeries activeSeries series !! id
  = if bool_decide (id ∈ ActiveSerie.id <$> activeSeries)
    then advanceSerieData <$> series !! id
    else series !! id.
Proof.
  revert series.
  induction activeSeries as [|serie l IH]; intros series Hnodup; [done|].
  rewrite fmap_cons in Hnodup. apply NoDup_cons in Hnodup as [Hfresh Hnodup].
  rewrite advanceSeries_cons, IH by done. rewrite fmap_cons.
  destruct (decide (id = ActiveSerie.id serie)) as [->|Hne].
  - rewrite (bool_decide_eq_false_2 _ Hfresh).
    rewrite bool_decide_eq_true_2 by apply list_elem_of_here.
    destruct (series !! ActiveSerie.id serie) as [data|] eqn:Hdata.
    + by rewrite lookup_insert_eq.
    + by rewrite Hdata.
  - assert (Hstep :
      (match series !! ActiveSerie.id serie with
       | Some data => <[ActiveSerie.id serie := advanceSerieData data]> series
       | None => series
       end) !! id = series !! id).
    { destruct (series !! ActiveSerie.id serie); [|done]. by rewrite lookup_insert_ne. }
    rewrite Hstep.
    destruct (decide (id ∈ ActiveSerie.id <$> l)) as [Hin|Hnotin].
    + rewrite !bool_decide_eq_true_2; [done|by apply list_elem_of_further|done].
    + rewrite !bool_decide_eq_false_2; [done| |done].
      intros Hin. apply elem_of_cons in Hin as [?|?]; done.
Qed.

(** The step of a rolling average keeps the count equal to the length of
    the queue and the queue within [arg] entries. *)
Lemma advanceFunction_invariant instruction :
  queueInvariant (SerieInstruction.arg instruction) (SerieInstruction.state instruction) →
  queueInvariant (SerieInstruction.arg (advanceFunction instruction))
                 (SerieInstruction.state (advanceFunction instruction)).
Proof.
  unfold advanceFunction.
  destruct instruction as [name arg [points sum count output| | |]]; simpl; try done.
  intros (Hcount & Hlen).
  destruct (Z.ltb_spec arg (count + 1)) as [Hfull|Hroom]; simpl.
  - destruct points as [|oldest rest]; simpl in *.
    + split; lia.
    + rewrite length_app. simpl. split; lia.
  - rewrite length_app. simpl. split; lia.
Qed.

(** C5, as the code has it.  When a bucket that is not marked empty closes,
    every rolling average of every bound serie is advanced once: its last
    output goes to the back of its queue and is added to its sum, its count
    goes up by one; when the count then exceeds [arg], the oldest entry
    leaves the queue and is subtracted from the sum, and the count goes
    back.  The sum is a double that is added to and subtracted from.  The
    step keeps the count equal to the length of the queue and the queue
    within [arg] entries.  The identifiers of the active series are
    distinct. *)
Theorem nextBar_advances_average
    activeSeries timestamp renderer serie data f instruction points sum count output :
  flag (CombinedBar.empty (Renderer.bar renderer)) = false →
  NoDup (ActiveSerie.id <$> activeSeries) →
  serie ∈ activeSeries →
  Renderer.series renderer !! ActiveSerie.id serie = Some data →
  RendererSerieData.functions data !! f = Some instruction →
  SerieInstruction.state instruction = AverageState points sum count output →
  let arg := SerieInstruction.arg instruction in
  ∃ data' instruction',
    Renderer.series (nextBar activeSeries timestamp renderer) !! ActiveSerie.id serie
    = Some data'
    ∧ RendererSerieData.functions data' !! f = Some instruction'
    ∧ SerieInstruction.name instruction' = SerieInstruction.name instruction
    ∧ SerieInstruction.arg instruction' = arg
    ∧ SerieInstruction.state instruction'
      = (if arg <? count + 1
         then AverageState (tail (points ++ [output]))
                (Dbl (toDouble sum + toDouble output
                      - toDouble (default output (head points)))%float)
                count output
         else AverageState (points ++ [output])
                (Dbl (toDouble sum + toDouble output)%float) (count + 1) output)
    ∧ (queueInvariant arg (SerieInstruction.state instruction) →
       queueInvariant arg (SerieInstruction.state instruction')).
Proof.
  intros Hdata Hnodup Hin Hlookup Hf Hstate arg.
  exists (advanceSerieData data), (advanceFunction instruction).
  split; [|split; [|split; [|split; [|split]]]].
  - unfold nextBar. rewrite Hdata. simpl.
    rewrite advanceSeries_lookup by done.
    rewrite bool_decide_eq_true_2 by (by apply list_elem_of_fmap_2).
    by rewrite Hlookup.
  - simpl. by rewrite list_lookup_fmap, Hf.
  - unfold advanceFunction. rewrite Hstate. done.
  - unfold advanceFunction. rewrite Hstate. done.
  - unfold advanceFunction. rewrite Hstate. cbn [SerieInstruction.state]. fold arg.
    destruct (arg <? count + 1); [|done].
    destruct points as [|oldest rest]; cbn [app tail head default];
      f_equal; lia.
  - intros Hinv.
    pose proof (advanceFunction_invariant instruction Hinv) as Hinv'.
    assert (Harg : SerieInstruction.arg (advanceFunction instruction) = arg)
      by (unfold advanceFunction; rewrite Hstate; done).
    by rewrite Harg in Hinv'.
Qed.

Lemma nextBar_advances_average_witness :
  ∃ data' instruction',
    Renderer.series (nextBar [Scenario.sma] (Num 60) Scenario.rendererSma)
      !! "sma"%string = Some data'
    ∧ RendererSerieData.functions data' !! 0%nat = Some instruction'
    ∧ SerieInstruction.state instruction'
      = AverageState [Dbl 2; Dbl 5] (Dbl 7) 2 (Dbl 5)
    ∧ queueInvariant 2 (SerieInstruction.state instruction').
Proof.
  destruct (nextBar_advances_average [Scenario.sma] (Num 60) Scenario.rendererSma
              Scenario.sma Scenario.smaData 0%nat
              (SerieInstruction.mk "avg" 2
                 (AverageState [Dbl 1; Dbl 2] (Dbl 3) 2 (Dbl 5)))
              [Dbl 1; Dbl 2] (Dbl 3) 2 (Dbl 5))
    as (data' & instruction' & Hdata & Hf & _ & _ & Hstate & Hinv).
  - reflexivity.
  - apply NoDup_singleton.
  - apply list_elem_of_here.
  - vm_compute. reflexivity.
  - reflexivity.
  - reflexivity.
  - exists data', instruction'.
    split; [exact Hdata|]. split; [exact Hf|]. split; [exact Hstate|].
    apply Hinv. simpl. lia.
Defined.

(** C5, the sum.  A rolling average over 2 buckets starts with an empty
    queue and the sum 0, which is the sum of that queue.  Three buckets
    close, with the outputs 0.1, 0.2 and 0.3.  The queue then holds 0.2 and
    0.3, whose sum is 0.5 from either end, and the running sum is
    0.5000000000000001: it was reached as 0.1 + 0.2 + 0.3 - 0.1.  The count
    is 2 and the queue is within its 2 entries. *)
Theorem rolling_sum_drifts :
  averageInvariant 2 (AverageState [] (Dbl 0) 0 DblUndefined)
  ∧ (Renderer.series Scenario.rendererAfterThree !! "sma"%string
       ≫= fun data => SerieInstruction.state <$> RendererSerieData.functions data !! 0%nat)
    = Some (AverageState [Dbl 0.2; Dbl 0.3] (Dbl 0.5000000000000001) 2 (Dbl 0.3))
  ∧ queueSum [Dbl 0.2; Dbl 0.3] = 0.5%float
  ∧ queueSumBack [Dbl 0.2; Dbl 0.3] = 0.5%float
  ∧ (0.5000000000000001 =? 0.5)%float = false
  ∧ queueInvariant 2 (AverageState [Dbl 0.2; Dbl 0.3] (Dbl 0.5000000000000001) 2 (Dbl 0.3))
  ∧ ¬ averageInvariant 2
        (AverageState [Dbl 0.2; Dbl 0.3] (Dbl 0.5000000000000001) 2 (Dbl 0.3)).
Proof.
  split; [by repeat split|].
  split; [vm_compute; reflexivity|].
  split; [vm_compute; reflexivity|].
  split; [vm_compute; reflexivity|].
  split; [vm_compute; reflexivity|].
  split; [simpl; lia|].
  intros (_ & Hsum & _). vm_compute in Hsum. discriminate.
Qed.

(** ** Output kind against visual type *)

Lemma isOhlcVisual_false type :
  type ≠ "candlestick"%string → type ≠ "bar"%string → isOhlcVisual type = false.
Proof.
  intros Hc Hb. unfold isOhlcVisual.
  apply String.eqb_neq in Hc, Hb. by rewrite Hc, Hb.
Qed.

Lemma isOhlcVisual_true type :
  type = "candlestick"%string ∨ type = "bar"%string → isOhlcVisual type = true.
Proof. intros [-> | ->]; done. Qed.

(** C7.  A serie whose formula compiles to the kind OHLC and whose visual
    type is neither candlestick nor bar is prepared with the output
    expression followed by [.close] and with the kind single value.  A serie
    whose formula compiles to a single value and whose visual type is
    candlestick or bar is not prepared: the error is recorded for the serie,
    and [addSerie] returns without creating the chart series, without adding
    the serie to the active series and without binding it. *)
Theorem prepareSerie_checks_output_kind env serie c model :
  transpile env serie = Ok model →
  (SerieTranspilationResult.type model = ohlc →
   ActiveSerie.type serie ≠ "candlestick"%string →
   ActiveSerie.type serie ≠ "bar"%string →
   ∃ serie' c',
     prepareSerie env serie c = (true, serie', c')
     ∧ ActiveSerie.model serie'
       = Some (SerieTranspilationResult.mk
                 (SerieTranspilationResult.output model +:+ ".close") value
                 (SerieTranspilationResult.variables model)
                 (SerieTranspilationResult.functions model)
                 (SerieTranspilationResult.references model))
     ∧ ActiveSerie.id serie' = ActiveSerie.id serie
     ∧ ActiveSerie.type serie' = ActiveSerie.type serie
     ∧ Controller.serieErrors c' !! ActiveSerie.id serie = Some None)
  ∧ (SerieTranspilationResult.type model = value →
     ActiveSerie.type serie = "candlestick"%string
     ∨ ActiveSerie.type serie = "bar"%string →
     ∃ message c',
       prepareSerie env serie c = (false, serie, c')
       ∧ Controller.serieErrors c' !! ActiveSerie.id serie = Some (Some message)
       ∧ ∀ id c0,
           newSerie env id = Ok serie →
           c = Controller.set_enabledSeries ({[id]} ∪ Controller.enabledSeries c0) c0 →
           addSerie env id c0 = Ok (false, c')
           ∧ Controller.activeSeries c' = Controller.activeSeries c0
           ∧ Controller.activeRenderer c' = Controller.activeRenderer c0
           ∧ Controller.sink c' = Controller.sink c0).
Proof.
  intros Htranspile. split.
  - intros Hkind Hc Hb. unfold prepareSerie. rewrite Htranspile, Hkind.
    rewrite (isOhlcVisual_false _ Hc Hb). simpl.
    eexists _, _. split; [reflexivity|]. simpl.
    repeat split. by rewrite lookup_insert_eq.
  - intros Hkind Hvisual. unfold prepareSerie. rewrite Htranspile, Hkind.
    rewrite (isOhlcVisual_true _ Hvisual). simpl.
    eexists _, _. split; [reflexivity|]. split.
    + unfold prepareFailed, reportSerieError. simpl. by rewrite lookup_insert_eq.
    + intros id c0 Hnew ->. unfold addSerie. rewrite Hnew. simpl.
      unfold prepareSerie. rewrite Htranspile, Hkind.
      rewrite (isOhlcVisual_true _ Hvisual). simpl. done.
Qed.

Lemma prepareSerie_checks_output_kind_witness :
  (∃ serie' c',
     prepareSerie Scenario.envSeries Scenario.priceSerie Scenario.controller
     = (true, serie', c')
     ∧ ActiveSerie.model serie'
       = Some (SerieTranspilationResult.mk "ohlc(bar).close" value [] [] []))
  ∧ (∃ message c',
       prepareSerie Scenario.envSeries Scenario.volumeSerie
         (Controller.set_enabledSeries
            ({[ "volume"%string ]} ∪ Controller.enabledSeries Scenario.controller)
            Scenario.controller)
       = (false, Scenario.volumeSerie, c')
       ∧ Controller.serieErrors c' !! "volume"%string = Some (Some message)
       ∧ addSerie Scenario.envSeries "volume" Scenario.controller = Ok (false, c')
       ∧ Controller.activeSeries c' = []).
Proof.
  split.
  - destruct (prepareSerie_checks_output_kind Scenario.envSeries Scenario.priceSerie
                Scenario.controller
                (SerieTranspilationResult.mk "ohlc(bar)" ohlc [] [] []) eq_refl)
      as [Hnarrow _].
    destruct (Hnarrow eq_refl ltac:(discriminate) ltac:(discriminate))
      as (serie' & c' & Hprepare & Hmodel & _).
    exists serie', c'. split; [exact Hprepare|exact Hmodel].
  - destruct (prepareSerie_checks_output_kind Scenario.envSeries Scenario.volumeSerie
                (Controller.set_enabledSeries
                   ({[ "volume"%string ]} ∪ Controller.enabledSeries Scenario.controller)
                   Scenario.controller)
                (SerieTranspilationResult.mk "bar.vbuy" value [] [] []) eq_refl)
      as [_ Hreject].
    destruct (Hreject eq_refl (or_introl eq_refl))
      as (message & c' & Hprepare & Herror & Hadd).
    destruct (Hadd "volume"%string Scenario.controller) as (Hresult & Hactive & _).
    + vm_compute. reflexivity.
    + reflexivity.
    + exists message, c'. repeat split; assumption.
Defined.

(** ** Chunk selection *)

Section ChunkSelection.
Context (env : Env) (scale : option TimeScale.t).

Lemma isRendered_rule chunk :
  isRendered env scale chunk = selectedByRule env scale chunk.
Proof using Type.
  unfold isRendered, selectedByRule, selectionStart, lookback.
  destruct scale as [s|]; [|done].
  destruct (TimeScale.logicalFrom s <? 0); do 2 f_equal; lia.
Qed.

Lemma selectChunks_bars chunks :
  (selectChunks env scale chunks).2
  = concat (Chunk.bars
              <$> filter (fun c => selectedByRule env scale c = true) chunks).
Proof using Type.
  unfold selectChunks. cbn [snd]. f_equal.
  induction chunks as [|chunk chunks IH]; [done|].
  rewrite fmap_cons, !filter_cons. simpl. rewrite isRendered_rule.
  destruct (selectedByRule env scale chunk) eqn:Hrule.
  - rewrite !decide_True by done. rewrite !fmap_cons. simpl. by rewrite IH.
  - rewrite !decide_False by done. exact IH.
Qed.

(** C9 as the code has it.  The lookback is 20 buckets.  Every chunk of
    the cache keeps its place, its range, its [active] flag and its bars,
    and gets [rendered] set by the rule: true without a visible range, and
    with one, true exactly when its [to] is greater than the visible start,
    moved back by the first logical position when that is negative, minus
    20 buckets.  The bars handed to [renderBars] are those of the selected
    chunks, in the order of the cache. *)
Theorem chunk_selection_rule chunks :
  lookback = 20
  ∧ length (selectChunks env scale chunks).1 = length chunks
  ∧ (∀ i chunk,
       chunks !! i = Some chunk →
       ∃ chunk',
         (selectChunks env scale chunks).1 !! i = Some chunk'
         ∧ Chunk.from chunk' = Chunk.from chunk
         ∧ Chunk.to chunk' = Chunk.to chunk
         ∧ Chunk.active chunk' = Chunk.active chunk
         ∧ Chunk.bars chunk' = Chunk.bars chunk
         ∧ Chunk.rendered chunk' = selectedByRule env scale chunk)
  ∧ (selectChunks env scale chunks).2
    = concat (Chunk.bars
                <$> filter (fun c => selectedByRule env scale c = true) chunks)
  ∧ (∀ c,
       ChartCache.chunks (Controller.chartCache c) = chunks →
       chunks ≠ [] →
       Controller.chartInstance c = true →
       renderVisibleChunks env scale c
       = renderBars env (selectChunks env scale chunks).2 None
           (Controller.set_chartCache
              (ChartCache.mk (selectChunks env scale chunks).1
                             (ChartCache.cacheRange (Controller.chartCache c))) c)).
Proof using Type.
  split; [done|]. split; [|split; [|split]].
  - unfold selectChunks. cbn [fst]. by rewrite length_fmap.
  - intros i chunk Hi. unfold selectChunks. cbn [fst].
    rewrite list_lookup_fmap, Hi. simpl.
    eexists. split; [reflexivity|]. simpl. by rewrite isRendered_rule.
  - apply selectChunks_bars.
  - intros c Hchunks Hne Hchart. unfold renderVisibleChunks.
    rewrite Hchunks, Hchart.
    destruct chunks as [|chunk rest]; [done|]. simpl. done.
Qed.
End ChunkSelection.

Lemma chunk_selection_rule_witness :
  ∃ chunk',
    (selectChunks Scenario.env (Some Scenario.scale) [Scenario.oldChunk]).1 !! 0%nat
    = Some chunk'
    ∧ Chunk.rendered chunk' = true
    ∧ (selectChunks Scenario.env (Some Scenario.scale) [Scenario.oldChunk]).2
      = [Scenario.oldBar].
Proof.
  destruct (chunk_selection_rule Scenario.env (Some Scenario.scale) [Scenario.oldChunk])
    as (_ & _ & Hrule & Hbars & _).
  destruct (Hrule 0%nat Scenario.oldChunk eq_refl)
    as (chunk' & Hlookup & _ & _ & _ & _ & Hrendered).
  exists chunk'. split; [exact Hlookup|]. split.
  - rewrite Hrendered. vm_compute. reflexivity.
  - rewrite Hbars. vm_compute. reflexivity.
Defined.

(** C9 as stated fails on the code.  The visible range starts at 10000 s,
    buckets are 60 s wide: by the stated rule a chunk is selected when its
    [to] is greater than 10000 - 20 * 60 = 8800.  The first logical position
    of the chart is -5, and the chunk that ends at 8600 s is selected and its
    bar is replayed. *)
Lemma chunk_selection_follows_logical_range :
  getVisibleRange Scenario.env (Some Scenario.scale) = Some (10000, 20000)
  ∧ selectedBySpec Scenario.env 10000 Scenario.oldChunk = false
  ∧ (selectChunks Scenario.env (Some Scenario.scale) [Scenario.oldChunk]).1
    = [Chunk.set_rendered true Scenario.oldChunk]
  ∧ (selectChunks Scenario.env (Some Scenario.scale) [Scenario.oldChunk]).2
    = [Scenario.oldBar].
Proof. repeat split; vm_compute; reflexivity. Qed.

(** ** Points of a computed bucket *)

(** A property of the state that holds at the start of a loop and is kept
    by every iteration that returns holds when the loop returns. *)
Lemma foldM_invariant {A B} (P : B → Prop) (f : B → A → result B) l b b' :
  P b →
  (∀ a x y, a ∈ l → P x → f x a = Ok y → P y) →
  foldM f l b = Ok b' →
  P b'.
Proof.
  revert b. induction l as [|a l IH]; intros b Hb Hstep Hfold.
  - by injection Hfold as <-.
  - simpl in Hfold. apply bind_ok_inv in Hfold as (x & Hx & Hfold).
    apply (IH x); [|intros; eapply Hstep; eauto using list_elem_of_further|done].
    eapply Hstep; eauto using list_elem_of_here.
Qed.

Lemma foldM_cons {A B} (f : B → A → result B) a l b :
  foldM f (a :: l) b = f b a ≫= foldM f l.
Proof. done. Qed.

(** The loop of [computeBar] keeps: whenever the value recorded for a serie
    gives no point, the points hold none for it. *)
Lemma computeSerie_omits activeSeries which time series st serie st' :
  serie ∈ activeSeries →
  (∀ id data, Renderer.series st.1.2 !! id = Some data →
     omitted activeSeries id (RendererSerieData.value data) → st.2 !! id = None) →
  computeSerie which time series st serie = Ok st' →
  ∀ id data, Renderer.series st'.1.2 !! id = Some data →
    omitted activeSeries id (RendererSerieData.value data) → st'.2 !! id = None.
Proof.
  destruct st as [[c renderer] points]. intros Hin Hinv. unfold computeSerie.
  destruct (excluded series (ActiveSerie.id serie)); [by intros [= <-]|].
  destruct (Renderer.series renderer !! ActiveSerie.id serie) as [serieData|]; [|done].
  destruct (ActiveSerie.adapter serie) as [adapter|]; [|done].
  destruct (ActiveSerie.model serie) as [model|]; [|done].
  destruct (adapter renderer _ _) as [[point functions] variables].
  intros H. apply bind_ok_inv in H as ([val emitted] & _ & H).
  intros id data.
  destruct (decide (id = ActiveSerie.id serie)) as [->|Hne].
  - destruct (isNaN val) eqn:Hnan.
    + destruct which; injection H as <-; simpl.
      * by rewrite lookup_delete_eq.
      * rewrite lookup_insert_eq. intros [= <-]. simpl.
        intros [-> | [-> _]]; discriminate.
    + destruct (bool_decide (val = Prim Null) || _) eqn:Homit;
        injection H as <-; simpl.
      * intros _ _. apply lookup_delete_eq.
      * rewrite lookup_insert_eq. intros [= <-]. simpl.
        apply orb_false_iff in Homit as [Hnull Hzero].
        intros [-> | [-> Hhistogram]].
        -- by rewrite bool_decide_eq_true_2 in Hnull.
        -- rewrite (Hhistogram serie Hin eq_refl) in Hzero.
           by rewrite bool_decide_eq_true_2 in Hzero.
  - assert (Hseries :
      ∀ m : gmap string RendererSerieData.t,
        <[ActiveSerie.id serie := RendererSerieData.mk val point variables functions]> m
          !! id = m !! id) by (intros; by rewrite lookup_insert_ne).
    destruct (isNaN val).
    + destruct which; injection H as <-; simpl.
      * rewrite lookup_delete_ne, Hseries, lookup_insert_ne by done. apply Hinv.
      * rewrite Hseries, lookup_insert_ne by done. apply Hinv.
    + destruct (bool_decide (val = Prim Null) || _); injection H as <-; simpl.
      * rewrite Hseries, lookup_delete_ne, lookup_insert_ne by done. apply Hinv.
      * rewrite Hseries, lookup_insert_ne by done. apply Hinv.
Qed.

(** [updateBar] sends a point to the sink only for a serie that has one. *)
Lemma updateBar_sink (bar : gmap string Point) c id point :
  SinkUpdate id point ∈ Controller.sink (updateBar bar c) →
  SinkUpdate id point ∈ Controller.sink c ∨ bar !! id = Some point.
Proof.
  unfold updateBar.
  generalize (Controller.activeSeries c) as series. intros series. revert c.
  induction series as [|serie series IH]; intros c; simpl; [by left|].
  intros H. apply IH in H as [H|H]; [|by right].
  destruct (bar !! ActiveSerie.id serie) as [p|] eqn:Hp; [|by left].
  simpl in H. apply elem_of_app in H as [H|H]; [by left|].
  apply list_elem_of_singleton in H. injection H as -> ->. by right.
Qed.

(** [renderBars] collects a point only for a serie that has one. *)
Lemma pushPoints_absent (computedBar : gmap string Point)
    (computedSeries : gmap string (list Point)) id :
  computedBar !! id = None →
  pushPoints computedBar computedSeries !! id = computedSeries !! id.
Proof.
  unfold pushPoints.
  apply (map_fold_weak_ind
           (fun acc (m : gmap string Point) =>
              m !! id = None → acc !! id = computedSeries !! id)); [done|].
  intros i point m acc Hfresh IH Hnone.
  apply lookup_insert_None in Hnone as [Hm Hne].
  rewrite lookup_insert_ne by done. by apply IH.
Qed.

(** C10.  When [computeBar] returns, a serie whose recorded value is
    [null], and a histogram whose recorded value is 0, has no point among
    the points of the bucket; so [updateBar] sends no point for it to the
    sink, and [renderBars] adds none to the points it collects for the
    replacement of the data. *)
Theorem computeBar_omits_null_and_zero_histogram
    env which c renderer series c' renderer' points id data :
  computeBar env which c renderer series = Ok (c', renderer', points) →
  Renderer.series renderer' !! id = Some data →
  omitted (Controller.activeSeries c) id (RendererSerieData.value data) →
  points !! id = None
  ∧ (∀ controller point,
       SinkUpdate id point ∈ Controller.sink (updateBar points controller) →
       SinkUpdate id point ∈ Controller.sink controller)
  ∧ (∀ computedSeries, pushPoints points computedSeries !! id = computedSeries !! id).
Proof.
  intros Hcompute Hdata Homitted.
  assert (Hnone : points !! id = None).
  { unfold computeBar in Hcompute.
    pose proof (foldM_invariant
      (fun st => ∀ id data, Renderer.series st.1.2 !! id = Some data →
         omitted (Controller.activeSeries c) id (RendererSerieData.value data) →
         st.2 !! id = None)
      _ _ _ _ (fun _ _ _ _ => lookup_empty _)
      (fun a x y Ha Hx Hy =>
         computeSerie_omits (Controller.activeSeries c) _ _ _ x a y Ha Hx Hy)
      Hcompute) as Hinv.
    exact (Hinv id data Hdata Homitted). }
  split; [exact Hnone|]. split.
  - intros controller point Hsink.
    apply updateBar_sink in Hsink as [Hsink|Hpoint]; [done|congruence].
  - intros computedSeries. by apply pushPoints_absent.
Qed.

Lemma computeBar_omits_witness :
  ∃ c' renderer' points,
    computeBar Scenario.env LiveRenderer Scenario.controllerThree
      Scenario.rendererThree None = Ok (c', renderer', points)
    ∧ (RendererSerieData.value <$> Renderer.series renderer' !! "gaps"%string)
      = Some (Prim Null)
    ∧ points !! "gaps"%string = None
    ∧ (RendererSerieData.value <$> Renderer.series renderer' !! "delta"%string)
      = Some (Prim (Num 0))
    ∧ points !! "delta"%string = None
    ∧ is_Some (points !! "flat"%string).
Proof.
  assert (Hrun : ∃ st,
    computeBar Scenario.env LiveRenderer Scenario.controllerThree
      Scenario.rendererThree None = Ok st) by (eexists; vm_compute; reflexivity).
  destruct Hrun as ([[c' renderer'] points] & Hrun).
  exists c', renderer', points. split; [exact Hrun|].
  assert (Hvalues :
    Renderer.series renderer' !! "gaps"%string
    = Some (RendererSerieData.mk (Prim Null) (Prim Null) [] [])
    ∧ Renderer.series renderer' !! "delta"%string
      = Some (RendererSerieData.mk (Prim (Num 0)) (Prim (Num 0)) [] [])
    ∧ is_Some (points !! "flat"%string)).
  { vm_compute in Hrun. injection Hrun as <- <- <-.
    repeat split; try (vm_compute; reflexivity). eexists. vm_compute. reflexivity. }
  destruct Hvalues as (Hgaps & Hdelta & Hflat).
  split; [by rewrite Hgaps|]. split.
  - apply (computeBar_omits_null_and_zero_histogram _ _ _ _ _ _ _ _ _ _ Hrun Hgaps).
    by left.
  - split; [by rewrite Hdelta|]. split; [|exact Hflat].
    apply (computeBar_omits_null_and_zero_histogram _ _ _ _ _ _ _ _ _ _ Hrun Hdelta).
    right. split; [done|].
    intros serie Hin Hid. simpl in Hin.
    repeat (apply elem_of_cons in Hin as [->|Hin]; [try done|]).
    by apply elem_of_nil in Hin.
Defined.

(** ** A serie that computes [NaN] *)

(** One iteration of [computeBar] on a bound serie of kind single value
    returns, whatever the adapter computes, and writes the data of that
    serie only. *)
Lemma computeSerie_value_returns which time series c renderer points serie
    serieData adapter model :
  Renderer.series renderer !! ActiveSerie.id serie = Some serieData →
  ActiveSerie.adapter serie = Some adapter →
  ActiveSerie.model serie = Some model →
  SerieTranspilationResult.type model = value →
  ∃ c' renderer' points',
    computeSerie which time series (c, renderer, points) serie
    = Ok (c', renderer', points')
    ∧ Controller.activeSeries c' = Controller.activeSeries c
    ∧ ∀ id, id ≠ ActiveSerie.id serie →
        Renderer.series renderer' !! id = Renderer.series renderer !! id.
Proof.
  intros Hdata Hadapter Hmodel Hkind. unfold computeSerie.
  destruct (excluded series (ActiveSerie.id serie)); [by eexists _, _, _|].
  rewrite Hdata, Hadapter, Hmodel, Hkind.
  destruct (adapter renderer _ _) as [[point functions] variables]. simpl.
  destruct (isNaN point).
  - destruct which; eexists _, _, _; (split; [reflexivity|]); simpl;
      (split; [done|]); intros id Hne.
    + by rewrite lookup_delete_ne, lookup_insert_ne.
    + by rewrite lookup_insert_ne.
  - destruct (bool_decide (point = Prim Null) || _); eexists _, _, _;
      (split; [reflexivity|]); simpl; (split; [by destruct which|]); intros id Hne;
      by rewrite lookup_insert_ne.
Qed.

(** A pass of [computeBar] over series that are all bound, of kind single
    value and of distinct identifiers returns: a serie that computes [NaN]
    does not stop the pass in which it does. *)
Lemma computeBar_value_returns env which c renderer series :
  NoDup (ActiveSerie.id <$> Controller.activeSeries c) →
  (∀ serie, serie ∈ Controller.activeSeries c →
     is_Some (Renderer.series renderer !! ActiveSerie.id serie)
     ∧ is_Some (ActiveSerie.adapter serie)
     ∧ ∃ model, ActiveSerie.model serie = Some model
                ∧ SerieTranspilationResult.type model = value) →
  is_ok (computeBar env which c renderer series) = true.
Proof.
  unfold computeBar.
  generalize (js_add (Renderer.timestamp renderer) (Num (timezoneOffset env / 1000))).
  intros time.
  generalize (∅ : gmap string Point) as points.
  generalize (Controller.activeSeries c) as l. intros l. revert c renderer.
  induction l as [|serie l IH]; intros c renderer points Hnodup Hbound; [done|].
  rewrite fmap_cons in Hnodup. apply NoDup_cons in Hnodup as [Hfresh Hnodup].
  destruct (Hbound serie) as ([serieData Hdata] & [adapter Hadapter] & model & Hmodel & Hkind);
    [apply list_elem_of_here|].
  destruct (computeSerie_value_returns which time series c renderer points serie
              serieData adapter model Hdata Hadapter Hmodel Hkind)
    as (c' & renderer' & points' & Hstep & _ & Hframe).
  rewrite foldM_cons, Hstep. cbn [mbind result_bind]. apply IH; [done|].
  intros other Hother.
  destruct (Hbound other) as (Hsome & Hrest); [by apply list_elem_of_further|].
  split; [|exact Hrest].
  rewrite Hframe; [done|].
  intros Heq. apply Hfresh. rewrite <- Heq. by apply list_elem_of_fmap_2.
Qed.

(** C6, evaluated on the code.  The series "ratio", "nan" and "seven" are
    bound to the live renderer.  The first batch ends with a pass in which
    "nan" computes [NaN]: the pass goes on, "nan" is unbound from the live
    renderer and the error is recorded, but "nan" stays among the active
    series.  In the pass that closes the bucket "ratio" computes [NaN] and
    is unbound; the next serie of the loop is "nan", which has no data in
    the renderer any more: the pass throws, "seven" is bound and is not
    computed, and the batch is lost. *)
Theorem nan_serie_stops_a_later_pass :
  ∃ c1 renderer1 ratio,
    renderRealtimeTrades Scenario.envNaN [Scenario.tradeA0] Scenario.controllerNaN = Ok c1
    ∧ Controller.activeRenderer c1 = Some renderer1
    ∧ Renderer.series renderer1 !! "nan"%string = None
    ∧ Controller.serieErrors c1 !! "nan"%string = Some (Some "nan is NaN"%string)
    ∧ is_Some (Renderer.series renderer1 !! "ratio"%string)
    ∧ is_Some (Renderer.series renderer1 !! "seven"%string)
    ∧ ActiveSerie.id <$> Controller.activeSeries c1 = ["ratio"; "nan"; "seven"]%string
    ∧ Controller.activeSeries c1 !! 0%nat = Some ratio
    ∧ (∃ c2 renderer2 points,
         computeSerie LiveRenderer (Num 0) None
           (c1, foldTrade Scenario.envNaN Scenario.tradeA20 renderer1, ∅) ratio
         = Ok (c2, renderer2, points)
         ∧ Renderer.series renderer2 !! "ratio"%string = None
         ∧ Controller.serieErrors c2 !! "ratio"%string = Some (Some "ratio is NaN"%string)
         ∧ is_Some (Renderer.series renderer2 !! "seven"%string))
    ∧ renderRealtimeTrades Scenario.envNaN [Scenario.tradeA20; Scenario.tradeA65] c1
      = Throw "TypeError: cannot read properties of undefined (serieData)".
Proof.
  eexists _, _, _. split; [vm_compute; reflexivity|].
  split; [reflexivity|].
  split; [vm_compute; reflexivity|].
  split; [vm_compute; reflexivity|].
  split; [eexists; vm_compute; reflexivity|].
  split; [eexists; vm_compute; reflexivity|].
  split; [vm_compute; reflexivity|].
  split; [vm_compute; reflexivity|].
  split.
  - eexists _, _, _. split; [vm_compute; reflexivity|].
    split; [vm_compute; reflexivity|].
    split; [vm_compute; reflexivity|].
    eexists; vm_compute; reflexivity.
  - vm_compute. reflexivity.
Qed.

(** * Further properties of the code *)

(** ** What a pass of [computeBar] leaves alone *)

(** The parts of the controller that recomputation and chunk handling
    read. *)
Lemma stripSeries_eq r r' :
  Renderer.timestamp r' = Renderer.timestamp r →
  Renderer.bar r' = Renderer.bar r →
  Renderer.sources r' = Renderer.sources r →
  Renderer.exchanges r' = Renderer.exchanges r →
  stripSeries r' = stripSeries r.
Proof. destruct r, r'. simpl. by intros -> -> -> ->. Qed.

Lemma stripSeries_set_series s r : stripSeries (Renderer.set_series s r) = stripSeries r.
Proof. done. Qed.

Lemma stripSeries_idemp r : stripSeries (stripSeries r) = stripSeries r.
Proof. done. Qed.

Lemma stripSeries_foldTrade env trade r :
  stripSeries (foldTrade env trade r) = foldTrade env trade (stripSeries r).
Proof.
  unfold foldTrade. simpl.
  destruct (Trade.liquidation trade); done.
Qed.

Lemma stripSeries_nextBar activeSeries timestamp r :
  stripSeries (nextBar activeSeries timestamp r)
  = resetRendererBar (Renderer.set_timestamp timestamp (stripSeries r)).
Proof. unfold nextBar. by destruct (negb _). Qed.

(** One iteration of [computeBar] writes the series of the renderer, the
    errors, the dialog flag and, from a temporary renderer, the series of
    the live renderer: nothing else. *)
Lemma computeSerie_frame which time series c renderer points serie c' renderer' points' :
  (which = LiveRenderer → Controller.activeRenderer c = Some renderer) →
  computeSerie which time series (c, renderer, points) serie = Ok (c', renderer', points') →
  stripSeries renderer' = stripSeries renderer
  ∧ Controller.activeSeries c' = Controller.activeSeries c
  ∧ Controller.activeChunk c' = Controller.activeChunk c
  ∧ Controller.chartCache c' = Controller.chartCache c
  ∧ Controller.renderedRange c' = Controller.renderedRange c
  ∧ Controller.sink c' = Controller.sink c
  ∧ Controller.chartInstance c' = Controller.chartInstance c
  ∧ Controller.enabledSeries c' = Controller.enabledSeries c
  ∧ Controller.panPrevented c' = Controller.panPrevented c
  ∧ (stripSeries <$> Controller.activeRenderer c')
    = (stripSeries <$> Controller.activeRenderer c)
  ∧ (which = LiveRenderer → Controller.activeRenderer c' = Some renderer').
Proof.
  intros Hlive. unfold computeSerie.
  destruct (excluded series (ActiveSerie.id serie)); [by intros [= <- <- <-]|].
  destruct (Renderer.series renderer !! ActiveSerie.id serie) as [serieData|]; [|done].
  destruct (ActiveSerie.adapter serie) as [adapter|]; [|done].
  destruct (ActiveSerie.model serie) as [model|]; [|done].
  destruct (adapter renderer _ _) as [[point functions] variables].
  intros H. apply bind_ok_inv in H as ([val emitted] & _ & H).
  destruct (isNaN val).
  - destruct which; injection H as <- <- <-; simpl; repeat split; try done.
    + by rewrite Hlive.
    + by destruct (Controller.activeRenderer c).
  - destruct (bool_decide (val = Prim Null) || _); injection H as <- <- <-;
      destruct which; simpl; repeat split; try done; by rewrite Hlive.
Qed.

Lemma sameButSeries_refl c : sameButSeries c c.
Proof. by repeat split. Qed.

Lemma sameButSeries_trans c1 c2 c3 :
  sameButSeries c1 c2 → sameButSeries c2 c3 → sameButSeries c1 c3.
Proof.
  unfold sameButSeries.
  intros (?&?&?&?&?&?&?&?&?) (?&?&?&?&?&?&?&?&?).
  repeat split; congruence.
Qed.

Lemma computeBar_writes_series env which c renderer series c' renderer' points :
  (which = LiveRenderer → Controller.activeRenderer c = Some renderer) →
  computeBar env which c renderer series = Ok (c', renderer', points) →
  stripSeries renderer' = stripSeries renderer
  ∧ sameButSeries c c'
  ∧ (which = LiveRenderer → Controller.activeRenderer c' = Some renderer').
Proof.
  unfold computeBar. intros Halias Hcompute.
  apply (foldM_invariant
    (fun st : Controller.t * Renderer.t * gmap string Point =>
       stripSeries st.1.2 = stripSeries renderer
       ∧ sameButSeries c st.1.1
       ∧ (which = LiveRenderer → Controller.activeRenderer st.1.1 = Some st.1.2))
    _ _ _ _) in Hcompute; [exact Hcompute| |].
  - split; [done|]. split; [apply sameButSeries_refl|done].
  - clear. intros serie [[c1 r1] p1] [[c2 r2] p2] _ (Hr & Hc & Hlive) Hstep.
    apply computeSerie_frame in Hstep
      as (Hr' & H1 & H2 & H3 & H4 & H5 & H6 & H7 & H8 & H9 & Hlive'); [|exact Hlive].
    simpl in *. split; [congruence|]. split; [|exact Hlive'].
    apply (sameButSeries_trans c c1 c2 Hc). by repeat split.
Qed.

(** [computeBar] never writes the bucket, the combined bar or the source
    bars of the renderer it computes, and never writes the active series,
    the active chunk, the cache, the rendered range or the sink.  The live
    renderer is the object [this.activeRenderer] refers to: when
    [computeBar] returns, [this.activeRenderer] is the renderer as the pass
    left it, with every write to its series. *)
Theorem computeBar_frame env which c renderer series c' renderer' points :
  (which = LiveRenderer → Controller.activeRenderer c = Some renderer) →
  computeBar env which c renderer series = Ok (c', renderer', points) →
  stripSeries renderer' = stripSeries renderer
  ∧ sameButSeries c c'
  ∧ (which = LiveRenderer → Controller.activeRenderer c' = Some renderer').
Proof. apply computeBar_writes_series. Qed.

Lemma computeBar_frame_witness :
  ∃ c' renderer' points,
    computeBar Scenario.env LiveRenderer Scenario.controllerThree
      Scenario.rendererThree None = Ok (c', renderer', points)
    ∧ stripSeries renderer' = stripSeries Scenario.rendererThree
    ∧ Controller.sink c' = Controller.sink Scenario.controllerThree
    ∧ Controller.activeRenderer c' = Some renderer'.
Proof.
  assert (Hrun : ∃ st,
    computeBar Scenario.env LiveRenderer Scenario.controllerThree
      Scenario.rendererThree None = Ok st) by (eexists; vm_compute; reflexivity).
  destruct Hrun as ([[c' renderer'] points] & Hrun).
  exists c', renderer', points. split; [exact Hrun|].
  destruct (computeBar_frame Scenario.env LiveRenderer Scenario.controllerThree
              Scenario.rendererThree None c' renderer' points (fun _ => eq_refl) Hrun)
    as (Hrenderer & (_ & _ & _ & _ & Hsink & _) & Hlive).
  split; [exact Hrenderer|]. split; [exact Hsink|]. by apply Hlive.
Defined.

(** ** The live bars are a fold of the trades *)

Lemma computeActiveBar_frame env c c' points :
  computeActiveBar env c = Ok (c', points) →
  sameButSeries c c'.
Proof.
  unfold computeActiveBar.
  destruct (Controller.activeRenderer c) as [renderer|] eqn:Hrenderer; [|done].
  intros H. apply bind_ok_inv in H as ([[c1 r1] p1] & Hcompute & H).
  injection H as <- <-.
  apply computeBar_writes_series in Hcompute
    as (Hr & (H1&H2&H3&H4&H5&H6&H7&H8&H9) & _); [|done].
  repeat split; simpl; try done.
  by rewrite Hrenderer, Hr.
Qed.

Lemma activeRenderer_set x c :
  Controller.activeRenderer (Controller.set_activeRenderer x c) = x.
Proof. done. Qed.

(** Choosing the chunk writes the cache and the active chunk only. *)
Lemma selectActiveChunk_frame env renderer c c' :
  selectActiveChunk env renderer c = Ok c' →
  Controller.activeRenderer c' = Controller.activeRenderer c
  ∧ Controller.activeSeries c' = Controller.activeSeries c
  ∧ Controller.renderedRange c' = Controller.renderedRange c
  ∧ Controller.sink c' = Controller.sink c.
Proof.
  unfold selectActiveChunk. intros H.
  apply bind_ok_inv in H as (needed & _ & H).
  destruct needed; simpl in H; [|by injection H as <-].
  unfold ChartCache.saveChunk in H.
  repeat case_match; try done; by injection H as <-.
Qed.

(** When the bucket of the live renderer closes, the renderer moves to the
    new bucket with a new combined bar and keeps its source bars. *)
Lemma closeBucket_bars env timestamp c formatedBars c' formatedBars' renderer :
  Controller.activeRenderer c = Some renderer →
  closeBucket env timestamp (c, formatedBars) = Ok (c', formatedBars') →
  stripSeries <$> Controller.activeRenderer c'
  = Some (resetRendererBar
            (Renderer.set_timestamp (Num timestamp) (stripSeries renderer))).
Proof.
  intros Hrenderer. unfold closeBucket. rewrite Hrenderer. intros H.
  apply bind_ok_inv in H as (c1 & Hselect & H).
  apply selectActiveChunk_frame in Hselect as (Hr1 & _).
  apply bind_ok_inv in H as ([c2 fb2] & Hcompute & H).
  assert (Hr2 : stripSeries <$> Controller.activeRenderer c2 = Some (stripSeries renderer)).
  { destruct (negb _).
    - apply bind_ok_inv in Hcompute as ([c3 p3] & Hcompute & Heq).
      injection Heq as <- <-.
      apply computeActiveBar_frame in Hcompute as (_&_&_&_&_&_&_&_&Hstrip).
      by rewrite Hstrip, Hr1, Hrenderer.
    - injection Hcompute as <- <-. by rewrite Hr1, Hrenderer. }
  destruct (Controller.activeRenderer c2) as [r2|]; [|done].
  destruct (Controller.activeChunk c2) as [i|]; [|done].
  destruct (ChartCache.chunks (Controller.chartCache c2) !! i); [|done].
  injection H as <- <-. rewrite activeRenderer_set.
  cbn [fmap option_fmap option_map] in *. rewrite stripSeries_nextBar.
  assert (stripSeries r2 = stripSeries renderer) as -> by congruence. done.
Qed.

Lemma aggregateTrade_strip env live trade :
  stripSeries (aggregateTrade env live trade)
  = aggregateTrade env (stripSeries <$> live) trade.
Proof.
  unfold aggregateTrade. rewrite stripSeries_foldTrade. f_equal.
  destruct live as [r|]; simpl; [|done].
  by destruct (js_lt _ _).
Qed.

(** One iteration of the loop of [renderRealtimeTrades], seen on the live
    bars. *)
Lemma renderTrade_bars env c formatedBars trade c' formatedBars' :
  renderTrade env (c, formatedBars) trade = Ok (c', formatedBars') →
  stripSeries <$> Controller.activeRenderer c'
  = Some (aggregateTrade env (stripSeries <$> Controller.activeRenderer c) trade).
Proof.
  unfold renderTrade. cbn [fst snd]. intros H.
  apply bind_ok_inv in H as ([c1 fb1] & Hadvance & H).
  assert (Hbars : stripSeries <$> Controller.activeRenderer c1
    = Some (match stripSeries <$> Controller.activeRenderer c with
            | None =>
                Renderer.mk (Num (bucketOf env trade))
                  (CombinedBar.mk 0 0 0 0 0 0 None None) ∅ None ∅
            | Some r =>
                if js_lt (Renderer.timestamp r) (Num (bucketOf env trade))
                then resetRendererBar
                       (Renderer.set_timestamp (Num (bucketOf env trade)) r)
                else r
            end)).
  { destruct (Controller.activeRenderer c) as [renderer|] eqn:Hrenderer.
    - simpl. destruct (js_lt _ _).
      + apply bind_ok_inv in Hadvance as ([c2 fb2] & Hclose & Heq).
        injection Heq as <- <-.
        by apply (closeBucket_bars _ _ _ _ _ _ _ Hrenderer) in Hclose.
      + injection Hadvance as <- <-. by rewrite Hrenderer.
    - destruct (createRenderer env _ _ _) as [renderer activeSeries] eqn:Hcreate.
      injection Hadvance as <- <-. simpl. f_equal.
      destruct (createRenderer_frame env (Controller.activeSeries c)
                  (Num (bucketOf env trade)) None) as (Ht & Hb & Hs & He).
      rewrite Hcreate in Ht, Hb, Hs, He. simpl in *.
      destruct renderer. simpl in *. by subst. }
  destruct (Controller.activeRenderer c1) as [r1|]; [|done].
  injection H as <- <-. rewrite activeRenderer_set.
  cbn [fmap option_fmap option_map]. f_equal.
  rewrite stripSeries_foldTrade. unfold aggregateTrade. f_equal.
  cbn [fmap option_fmap option_map] in Hbars. congruence.
Qed.

Lemma updateBar_frame bar c :
  Controller.activeRenderer (updateBar bar c) = Controller.activeRenderer c.
Proof.
  unfold updateBar. generalize (Controller.activeSeries c) as l. intros l. revert c.
  induction l as [|serie l IH]; intros c; [done|]. simpl. rewrite IH.
  by destruct (bar !! ActiveSerie.id serie).
Qed.

Lemma fold_updateBar_frame formatedBars c :
  Controller.activeRenderer (fold_left (fun c bar => updateBar bar c) formatedBars c)
  = Controller.activeRenderer c.
Proof.
  revert c. induction formatedBars as [|bar l IH]; intros c; [done|].
  simpl. by rewrite IH, updateBar_frame.
Qed.

Lemma foldM_renderTrade_bars env trades c formatedBars c' formatedBars' :
  foldM (renderTrade env) trades (c, formatedBars) = Ok (c', formatedBars') →
  stripSeries <$> Controller.activeRenderer c'
  = aggregate env trades (stripSeries <$> Controller.activeRenderer c).
Proof.
  revert c formatedBars.
  induction trades as [|trade trades IH]; intros c fb H.
  - by injection H as <- <-.
  - rewrite foldM_cons in H. apply bind_ok_inv in H as ([c1 fb1] & Hstep & H).
    apply renderTrade_bars in Hstep. apply IH in H.
    rewrite H, Hstep. done.
Qed.

Lemma renderRealtimeTrades_aggregate env trades c c' :
  renderRealtimeTrades env trades c = Ok c' →
  stripSeries <$> Controller.activeRenderer c'
  = aggregate env trades (stripSeries <$> Controller.activeRenderer c).
Proof.
  unfold renderRealtimeTrades.
  destruct trades as [|trade trades]; [by intros [= <-]|].
  intros H. apply bind_ok_inv in H as ([c1 fb1] & Hloop & H).
  apply foldM_renderTrade_bars in Hloop. rewrite <- Hloop. clear Hloop.
  destruct (Controller.activeRenderer c1) as [renderer|] eqn:Hrenderer; [|done].
  apply bind_ok_inv in H as ([c2 fb2] & Hcompute & H).
  injection H as <-. rewrite fold_updateBar_frame.
  destruct (negb _).
  - apply bind_ok_inv in Hcompute as ([c3 p3] & Hcompute & Heq).
    apply computeActiveBar_frame in Hcompute as (_&_&_&_&_&_&_&_&Hstrip).
    rewrite <- Hrenderer, <- Hstrip.
    destruct (js_lt _ _); by injection Heq as <- <-.
  - injection Hcompute as <- <-. by rewrite Hrenderer.
Qed.

(** However the series, the chunks and the cache stand, when
    [renderRealtimeTrades] returns, the bucket, the combined bar and the
    source bars of the live renderer are those of a fold of the trades over
    the bars it had: the series and the cache never feed back into the
    bars. *)
Theorem renderRealtimeTrades_bars env trades c c' :
  renderRealtimeTrades env trades c = Ok c' →
  stripSeries <$> Controller.activeRenderer c'
  = aggregate env trades (stripSeries <$> Controller.activeRenderer c).
Proof. apply renderRealtimeTrades_aggregate. Qed.

Lemma renderRealtimeTrades_bars_witness :
  ∃ c',
    renderRealtimeTrades Scenario.env
      [Scenario.tradeA0; Scenario.tradeB10; Scenario.tradeA65] Scenario.controller
    = Ok c'
    ∧ stripSeries <$> Controller.activeRenderer c'
      = aggregate Scenario.env
          [Scenario.tradeA0; Scenario.tradeB10; Scenario.tradeA65] None.
Proof.
  assert (Hrun : ∃ c',
    renderRealtimeTrades Scenario.env
      [Scenario.tradeA0; Scenario.tradeB10; Scenario.tradeA65] Scenario.controller
    = Ok c') by (eexists; vm_compute; reflexivity).
  destruct Hrun as (c' & Hrun). exists c'. split; [exact Hrun|].
  exact (renderRealtimeTrades_bars _ _ _ _ Hrun).
Defined.



(** ** Prices in order *)

Lemma foldTrade_orderedPrices env trade renderer :
  map_Forall (fun _ source => orderedPrices source) (Renderer.sources renderer) →
  map_Forall (fun _ source => orderedPrices source)
    (Renderer.sources (foldTrade env trade renderer)).
Proof.
  intros Hordered. unfold foldTrade.
  assert (Hsource : orderedPrices
    (match Renderer.sources renderer !! identifierOf trade with
     | Some source => source
     | None =>
         resetBar (Bar.mk (Trade.exchange trade) None Undefined 0 0 0
                          (Trade.price trade) 0 0 0 0 0 0 None)
     end)).
  { destruct (Renderer.sources renderer !! identifierOf trade) as [source|] eqn:Hin.
    - exact (Hordered _ _ Hin).
    - unfold orderedPrices. simpl. lia. }
  revert Hsource. generalize (match Renderer.sources renderer !! identifierOf trade with
     | Some source => source
     | None =>
         resetBar (Bar.mk (Trade.exchange trade) None Undefined 0 0 0
                          (Trade.price trade) 0 0 0 0 0 0 None)
     end) as source.
  intros source Hsource.
  destruct (Trade.liquidation trade); simpl; apply map_Forall_insert_2; try done;
    unfold orderedPrices in *; destruct (Trade.side trade); simpl; lia.
Qed.

Lemma aggregateTrade_orderedPrices env live trade :
  (∀ r, live = Some r →
     map_Forall (fun _ source => orderedPrices source) (Renderer.sources r)) →
  map_Forall (fun _ source => orderedPrices source)
    (Renderer.sources (aggregateTrade env live trade)).
Proof.
  intros Hlive. unfold aggregateTrade. apply foldTrade_orderedPrices.
  destruct live as [r|]; [|apply map_Forall_empty].
  destruct (js_lt _ _); exact (Hlive r eq_refl).
Qed.

Lemma aggregate_orderedPrices env trades : ∀ live,
  (∀ r, live = Some r →
     map_Forall (fun _ source => orderedPrices source) (Renderer.sources r)) →
  ∀ r, aggregate env trades live = Some r →
    map_Forall (fun _ source => orderedPrices source) (Renderer.sources r).
Proof.
  unfold aggregate. induction trades as [|trade trades IH]; intros live Hlive r.
  - apply Hlive.
  - simpl. apply IH. intros r0 [= <-]. by apply aggregateTrade_orderedPrices.
Qed.

(** The live fold keeps the prices of every source bar in order: if each
    source bar of the live renderer has its open and its close between its
    low and its high before a batch, so has each one after it. *)
Theorem renderRealtimeTrades_orderedPrices env trades c c' renderer' :
  (∀ renderer, Controller.activeRenderer c = Some renderer →
     map_Forall (fun _ source => orderedPrices source) (Renderer.sources renderer)) →
  renderRealtimeTrades env trades c = Ok c' →
  Controller.activeRenderer c' = Some renderer' →
  map_Forall (fun _ source => orderedPrices source) (Renderer.sources renderer').
Proof.
  intros Hbefore Hrun Hafter.
  apply renderRealtimeTrades_aggregate in Hrun. rewrite Hafter in Hrun.
  change (Renderer.sources renderer') with (Renderer.sources (stripSeries renderer')).
  apply (aggregate_orderedPrices env trades
           (stripSeries <$> Controller.activeRenderer c)); [|by rewrite <- Hrun].
  intros r Hr. destruct (Controller.activeRenderer c) as [r0|]; [|done].
  injection Hr as <-. exact (Hbefore r0 eq_refl).
Qed.

Lemma renderRealtimeTrades_orderedPrices_witness :
  ∃ c' renderer',
    renderRealtimeTrades Scenario.env
      [Scenario.tradeA0; Scenario.tradeA5; Scenario.tradeA10] Scenario.controller
    = Ok c'
    ∧ Controller.activeRenderer c' = Some renderer'
    ∧ map_Forall (fun _ source => orderedPrices source) (Renderer.sources renderer').
Proof.
  assert (Hrun : ∃ c',
    renderRealtimeTrades Scenario.env
      [Scenario.tradeA0; Scenario.tradeA5; Scenario.tradeA10] Scenario.controller
    = Ok c') by (eexists; vm_compute; reflexivity).
  destruct Hrun as (c' & Hrun).
  assert (Hrenderer : ∃ renderer', Controller.activeRenderer c' = Some renderer').
  { vm_compute in Hrun. injection Hrun as <-. eexists. reflexivity. }
  destruct Hrenderer as (renderer' & Hrenderer).
  exists c', renderer'. split; [exact Hrun|]. split; [exact Hrenderer|].
  refine (renderRealtimeTrades_orderedPrices _ _ _ _ _ _ Hrun Hrenderer).
  intros renderer Hnone. discriminate Hnone.
Defined.

(** ** The bucket of a trade *)

(** With a positive bucket width (in seconds), the bucket of a trade is a
    multiple of the width, and the time of the trade (in milliseconds) lies
    in the interval of that bucket. *)
Theorem bucketOf_contains_trade env trade :
  0 < timeframe env →
  (timeframe env | bucketOf env trade)
  ∧ 1000 * bucketOf env trade ≤ Trade.timestamp trade
    < 1000 * (bucketOf env trade + timeframe env).
Proof.
  intros Hpos. unfold bucketOf.
  set (seconds := Trade.timestamp trade / 1000).
  split; [by apply Z.divide_factor_r|].
  pose proof (Z.div_mod (Trade.timestamp trade) 1000 ltac:(lia)) as Hms.
  pose proof (Z.mod_pos_bound (Trade.timestamp trade) 1000 ltac:(lia)) as Hms'.
  pose proof (Z.div_mod seconds (timeframe env) ltac:(lia)) as Hs.
  pose proof (Z.mod_pos_bound seconds (timeframe env) Hpos) as Hs'.
  fold seconds in Hms. nia.
Qed.

Lemma bucketOf_contains_trade_witness :
  (60 | bucketOf Scenario.env Scenario.tradeA65)
  ∧ 1000 * bucketOf Scenario.env Scenario.tradeA65 ≤ 65000
    < 1000 * (bucketOf Scenario.env Scenario.tradeA65 + 60).
Proof.
  apply (bucketOf_contains_trade Scenario.env Scenario.tradeA65). reflexivity.
Defined.

(** With a positive bucket width, a later trade is never in an earlier
    bucket. *)
Theorem bucketOf_monotone env first second :
  0 < timeframe env →
  Trade.timestamp first ≤ Trade.timestamp second →
  bucketOf env first ≤ bucketOf env second.
Proof.
  intros Hpos Hle. unfold bucketOf.
  apply Z.mul_le_mono_nonneg_r; [lia|].
  apply Z.div_le_mono; [done|]. apply Z.div_le_mono; [lia|done].
Qed.

Lemma bucketOf_monotone_witness :
  bucketOf Scenario.env Scenario.tradeB10 ≤ bucketOf Scenario.env Scenario.tradeA65.
Proof.
  apply (bucketOf_monotone Scenario.env Scenario.tradeB10 Scenario.tradeA65).
  - reflexivity.
  - vm_compute. discriminate.
Defined.

(** ** Slots and timers of the counter *)

Section CounterSlots.
Local Open Scope Q_scope.
Import Counter.

Lemma addData_stacks_length data c :
  length (stacks (addData data c)) = length (stacks c).
Proof.
  unfold addData. simpl. destruct (last (stacks c)); [|done].
  by rewrite length_insert.
Qed.

Lemma shiftStack_lengths c :
  length (timeouts c) = length (stacks c) →
  length (timeouts (shiftStack c)) = length (stacks (shiftStack c)).
Proof.
  unfold shiftStack. intros Hlen.
  destruct (negb (truthy (head (stacks c)))); simpl;
    destruct (timeouts c), (stacks c); simpl in *; lia.
Qed.

Lemma onStats_lengths now ts data c :
  length (timeouts c) = length (stacks c) →
  length (timeouts (onStats now ts data c)) = length (stacks (onStats now ts data c)).
Proof.
  intros Hlen. unfold onStats. rewrite addData_stacks_length.
  change (timeouts (addData data ?x)) with (timeouts x).
  destruct (match stacks c with [] => true | _ => _ end).
  - unfold appendStack. simpl. rewrite !length_app. simpl. lia.
  - destruct (filled c && truthy (remaining c)); [|done].
    by destruct (timestamp c), (head (stacks c)), (remaining c).
Qed.

Lemma fire_lengths n now : ∀ c,
  length (timeouts c) = length (stacks c) →
  length (timeouts (fire n now c)) = length (stacks (fire n now c)).
Proof.
  induction n as [|n IH]; intros c Hlen; [done|]. simpl.
  destruct (timeouts c) as [|due tl] eqn:Htimeouts; [by rewrite Htimeouts|].
  destruct (Qle_bool due now); [|by rewrite Htimeouts].
  apply IH, shiftStack_lengths. by rewrite Htimeouts.
Qed.

(** Whatever the updates and the expiries, the counter holds exactly one
    pending expiry timer per slot. *)
Theorem counter_one_timer_per_slot statsWindow statsGranularity optWindow optType events :
  let c := updates events (create statsWindow statsGranularity optWindow optType) in
  length (timeouts c) = length (stacks c).
Proof.
  simpl. unfold updates.
  generalize (eq_refl : length (timeouts (create statsWindow statsGranularity optWindow optType))
                        = length (stacks (create statsWindow statsGranularity optWindow optType))).
  generalize (create statsWindow statsGranularity optWindow optType) as c.
  induction events as [|event events IH]; intros c Hlen; [done|].
  simpl. apply IH. unfold update. apply onStats_lengths, fire_lengths, Hlen.
Qed.

End CounterSlots.

Lemma elapse_keeps_first_slot_witness :
  (Counter.getValue (Counter.elapse 103000 Scenario.counter)
   == Counter.live Scenario.counter - Qsum [5; 5])%Q
  ∧ Counter.stacks (Counter.elapse 103000 Scenario.counter) = [].
Proof.
  apply (elapse_keeps_first_slot 103000%Q Scenario.counter 5%Q [5; 5]%Q).
  - vm_compute. reflexivity.
  - vm_compute. reflexivity.
  - repeat constructor.
  - vm_compute. reflexivity.
  - vm_compute. repeat constructor.
Defined.

(** ** The queue of trades *)

(** Trades queued while rendering is locked wait in the order they came:
    a release under the lock renders nothing and loses nothing; the release
    after the lock is lifted hands the whole queue, oldest first, to one
    call of [renderRealtimeTrades], and empties the queue when that call
    returns; when that call throws, the queue is kept. *)
Theorem queue_keeps_arrival_order env q c first second :
  let locked := queueTrades second (queueTrades first (lockRender q)) in
  let trades := Queue.queuedTrades q ++ first ++ second in
  releaseQueue env locked c = (Ok c, locked)
  ∧ Queue.queuedTrades locked = trades
  ∧ releaseQueue env (unlockRender locked) c
    = match renderRealtimeTrades env trades c with
      | Ok c' => (Ok c', Queue.mk [] false)
      | Throw message => (Throw message, Queue.mk trades false)
      end.
Proof.
  simpl. split; [|split].
  - unfold releaseQueue. simpl. by destruct (_ ++ _).
  - by rewrite <- app_assoc.
  - unfold releaseQueue, unlockRender, queueTrades, lockRender. simpl.
    rewrite <- app_assoc.
    destruct (Queue.queuedTrades q ++ first ++ second) as [|trade trades]; done.
Qed.

(** ** Markers *)

Section MarkerProperties.
Context {Marker : Type} (time : Marker → Z).

Lemma spliceFirst_filter t (l : list Marker) :
  NoDup (time <$> l) →
  spliceFirst time t l = filter (fun m => time m ≠ t) l.
Proof.
  induction l as [|m l IH]; [done|].
  rewrite fmap_cons. intros [Hfresh Hnodup]%NoDup_cons.
  simpl. rewrite filter_cons.
  destruct (Z.eqb_spec (time m) t) as [Heq|Hne].
  - rewrite decide_False by (by intros ?).
    symmetry. clear IH. induction l as [|m' l IH]; [done|].
    rewrite fmap_cons in Hfresh, Hnodup.
    apply NoDup_cons in Hnodup as [_ Hnodup].
    rewrite filter_cons, decide_True.
    + f_equal. apply IH; [|done]. intros Hin. apply Hfresh. by right.
    + intros Heq'. apply Hfresh. rewrite Heq, <- Heq'. by left.
  - rewrite decide_True by done. f_equal. by apply IH.
Qed.

(** When the markers of a serie have distinct times, [setMarkers] keeps
    them distinct: the markers of another time stay, in their order, the
    marker of the same time goes, and the new marker comes last. *)
Theorem setMarkers_one_marker_per_time (markers : option (list Marker)) marker :
  NoDup (time <$> default [] markers) →
  setMarkers time markers marker
  = filter (fun m => time m ≠ time marker) (default [] markers) ++ [marker]
  ∧ NoDup (time <$> setMarkers time markers marker).
Proof.
  intros Hnodup.
  assert (Heq : setMarkers time markers marker
                = filter (fun m => time m ≠ time marker) (default [] markers) ++ [marker]).
  { unfold setMarkers. f_equal.
    rewrite spliceFirst_filter.
    - by rewrite filter_reverse, reverse_involutive.
    - by rewrite fmap_reverse, reverse_Permutation. }
  split; [exact Heq|]. rewrite Heq, fmap_app. apply NoDup_app. split; [|split].
  - apply (sublist_NoDup _ (time <$> default [] markers));
      first [exact Hnodup | apply fmap_sublist, sublist_filter].
  - intros t Hin Hmarker. apply list_elem_of_fmap in Hin as (m & -> & Hin).
    apply list_elem_of_filter in Hin as [Hne _].
    apply list_elem_of_singleton in Hmarker. done.
  - apply NoDup_singleton.
Qed.
End MarkerProperties.

Lemma setMarkers_one_marker_per_time_witness :
  setMarkers fst (Some [(10, "a"%string); (20, "b"%string); (30, "c"%string)])
             (20, "d"%string)
  = [(10, "a"%string); (30, "c"%string); (20, "d"%string)].
Proof.
  destruct (setMarkers_one_marker_per_time fst
              (Some [(10, "a"%string); (20, "b"%string); (30, "c"%string)])
              (20, "d"%string)) as [Heq _].
  - simpl.
    repeat (apply NoDup_cons; split;
            [intros Hin;
             repeat (apply elem_of_cons in Hin as [Hin|Hin]; [lia|]);
             by apply elem_of_nil in Hin|]).
    apply NoDup_nil_2.
  - rewrite Heq. reflexivity.
Defined.

(** ** The FTX feed *)

Section FeedProperties.
Context {Item : Type} (liquidation : Item → bool).

Lemma splitFeed_filter (data : list Item) :
  splitFeed liquidation data
  = (filter (fun item => liquidation item = false) data,
     filter (fun item => liquidation item = true) data).
Proof.
  unfold splitFeed.
  assert (Hgen : ∀ trades liquidations,
    fold_left
      (fun acc item =>
         if liquidation item then (acc.1, acc.2 ++ [item])
         else (acc.1 ++ [item], acc.2))
      data (trades, liquidations)
    = (trades ++ filter (fun item => liquidation item = false) data,
       liquidations ++ filter (fun item => liquidation item = true) data)).
  { induction data as [|item data IH]; intros trades liquidations.
    - by rewrite !app_nil_r.
    - simpl. rewrite !filter_cons.
      destruct (liquidation item) eqn:Hitem; rewrite IH; simpl;
        repeat case_decide; try done; by rewrite <- app_assoc. }
  apply Hgen.
Qed.

(** A message is split by the liquidation flag of its items, each list in
    the order of the message; the liquidations are emitted before the
    trades, an empty list is not emitted, and a message without items is
    not handled. *)
Theorem onMessage_splits_by_liquidation api (data : option (list Item)) :
  let trades := filter (fun item => liquidation item = false) (default [] data) in
  let liquidations := filter (fun item => liquidation item = true) (default [] data) in
  (onMessage liquidation api data).1 = negb (bool_decide (default [] data = []))
  ∧ (onMessage liquidation api data).2
    = (if bool_decide (liquidations = []) then []
       else [EmitLiquidations api liquidations])
      ++ (if bool_decide (trades = []) then [] else [EmitTrades api trades])
  ∧ trades ++ liquidations ≡ₚ default [] data.
Proof.
  simpl. split; [|split].
  - destruct data as [[|item data]|]; [done| |done].
    unfold onMessage. by destruct (splitFeed _ _).
  - destruct data as [[|item data]|]; [done| |done].
    unfold onMessage. rewrite splitFeed_filter. simpl default.
    generalize (item :: data) as l. intros l.
    destruct (filter (fun item => liquidation item = true) l),
             (filter (fun item => liquidation item = false) l); done.
  - rewrite (list_filter_iff (fun item => liquidation item = true)
               (fun item => ¬ liquidation item = false)).
    + apply filter_app_complement.
    + intros item. by destruct (liquidation item).
Qed.
End FeedProperties.

(** ** What [computeBar] computes *)

(** An active serie that is not left out and has no data in the renderer
    makes [computeBar] throw: the loop has no branch for it. *)
Theorem computeBar_throws_on_unbound_serie env which c renderer series serie :
  serie ∈ Controller.activeSeries c →
  excluded series (ActiveSerie.id serie) = false →
  Renderer.series renderer !! ActiveSerie.id serie = None →
  is_ok (computeBar env which c renderer series) = false.
Proof.
  unfold computeBar.
  generalize (js_add (Renderer.timestamp renderer) (Num (timezoneOffset env / 1000))).
  intros time.
  generalize (∅ : gmap string Point) as points.
  generalize (Controller.activeSeries c) as l. intros l. revert c renderer.
  induction l as [|a l IH]; intros c renderer points Hin Hincluded Hunbound.
  - by apply elem_of_nil in Hin.
  - rewrite foldM_cons.
    destruct (computeSerie which time series (c, renderer, points) a)
      as [[[c1 r1] p1]|message] eqn:Hstep; [|done].
    cbn [mbind result_bind].
    destruct (decide (ActiveSerie.id a = ActiveSerie.id serie)) as [Heq|Hne].
    + unfold computeSerie in Hstep.
      by rewrite Heq, Hincluded, Hunbound in Hstep.
    + apply IH; [|done|].
      * apply elem_of_cons in Hin as [->|Hin]; done.
      * revert Hstep. unfold computeSerie.
        destruct (excluded series (ActiveSerie.id a)); [by intros [= <- <- <-]|].
        destruct (Renderer.series renderer !! ActiveSerie.id a); [|done].
        destruct (ActiveSerie.adapter a) as [adapter|]; [|done].
        destruct (ActiveSerie.model a); [|done].
        destruct (adapter renderer _ _) as [[point functions] variables].
        intros H. apply bind_ok_inv in H as ([val emitted] & _ & H).
        destruct (isNaN val).
        -- destruct which; injection H as <- <- <-; simpl.
           ++ by rewrite lookup_delete_ne, lookup_insert_ne.
           ++ by rewrite lookup_insert_ne.
        -- destruct (bool_decide (val = Prim Null) || _); injection H as <- <- <-;
             simpl; by rewrite lookup_insert_ne.
Qed.

Lemma computeBar_throws_on_unbound_serie_witness :
  is_ok (computeBar Scenario.env LiveRenderer Scenario.controllerThree
           (Renderer.set_series (delete "gaps"%string
                                   (Renderer.series Scenario.rendererThree))
              Scenario.rendererThree) None) = false.
Proof.
  apply (computeBar_throws_on_unbound_serie Scenario.env LiveRenderer
           Scenario.controllerThree _ None (Scenario.serieOf "gaps" "line" Null)).
  - simpl. apply list_elem_of_further, list_elem_of_here.
  - reflexivity.
  - vm_compute. reflexivity.
Defined.

(** The points of a bucket belong to active series that are not left out,
    every point carries a time, and the data of a serie that is left out or
    is not active is not written. *)
Theorem computeBar_points env which c renderer series c' renderer' points :
  computeBar env which c renderer series = Ok (c', renderer', points) →
  (∀ id point, points !! id = Some point →
     is_Some (point !! "time"%string)
     ∧ excluded series id = false
     ∧ ∃ serie, serie ∈ Controller.activeSeries c ∧ ActiveSerie.id serie = id)
  ∧ (∀ id, excluded series id = true
           ∨ id ∉ ActiveSerie.id <$> Controller.activeSeries c →
       Renderer.series renderer' !! id = Renderer.series renderer !! id).
Proof.
  unfold computeBar. intros Hcompute.
  apply (foldM_invariant
    (fun st : Controller.t * Renderer.t * gmap string Point =>
       (∀ id point, st.2 !! id = Some point →
          is_Some (point !! "time"%string)
          ∧ excluded series id = false
          ∧ ∃ serie, serie ∈ Controller.activeSeries c ∧ ActiveSerie.id serie = id)
       ∧ (∀ id, excluded series id = true
                ∨ id ∉ ActiveSerie.id <$> Controller.activeSeries c →
            Renderer.series st.1.2 !! id = Renderer.series renderer !! id))
    _ _ _ _) in Hcompute; [exact Hcompute|by split|].
  clear. intros serie [[c1 r1] p1] [[c2 r2] p2] Hin [Hpoints Hdata].
  unfold computeSerie.
  destruct (excluded series (ActiveSerie.id serie)) eqn:Hexcluded;
    [by intros [= <- <- <-]|].
  destruct (Renderer.series r1 !! ActiveSerie.id serie); [|done].
  destruct (ActiveSerie.adapter serie) as [adapter|]; [|done].
  destruct (ActiveSerie.model serie) as [model|]; [|done].
  destruct (adapter r1 _ _) as [[point functions] variables].
  intros H. apply bind_ok_inv in H as ([val emitted] & Hemitted & H).
  assert (Htime : is_Some (emitted !! "time"%string)).
  { destruct (SerieTranspilationResult.type model).
    - apply bind_ok_inv in Hemitted as (close & _ & Hemitted).
      apply bind_ok_inv in Hemitted as (open & _ & Hemitted).
      apply bind_ok_inv in Hemitted as (high & _ & Hemitted).
      apply bind_ok_inv in Hemitted as (low & _ & Hemitted).
      injection Hemitted as <- <-. rewrite lookup_insert_eq. eauto.
    - injection Hemitted as <- <-. rewrite lookup_insert_eq. eauto.
    - apply bind_ok_inv in Hemitted as (v & _ & Hemitted).
      injection Hemitted as <- <-. rewrite lookup_union.
      rewrite lookup_singleton_eq. destruct (spread point !! "time"%string); eauto. }
  assert (Hown : ∀ id, excluded series id = true
                       ∨ id ∉ ActiveSerie.id <$> Controller.activeSeries c →
                 id ≠ ActiveSerie.id serie).
  { intros id [Hex|Hnotin] ->; [congruence|].
    apply Hnotin. by apply list_elem_of_fmap_2. }
  assert (Hnew : ∀ (p : gmap string Point) id q,
    <[ActiveSerie.id serie := emitted]> p !! id = Some q →
    (∀ id point, p !! id = Some point →
       is_Some (point !! "time"%string)
       ∧ excluded series id = false
       ∧ ∃ serie, serie ∈ Controller.activeSeries c ∧ ActiveSerie.id serie = id) →
    is_Some (q !! "time"%string)
    ∧ excluded series id = false
    ∧ ∃ serie, serie ∈ Controller.activeSeries c ∧ ActiveSerie.id serie = id).
  { intros p id q Hq Hp. apply lookup_insert_Some in Hq as [[<- <-]|[_ Hq]]; eauto. }
  destruct (isNaN val).
  - destruct which; injection H as <- <- <-; simpl; split.
    + intros id q Hq. by apply (Hnew p1).
    + intros id Hid. rewrite lookup_delete_ne, lookup_insert_ne by (by apply not_eq_sym, Hown).
      by apply Hdata.
    + intros id q Hq. by apply (Hnew p1).
    + intros id Hid. rewrite lookup_insert_ne by (by apply not_eq_sym, Hown).
      by apply Hdata.
  - destruct (bool_decide (val = Prim Null) || _); injection H as <- <- <-; simpl; split.
    + intros id q Hq. apply lookup_delete_Some in Hq as [_ Hq]. by apply (Hnew p1).
    + intros id Hid. rewrite lookup_insert_ne by (by apply not_eq_sym, Hown).
      by apply Hdata.
    + intros id q Hq. by apply (Hnew p1).
    + intros id Hid. rewrite lookup_insert_ne by (by apply not_eq_sym, Hown).
      by apply Hdata.
Qed.

Lemma computeBar_points_witness :
  ∃ c' renderer' points point,
    computeBar Scenario.env LiveRenderer Scenario.controllerThree
      Scenario.rendererThree (Some ["flat"%string]) = Ok (c', renderer', points)
    ∧ points !! "flat"%string = Some point
    ∧ is_Some (point !! "time"%string)
    ∧ Renderer.series renderer' !! "gaps"%string
      = Renderer.series Scenario.rendererThree !! "gaps"%string.
Proof.
  assert (Hrun : ∃ st,
    computeBar Scenario.env LiveRenderer Scenario.controllerThree
      Scenario.rendererThree (Some ["flat"%string]) = Ok st)
    by (eexists; vm_compute; reflexivity).
  destruct Hrun as ([[c' renderer'] points] & Hrun).
  assert (Hpoint : ∃ point, points !! "flat"%string = Some point).
  { vm_compute in Hrun. injection Hrun as <- <- <-. eexists. vm_compute. reflexivity. }
  destruct Hpoint as (point & Hpoint).
  exists c', renderer', points, point. split; [exact Hrun|]. split; [exact Hpoint|].
  destruct (computeBar_points _ _ _ _ _ _ _ _ Hrun) as [Hpoints Hdata].
  split.
  - exact (proj1 (Hpoints _ _ Hpoint)).
  - apply Hdata. left. reflexivity.
Defined.

(** [renderBars] collects the points of a bucket at the end of the list of
    each serie that has one, and leaves the lists of the other series. *)
Theorem pushPoints_appends (computedBar : gmap string Point)
    (computedSeries : gmap string (list Point)) id :
  pushPoints computedBar computedSeries !! id
  = match computedBar !! id with
    | Some point => Some (default [] (computedSeries !! id) ++ [point])
    | None => computedSeries !! id
    end.
Proof.
  unfold pushPoints.
  apply (map_fold_weak_ind
           (fun acc (m : gmap string Point) =>
              acc !! id
              = match m !! id with
                | Some point => Some (default [] (computedSeries !! id) ++ [point])
                | None => computedSeries !! id
                end)); [done|].
  intros i point m acc Hfresh IH.
  destruct (decide (i = id)) as [->|Hne].
  - rewrite !lookup_insert_eq. rewrite Hfresh in IH. by rewrite IH.
  - by rewrite !lookup_insert_ne.
Qed.

(** [replaceData] hands a serie its computed points only when there are
    some: it never sends an empty replacement, and it sends nothing that was
    not computed for that serie. *)
Theorem replaceData_sink (computedSeries : gmap string (list Point)) c id points :
  SinkSetData id points ∈ Controller.sink (replaceData computedSeries c) →
  SinkSetData id points ∈ Controller.sink c
  ∨ (computedSeries !! id = Some points ∧ points ≠ []).
Proof.
  unfold replaceData.
  change (Controller.sink c) with (Controller.sink (preventPan c)).
  generalize (preventPan c) as c0.
  generalize (Controller.activeSeries c) as series. intros series.
  induction series as [|serie series IH]; intros c0; simpl; [by left|].
  intros H. apply IH in H as [H|H]; [|by right].
  destruct (computedSeries !! ActiveSerie.id serie) as [[|p ps]|] eqn:Hp;
    [by left| |by left].
  simpl in H. apply elem_of_app in H as [H|H]; [by left|].
  apply list_elem_of_singleton in H. injection H as -> ->. by right.
Qed.

Lemma replaceData_sink_witness :
  SinkSetData "flat" [∅]
    ∈ Controller.sink (replaceData {[ "flat"%string := [∅] ]} Scenario.controllerThree)
  ∧ (SinkSetData "flat" [∅] ∈ Controller.sink Scenario.controllerThree
     ∨ (({[ "flat"%string := [∅] ]} : gmap string (list Point)) !! "flat"%string
        = Some [∅]
        ∧ ([∅] : list Point) ≠ [])).
Proof.
  assert (Hin : SinkSetData "flat" [∅]
    ∈ Controller.sink (replaceData {[ "flat"%string := [∅] ]} Scenario.controllerThree)).
  { assert (Hsink :
      Controller.sink (replaceData {[ "flat"%string := [∅] ]} Scenario.controllerThree)
      = [SinkSetData "flat" [∅]]) by (vm_compute; reflexivity).
    rewrite Hsink. apply list_elem_of_here. }
  split; [exact Hin|].
  exact (replaceData_sink _ _ _ _ Hin).
Defined.

(** ** Binding *)

(** Binding a serie that is not bound and unbinding it again gives the
    renderer back; binding a serie that is bound changes nothing, so the
    state of its instructions is kept. *)
Theorem bindSerie_unbindSerie env serie renderer :
  (Renderer.series renderer !! ActiveSerie.id serie = None →
   unbindSerie serie (bindSerie env serie (Some renderer)).2 = Some renderer)
  ∧ (is_Some (Renderer.series renderer !! ActiveSerie.id serie) →
     bindSerie env serie (Some renderer) = (serie, Some renderer)).
Proof.
  split.
  - intros Hfree. unfold bindSerie. rewrite Hfree.
    destruct (ActiveSerie.model serie); simpl.
    + rewrite delete_insert_id by done. by destruct renderer.
    + rewrite delete_id by done. by destruct renderer.
  - intros [data Hbound]. unfold bindSerie. rewrite Hbound.
    by destruct (ActiveSerie.model serie).
Qed.

(** The loop of [createRenderer] never rebinds: data found in the renderer
    stays, and data it adds comes from a serie of the list that has a model
    and is not left out. *)
Lemma bindInto_fold env series l : ∀ acc,
  let res := fold_left (bindInto env series) l acc in
  (∀ id data, Renderer.series acc.1 !! id = Some data →
     Renderer.series res.1 !! id = Some data)
  ∧ (∀ id data, Renderer.series res.1 !! id = Some data →
       Renderer.series acc.1 !! id = Some data
       ∨ ∃ serie model,
           serie ∈ l ∧ ActiveSerie.id serie = id
           ∧ excluded series id = false
           ∧ ActiveSerie.model serie = Some model
           ∧ data = RendererSerieData.mk (Prim Null) (Prim Null)
                      (jsonInstruction <$> SerieTranspilationResult.variables model)
                      (updateInstructionsArgument env
                         (jsonInstruction <$> SerieTranspilationResult.functions model)))
  ∧ (∀ serie, serie ∈ l → excluded series (ActiveSerie.id serie) = false →
       is_Some (ActiveSerie.model serie) →
       is_Some (Renderer.series res.1 !! ActiveSerie.id serie))
  ∧ ActiveSerie.id <$> res.2 = (ActiveSerie.id <$> acc.2) ++ (ActiveSerie.id <$> l)
  ∧ ActiveSerie.model <$> res.2
    = (ActiveSerie.model <$> acc.2) ++ (ActiveSerie.model <$> l).
Proof.
  induction l as [|serie l IH]; intros acc.
  - simpl. rewrite !app_nil_r. repeat split; try done; [by left|].
    intros serie Hin. by apply elem_of_nil in Hin.
  - cbn [fold_left]. destruct (IH (bindInto env series acc serie))
      as (Hkeep & Hnew & Hbound & Hids & Hmodels). clear IH.
    destruct acc as [r0 l0]. cbn [fst snd] in *.
    assert (Hstep :
      (∀ id data, Renderer.series r0 !! id = Some data →
         Renderer.series (bindInto env series (r0, l0) serie).1 !! id = Some data)
      ∧ (∀ id data,
           Renderer.series (bindInto env series (r0, l0) serie).1 !! id = Some data →
           Renderer.series r0 !! id = Some data
           ∨ ∃ model,
               ActiveSerie.id serie = id ∧ excluded series id = false
               ∧ ActiveSerie.model serie = Some model
               ∧ data = RendererSerieData.mk (Prim Null) (Prim Null)
                          (jsonInstruction <$> SerieTranspilationResult.variables model)
                          (updateInstructionsArgument env
                             (jsonInstruction <$> SerieTranspilationResult.functions model)))
      ∧ (excluded series (ActiveSerie.id serie) = false →
         is_Some (ActiveSerie.model serie) →
         is_Some (Renderer.series (bindInto env series (r0, l0) serie).1
                    !! ActiveSerie.id serie))
      ∧ ActiveSerie.id <$> (bindInto env series (r0, l0) serie).2
        = (ActiveSerie.id <$> l0) ++ [ActiveSerie.id serie]
      ∧ ActiveSerie.model <$> (bindInto env series (r0, l0) serie).2
        = (ActiveSerie.model <$> l0) ++ [ActiveSerie.model serie]).
    { unfold bindInto, bindSerie.
      destruct (excluded series (ActiveSerie.id serie)) eqn:Hexcluded.
      - simpl. rewrite !fmap_app. repeat split; try done; by left.
      - destruct (ActiveSerie.model serie) as [model|] eqn:Hmodel.
        + cbn [fst snd].
          destruct (Renderer.series r0 !! ActiveSerie.id serie) as [old|] eqn:Hold;
            simpl; rewrite !fmap_app; simpl.
          * repeat split;
              first [done | by left | by (intros; rewrite Hold; eauto)
                     | by rewrite Hmodel].
          * repeat split; try done.
            -- intros id data Hdata.
               rewrite lookup_insert_ne; [done|]. intros <-. congruence.
            -- intros id data Hdata.
               apply lookup_insert_Some in Hdata as [[<- <-]|[_ Hdata]]; [|by left].
               right. by exists model.
            -- intros _ _. by rewrite lookup_insert_eq.
            -- by rewrite Hmodel.
        + simpl. rewrite !fmap_app. simpl.
          repeat split;
            first [done | by left | by intros _ [? ?] | by rewrite Hmodel]. }
    destruct Hstep as (Hkeep1 & Hnew1 & Hbound1 & Hids1 & Hmodels1).
    split; [|split; [|split; [|split]]].
    + intros id data Hdata. by apply Hkeep, Hkeep1.
    + intros id data Hdata. apply Hnew in Hdata as [Hdata|Hdata].
      * apply Hnew1 in Hdata as [Hdata|(model & <- & Hex & Hmodel & ->)]; [by left|].
        right. exists serie, model. repeat split; try done. apply list_elem_of_here.
      * right. destruct Hdata as (s & model & Hin & Hrest).
        exists s, model. split; [by apply list_elem_of_further|done].
    + intros s Hin Hex Hmodel. apply elem_of_cons in Hin as [->|Hin].
      * destruct (Hbound1 Hex Hmodel) as [data Hdata]. exists data. by apply Hkeep.
      * by apply Hbound.
    + rewrite Hids, Hids1, fmap_cons, <- app_assoc. done.
    + rewrite Hmodels, Hmodels1, fmap_cons, <- app_assoc. done.
Qed.

(** [createRenderer] binds the active series that have a model and are not
    left out, and no other; the data of a bound serie has the value and the
    point [null] and a copy through JSON of the instructions of the model of
    a serie of that identifier, the functions as [updateInstructionsArgument]
    leaves that copy; the active series keep their order, their identifiers
    and their models. *)
Theorem createRenderer_binds env activeSeries timestamp series :
  let res := createRenderer env activeSeries timestamp series in
  (∀ id, is_Some (Renderer.series res.1 !! id)
         ↔ ∃ serie, serie ∈ activeSeries ∧ ActiveSerie.id serie = id
                    ∧ excluded series id = false
                    ∧ is_Some (ActiveSerie.model serie))
  ∧ (∀ id data, Renderer.series res.1 !! id = Some data →
       ∃ serie model,
         serie ∈ activeSeries ∧ ActiveSerie.id serie = id
         ∧ ActiveSerie.model serie = Some model
         ∧ data = RendererSerieData.mk (Prim Null) (Prim Null)
                    (jsonInstruction <$> SerieTranspilationResult.variables model)
                    (updateInstructionsArgument env
                       (jsonInstruction <$> SerieTranspilationResult.functions model)))
  ∧ ActiveSerie.id <$> res.2 = ActiveSerie.id <$> activeSeries
  ∧ ActiveSerie.model <$> res.2 = ActiveSerie.model <$> activeSeries.
Proof.
  simpl. unfold createRenderer.
  destruct (bindInto_fold env series activeSeries
              (Renderer.mk timestamp (CombinedBar.mk 0 0 0 0 0 0 None None) ∅ None ∅, []))
    as (_ & Hnew & Hbound & Hids & Hmodels).
  simpl in *. split; [|split; [|split]]; [| |done|done].
  - intros id. split.
    + intros [data Hdata]. apply Hnew in Hdata as [Hdata|Hdata]; [done|].
      destruct Hdata as (serie & model & Hin & Hid & Hex & Hmodel & _).
      exists serie. rewrite Hmodel. eauto.
    + intros (serie & Hin & <- & Hex & Hmodel). by apply Hbound.
  - intros id data Hdata. apply Hnew in Hdata as [Hdata|Hdata]; [done|].
    destruct Hdata as (serie & model & Hin & Hid & Hex & Hmodel & ->).
    exists serie, model. done.
Qed.

Lemma bindSerie_unbindSerie_witness :
  unbindSerie Scenario2.modelled
    (bindSerie Scenario.env Scenario2.modelled (Some Scenario.renderer60)).2
  = Some Scenario.renderer60.
Proof.
  apply (bindSerie_unbindSerie Scenario.env Scenario2.modelled Scenario.renderer60).
  vm_compute. reflexivity.
Defined.

Lemma createRenderer_binds_witness :
  is_Some (Renderer.series
             (createRenderer Scenario.env [Scenario2.modelled; Scenario.sma] (Num 0)
                None).1 !! "flat"%string)
  ∧ ¬ is_Some (Renderer.series
                 (createRenderer Scenario.env [Scenario2.modelled; Scenario.sma] (Num 0)
                    None).1 !! "sma"%string)
  ∧ ∃ data,
      Renderer.series (createRenderer Scenario.env [Scenario2.sparse] (Num 0) None).1
        !! "sparse"%string = Some data
      ∧ RendererSerieData.variables data
        = [SerieInstruction.mk "history" 4 (ArrayState [Null; Null; Null; Num 1])].
Proof.
  destruct (createRenderer_binds Scenario.env [Scenario2.modelled; Scenario.sma]
              (Num 0) None) as (Hbound & _).
  split; [|split].
  - apply Hbound. exists Scenario2.modelled.
    split; [apply list_elem_of_here|]. repeat split. by eexists.
  - intros Hsome. apply Hbound in Hsome as (serie & Hin & Hid & _ & [model Hmodel]).
    simpl in Hin. apply elem_of_cons in Hin as [->|Hin]; [discriminate Hid|].
    apply elem_of_cons in Hin as [->|Hin]; [discriminate Hmodel|].
    by apply elem_of_nil in Hin.
  - destruct (createRenderer_binds Scenario.env [Scenario2.sparse] (Num 0) None)
      as (Hsparse & Hdata & _).
    destruct (proj2 (Hsparse "sparse"%string)) as [data Hlookup].
    { exists Scenario2.sparse. split; [apply list_elem_of_here|].
      repeat split. by eexists. }
    exists data. split; [exact Hlookup|].
    apply Hdata in Hlookup as (serie & model & Hin & _ & Hmodel & ->).
    apply list_elem_of_singleton in Hin as ->.
    injection Hmodel as <-. reflexivity.
Defined.

(** ** The other instructions at a bucket close *)

(** With distinct identifiers, [nextBar] on a bucket that is not marked
    empty advances the data of every bound active serie once. *)
Lemma nextBar_series_lookup activeSeries timestamp renderer serie data :
  flag (CombinedBar.empty (Renderer.bar renderer)) = false →
  NoDup (ActiveSerie.id <$> activeSeries) →
  serie ∈ activeSeries →
  Renderer.series renderer !! ActiveSerie.id serie = Some data →
  Renderer.series (nextBar activeSeries timestamp renderer) !! ActiveSerie.id serie
  = Some (advanceSerieData data).
Proof.
  intros Hdata Hnodup Hin Hlookup. unfold nextBar. rewrite Hdata. simpl.
  rewrite advanceSeries_lookup by done.
  rewrite bool_decide_eq_true_2 by (by apply list_elem_of_fmap_2).
  by rewrite Hlookup.
Qed.

Lemma removelast_prefix {A} (l : list A) : removelast l `prefix_of` l.
Proof.
  induction l as [|x [|y l] IH]; [done|by exists [x]|].
  change (removelast (x :: y :: l)) with (x :: removelast (y :: l)).
  by apply prefix_cons.
Qed.

Lemma removelast_length {A} (l : list A) : length (removelast l) = pred (length l).
Proof.
  induction l as [|x [|y l] IH]; [done|done|].
  change (removelast (x :: y :: l)) with (x :: removelast (y :: l)).
  simpl in *. by rewrite IH.
Qed.

(** When a bucket that is not marked empty closes, an OHLC instruction of a
    bound serie restarts from its close, and an array variable gets a copy of
    its first entry in front and then loses its last entry if it holds more
    than [arg]: the new array is a prefix of the old one behind that copy,
    and an array within [arg] entries stays within [arg] entries.  The
    identifiers of the active series are distinct. *)
Theorem nextBar_advances_ohlc_and_array
    activeSeries timestamp renderer serie data :
  flag (CombinedBar.empty (Renderer.bar renderer)) = false →
  NoDup (ActiveSerie.id <$> activeSeries) →
  serie ∈ activeSeries →
  Renderer.series renderer !! ActiveSerie.id serie = Some data →
  ∃ data',
    Renderer.series (nextBar activeSeries timestamp renderer) !! ActiveSerie.id serie
    = Some data'
    ∧ RendererSerieData.value data' = RendererSerieData.value data
    ∧ RendererSerieData.point data' = RendererSerieData.point data
    ∧ (∀ f instruction open high low close,
         RendererSerieData.functions data !! f = Some instruction →
         SerieInstruction.state instruction = OhlcState open high low close →
         ∃ instruction',
           RendererSerieData.functions data' !! f = Some instruction'
           ∧ SerieInstruction.state instruction' = OhlcState close close close close)
    ∧ (∀ v instruction items,
         RendererSerieData.variables data !! v = Some instruction →
         SerieInstruction.state instruction = ArrayState items →
         ∃ instruction' items',
           RendererSerieData.variables data' !! v = Some instruction'
           ∧ SerieInstruction.arg instruction' = SerieInstruction.arg instruction
           ∧ SerieInstruction.state instruction' = ArrayState items'
           ∧ items' `prefix_of` default Undefined (head items) :: items
           ∧ Z.of_nat (length items')
             = (if SerieInstruction.arg instruction <? Z.of_nat (length items) + 1
                then Z.of_nat (length items) else Z.of_nat (length items) + 1)
           ∧ (Z.of_nat (length items) ≤ SerieInstruction.arg instruction →
              Z.of_nat (length items') ≤ SerieInstruction.arg instruction)).
Proof.
  intros Hdata Hnodup Hin Hlookup.
  exists (advanceSerieData data).
  split; [by apply nextBar_series_lookup|]. split; [done|]. split; [done|]. split.
  - intros f instruction open high low close Hf Hstate.
    exists (advanceFunction instruction). split.
    + simpl. by rewrite list_lookup_fmap, Hf.
    + unfold advanceFunction. by rewrite Hstate.
  - intros v instruction items Hv Hstate.
    eexists (advanceVariable instruction), _. split; [|split; [|split]].
    + simpl. by rewrite list_lookup_fmap, Hv.
    + unfold advanceVariable. by rewrite Hstate.
    + unfold advanceVariable. by rewrite Hstate.
    + cbn [length]. rewrite Nat2Z.inj_succ.
      replace (Z.succ (Z.of_nat (length items))) with (Z.of_nat (length items) + 1) by lia.
      destruct (Z.ltb_spec (SerieInstruction.arg instruction)
                           (Z.of_nat (length items) + 1)) as [Hfull|Hroom].
      * split; [apply removelast_prefix|]. rewrite removelast_length. simpl.
        split; lia.
      * split; [done|]. simpl. split; lia.
Qed.

Lemma nextBar_advances_ohlc_and_array_witness :
  ∃ data',
    Renderer.series (nextBar [Scenario2.cvd] (Num 60) Scenario2.rendererCvd)
      !! "cvd"%string = Some data'
    ∧ (SerieInstruction.state <$> RendererSerieData.functions data')
      = [OhlcState 4 4 4 4]
    ∧ (SerieInstruction.state <$> RendererSerieData.variables data')
      = [ArrayState [Num 7; Num 7; Num 8]].
Proof.
  destruct (nextBar_advances_ohlc_and_array [Scenario2.cvd] (Num 60)
              Scenario2.rendererCvd Scenario2.cvd Scenario2.cvdData)
    as (data' & Hdata' & _).
  - reflexivity.
  - apply NoDup_singleton.
  - apply list_elem_of_here.
  - vm_compute. reflexivity.
  - exists data'. split; [exact Hdata'|].
    assert (Heq : data' = advanceSerieData Scenario2.cvdData).
    { assert (Hrun : Renderer.series (nextBar [Scenario2.cvd] (Num 60) Scenario2.rendererCvd)
                       !! "cvd"%string = Some (advanceSerieData Scenario2.cvdData))
        by (vm_compute; reflexivity).
      pose proof (eq_trans (eq_sym Hdata') Hrun) as Hsame. by injection Hsame. }
    rewrite Heq. split; reflexivity.
Defined.

(** [nextBar] binds and unbinds nothing, and keeps the value and the point
    of every serie. *)
Theorem nextBar_keeps_bound_series activeSeries timestamp renderer id :
  match Renderer.series (nextBar activeSeries timestamp renderer) !! id,
        Renderer.series renderer !! id with
  | Some data', Some data =>
      RendererSerieData.value data' = RendererSerieData.value data
      ∧ RendererSerieData.point data' = RendererSerieData.point data
      ∧ length (RendererSerieData.functions data')
        = length (RendererSerieData.functions data)
      ∧ length (RendererSerieData.variables data')
        = length (RendererSerieData.variables data)
  | None, None => True
  | _, _ => False
  end.
Proof.
  unfold nextBar.
  assert (Hloop : ∀ l (series : gmap string RendererSerieData.t),
    match advanceSeries l series !! id, series !! id with
    | Some data', Some data =>
        RendererSerieData.value data' = RendererSerieData.value data
        ∧ RendererSerieData.point data' = RendererSerieData.point data
        ∧ length (RendererSerieData.functions data')
          = length (RendererSerieData.functions data)
        ∧ length (RendererSerieData.variables data')
          = length (RendererSerieData.variables data)
    | None, None => True
    | _, _ => False
    end).
  { induction l as [|serie l IH]; intros series.
    - simpl. by destruct (series !! id).
    - rewrite advanceSeries_cons.
      specialize (IH (match series !! ActiveSerie.id serie with
                      | Some data => <[ActiveSerie.id serie := advanceSerieData data]> series
                      | None => series
                      end)).
      destruct (series !! ActiveSerie.id serie) as [data0|] eqn:Hserie; [|exact IH].
      destruct (decide (id = ActiveSerie.id serie)) as [->|Hne].
      + rewrite lookup_insert_eq in IH. rewrite Hserie.
        destruct (advanceSeries l _ !! ActiveSerie.id serie) as [data'|]; [|done].
        destruct IH as (-> & -> & -> & ->). simpl. by rewrite !length_fmap.
      + by rewrite lookup_insert_ne in IH. }
  destruct (negb _); simpl; [apply Hloop|].
  by destruct (Renderer.series renderer !! id).
Qed.

(** ** The first trade of a source *)

(** The first trade of a source creates its bar with the four prices at the
    price of the trade, also when the trade is a liquidation; a trade counts
    once and adds its amount to the volume of its side, a liquidation adds
    its amount to the liquidation volume of its side, and nothing else is
    counted.  The bar has no pair and no timestamp. *)
Theorem first_trade_opens_source_bar env trade renderer :
  Renderer.sources renderer !! identifierOf trade = None →
  let amount := Trade.price trade * Trade.size trade in
  let on (s : Side) (liquidation : bool) :=
    if decide (Trade.side trade = s ∧ Trade.liquidation trade = liquidation)
    then amount else 0 in
  let count (s : Side) :=
    if decide (Trade.side trade = s ∧ Trade.liquidation trade = false) then 1 else 0 in
  ∃ source,
    Renderer.sources (foldTrade env trade renderer) !! identifierOf trade = Some source
    ∧ Bar.exchange source = Trade.exchange trade
    ∧ Bar.pair source = None
    ∧ Bar.timestamp source = Undefined
    ∧ Bar.empty source = Some false
    ∧ Bar.open source = Trade.price trade
    ∧ Bar.high source = Trade.price trade
    ∧ Bar.low source = Trade.price trade
    ∧ Bar.close source = Trade.price trade
    ∧ Bar.vbuy source = on buy false
    ∧ Bar.vsell source = on sell false
    ∧ Bar.cbuy source = count buy
    ∧ Bar.csell source = count sell
    ∧ Bar.lbuy source = on buy true
    ∧ Bar.lsell source = on sell true.
Proof.
  intros Hnew. simpl. unfold foldTrade. rewrite Hnew.
  destruct (Trade.liquidation trade), (Trade.side trade); simpl;
    rewrite lookup_insert_eq; eexists; (split; [reflexivity|]); simpl;
    repeat split; repeat case_decide; naive_solver lia.
Qed.

Lemma first_trade_opens_source_bar_witness :
  ∃ source,
    Renderer.sources (foldTrade Scenario.env Scenario.liquidationA70
                        (Renderer.set_sources ∅ Scenario.renderer60))
      !! "AUSD"%string = Some source
    ∧ Bar.open source = 100
    ∧ Bar.close source = 100
    ∧ Bar.lsell source = 300
    ∧ Bar.vsell source = 0.
Proof.
  destruct (first_trade_opens_source_bar Scenario.env Scenario.liquidationA70
              (Renderer.set_sources ∅ Scenario.renderer60) (lookup_empty _))
    as (source & Hsource & _ & _ & _ & _ & Hopen & _ & _ & Hclose & _ & Hvsell
        & _ & _ & _ & Hlsell).
  exists source. split; [exact Hsource|].
  split; [exact Hopen|]. split; [exact Hclose|]. split; [exact Hlsell|exact Hvsell].
Defined.

(** ** Registering a serie *)

Lemma newSerie_id env id serie :
  newSerie env id = Ok serie →
  ActiveSerie.id serie = id
  ∧ ActiveSerie.model serie = None
  ∧ ActiveSerie.adapter serie = None
  ∧ ActiveSerie.type serie ≠ ""%string.
Proof.
  unfold newSerie.
  set (type1 := match settingsSeries env !! id with
                | Some x => SerieSettings.type x | None => None end).
  set (type2 := match defaultChartSeries env !! id with
                | Some x => SerieSettings.type x | None => None end).
  assert (Htruthy : ∀ s x, truthyString s = Some x → x ≠ ""%string).
  { intros [s|] x; simpl; [|done].
    destruct (String.eqb_spec s ""); [done|]. by intros [= <-]. }
  destruct (truthyString type1) as [x|] eqn:H1.
  - intros [= <-]. simpl. repeat split. by apply (Htruthy type1).
  - destruct (truthyString type2) as [x|] eqn:H2; [|done].
    intros [= <-]. simpl. repeat split. by apply (Htruthy type2).
Qed.

(** A formula that does not compile: the serie is not registered, not
    created on the chart and not bound; the message of the transpiler is
    recorded for it and the dialog is opened; the store has it enabled all
    the same, since [addSerie] enables it before it prepares it. *)
Theorem addSerie_compile_error env id c serie message :
  newSerie env id = Ok serie →
  transpile env serie = Throw message →
  ∃ c',
    addSerie env id c = Ok (false, c')
    ∧ Controller.activeSeries c' = Controller.activeSeries c
    ∧ Controller.activeRenderer c' = Controller.activeRenderer c
    ∧ Controller.sink c' = Controller.sink c
    ∧ Controller.serieErrors c' !! id = Some (Some message)
    ∧ Controller.dialogOpened c' = true
    ∧ id ∈ Controller.enabledSeries c'.
Proof.
  intros Hnew Hthrow. destruct (newSerie_id _ _ _ Hnew) as (Hid & _).
  unfold addSerie. rewrite Hnew. cbn [mbind result_bind].
  unfold prepareSerie. rewrite Hthrow. unfold prepareFailed, reportSerieError. simpl.
  eexists. split; [reflexivity|]. simpl. rewrite Hid.
  repeat split; [by rewrite lookup_insert_eq|by apply elem_of_union_l, elem_of_singleton].
Qed.

Lemma addSerie_compile_error_witness :
  ∃ c',
    addSerie
      (Build_Env 60 0 ∅ 1000
         {[ "broken"%string :=
              SerieSettings.mk (Some "line"%string) (Some "bar.nothing"%string) None ]}
         ∅ Scenario.transpileTwo (getAdapter Scenario.env)
         (updateInstructionsArgument Scenario.env))
      "broken" Scenario.controller = Ok (false, c')
    ∧ Controller.activeSeries c' = []
    ∧ Controller.serieErrors c' !! "broken"%string = Some (Some "unknown formula"%string).
Proof.
  destruct (addSerie_compile_error
              (Build_Env 60 0 ∅ 1000
                 {[ "broken"%string :=
                      SerieSettings.mk (Some "line"%string) (Some "bar.nothing"%string) None ]}
                 ∅ Scenario.transpileTwo (getAdapter Scenario.env)
                 (updateInstructionsArgument Scenario.env))
              "broken" Scenario.controller
              (ActiveSerie.mk false "broken" "line" "bar.nothing" None None false)
              "unknown formula")
    as (c' & Hadd & Hactive & _ & _ & Herror & _).
  - vm_compute. reflexivity.
  - reflexivity.
  - exists c'. split; [exact Hadd|]. split; [exact Hactive|exact Herror].
Defined.





(** ** The selected chunks are a tail of the cache *)

Lemma isRendered_monotone env scale c1 c2 t1 t2 :
  Chunk.to c1 = Num t1 → Chunk.to c2 = Num t2 → t1 ≤ t2 →
  isRendered env scale c1 = true → isRendered env scale c2 = true.
Proof.
  unfold isRendered. destruct scale as [s|]; [|done].
  intros -> -> Hle. unfold js_gt, js_lt. simpl.
  intros Hlt%Z.ltb_lt. apply Z.ltb_lt. lia.
Qed.

Lemma sortedByTo_tail chunk chunks : sortedByTo (chunk :: chunks) → sortedByTo chunks.
Proof.
  intros Hsorted i j ci cj Hij Hi Hj.
  apply (Hsorted (S i) (S j) ci cj); [lia|done|done].
Qed.

(** In a cache whose chunks are in the order of their [to], the selection
    is a tail of the cache: some number of oldest chunks is left out, every
    chunk behind them is selected, and the bars that are replayed are the
    bars of that tail, in order. *)
Theorem selectChunks_tail env scale chunks :
  sortedByTo chunks →
  ∃ k,
    (selectChunks env scale chunks).2 = concat (Chunk.bars <$> drop k chunks)
    ∧ ∀ i chunk, (selectChunks env scale chunks).1 !! i = Some chunk →
        Chunk.rendered chunk = bool_decide (k ≤ i)%nat.
Proof.
  intros Hsorted.
  assert (Hall : ∀ l, sortedByTo l →
    ∃ k, ∀ i chunk, l !! i = Some chunk →
           isRendered env scale chunk = bool_decide (k ≤ i)%nat).
  { clear. induction l as [|chunk l IH]; intros Hsorted.
    - exists 0%nat. intros i chunk Hi. by rewrite lookup_nil in Hi.
    - destruct (isRendered env scale chunk) eqn:Hhead.
      + exists 0%nat. intros i ci Hi.
        rewrite bool_decide_eq_true_2 by lia.
        destruct (Hsorted 0%nat i chunk ci) as (t0 & ti & H0 & Hti & Hle);
          [lia|done|done|].
        by apply (isRendered_monotone env scale chunk ci t0 ti).
      + destruct (IH (sortedByTo_tail _ _ Hsorted)) as (k & Hk).
        exists (S k). intros [|i] ci Hi.
        * injection Hi as <-. rewrite bool_decide_eq_false_2 by lia. done.
        * rewrite (Hk i ci Hi). apply bool_decide_ext. lia. }
  destruct (Hall chunks Hsorted) as (k & Hk). exists k. split.
  - unfold selectChunks. cbn [snd]. f_equal. clear Hsorted Hall.
    revert k Hk. induction chunks as [|chunk chunks IH]; intros k Hk.
    + by rewrite drop_nil.
    + rewrite fmap_cons, filter_cons. simpl.
      pose proof (Hk 0%nat chunk eq_refl) as Hhead. rewrite Hhead.
      destruct k as [|k].
      * rewrite bool_decide_eq_true_2 by lia. rewrite decide_True by done.
        rewrite drop_0, fmap_cons. f_equal.
        rewrite (IH 0%nat); [by rewrite drop_0|].
        intros i ci Hi. rewrite (Hk (S i) ci Hi). apply bool_decide_ext. lia.
      * rewrite bool_decide_eq_false_2 by lia. rewrite decide_False by done.
        simpl. apply IH. intros i ci Hi. rewrite (Hk (S i) ci Hi).
        apply bool_decide_ext. lia.
  - intros i chunk Hi. unfold selectChunks in Hi. cbn [fst] in Hi.
    rewrite list_lookup_fmap in Hi.
    destruct (chunks !! i) as [ci|] eqn:Hci; [|done].
    injection Hi as <-. simpl. by apply Hk.
Qed.

Lemma selectChunks_tail_witness :
  ∃ k,
    (selectChunks Scenario.env (Some Scenario.scale)
       [Chunk.mk (Num 0) (Num 600) false false []; Scenario.oldChunk]).2
    = concat (Chunk.bars
                <$> drop k [Chunk.mk (Num 0) (Num 600) false false []; Scenario.oldChunk]).
Proof.
  destruct (selectChunks_tail Scenario.env (Some Scenario.scale)
              [Chunk.mk (Num 0) (Num 600) false false []; Scenario.oldChunk])
    as (k & Hbars & _).
  - intros [|[|i]] [|[|j]] ci cj Hij Hi Hj; simplify_eq/=;
      try lia; eexists _, _; (split; [reflexivity|split; [reflexivity|lia]]).
  - exists k. exact Hbars.
Defined.

(** ** Closing a bucket into the active chunk *)

Lemma finishedBars_stripSeries renderer :
  finishedBars (stripSeries renderer) = finishedBars renderer.
Proof. done. Qed.

(** The finished bars of a bucket are the copies, stamped with the bucket,
    of the source bars that are not marked empty. *)
Lemma finishedBars_elem renderer bar :
  bar ∈ finishedBars renderer
  ↔ ∃ identifier source,
      Renderer.sources renderer !! identifier = Some source
      ∧ flag (Bar.empty source) = false
      ∧ bar = cloneSourceBar source (Renderer.timestamp renderer).
Proof.
  unfold finishedBars. rewrite list_elem_of_fmap. split.
  - intros (source & -> & Hin). apply list_elem_of_filter in Hin as [Hflag Hin].
    apply list_elem_of_fmap in Hin as ([identifier source'] & -> & Hin).
    apply elem_of_map_to_list in Hin. exists identifier, source'.
    split; [done|]. split; [|done]. simpl in Hflag. by destruct (flag _).
  - intros (identifier & source & Hsource & Hflag & ->). exists source.
    split; [done|]. apply list_elem_of_filter. split; [by rewrite Hflag|].
    apply list_elem_of_fmap. exists (identifier, source). split; [done|].
    by apply elem_of_map_to_list.
Qed.

(** When the active chunk is not both behind the closing bucket and full,
    the bucket is closed into it: no chunk is opened, the other chunks are
    not written, the bars the chunk held stay in front, and behind them come
    the finished bars of the bucket: one copy, stamped with the bucket, of
    each source bar that is not marked empty, in an order that is not
    stated.  The chunk and the cache both end at the bucket. *)
Theorem closeBucket_appends_to_active_chunk
    env timestamp c formatedBars c' formatedBars' renderer i chunk :
  Controller.activeRenderer c = Some renderer →
  Controller.activeChunk c = Some i →
  ChartCache.chunks (Controller.chartCache c) !! i = Some chunk →
  js_lt (Chunk.to chunk) (Renderer.timestamp renderer) = false
  ∨ Z.of_nat (length (Chunk.bars chunk)) < MAX_BARS_PER_CHUNKS env →
  closeBucket env timestamp (c, formatedBars) = Ok (c', formatedBars') →
  ∃ appended,
    Controller.activeChunk c' = Some i
    ∧ ChartCache.chunks (Controller.chartCache c')
      = <[i := Chunk.mk (Chunk.from chunk) (Renderer.timestamp renderer)
                 (Chunk.active chunk) (Chunk.rendered chunk)
                 (Chunk.bars chunk ++ appended)]>
          (ChartCache.chunks (Controller.chartCache c))
    ∧ appended ≡ₚ finishedBars renderer
    ∧ (∀ bar, bar ∈ appended
         ↔ ∃ identifier source,
             Renderer.sources renderer !! identifier = Some source
             ∧ flag (Bar.empty source) = false
             ∧ bar = cloneSourceBar source (Renderer.timestamp renderer))
    ∧ TimeRange.to (ChartCache.cacheRange (Controller.chartCache c'))
      = Renderer.timestamp renderer
    ∧ TimeRange.from (ChartCache.cacheRange (Controller.chartCache c'))
      = TimeRange.from (ChartCache.cacheRange (Controller.chartCache c)).
Proof.
  intros Hrenderer Hchunk Hi Hroom. unfold closeBucket. rewrite Hrenderer.
  assert (Hselect : selectActiveChunk env renderer c = Ok c).
  { unfold selectActiveChunk. rewrite Hchunk, Hi. cbn [mbind result_bind].
    replace (js_lt (Chunk.to chunk) (Renderer.timestamp renderer)
             && (MAX_BARS_PER_CHUNKS env <=? Z.of_nat (length (Chunk.bars chunk))))
      with false; [done|].
    destruct Hroom as [-> | Hlt]; [done|].
    rewrite (proj2 (Z.leb_gt _ _) Hlt). by rewrite andb_false_r. }
  rewrite Hselect. cbn [mbind result_bind]. intros H.
  apply bind_ok_inv in H as ([c2 fb2] & Hcompute & H).
  assert (Hframe : sameButSeries c c2).
  { destruct (negb _).
    - apply bind_ok_inv in Hcompute as ([c3 p3] & Hcompute & Heq).
      injection Heq as <- <-. by apply computeActiveBar_frame in Hcompute.
    - injection Hcompute as <- <-. apply sameButSeries_refl. }
  destruct Hframe as (_ & Hchunk2 & Hcache2 & _ & _ & _ & _ & _ & Hstrip).
  rewrite Hrenderer in Hstrip.
  destruct (Controller.activeRenderer c2) as [r2|]; [|done].
  cbn [fmap option_fmap option_map] in Hstrip.
  assert (Hr2 : stripSeries r2 = stripSeries renderer) by congruence.
  rewrite Hchunk2, Hchunk, Hcache2, Hi in H.
  injection H as <- <-.
  assert (Hts : Renderer.timestamp r2 = Renderer.timestamp renderer)
    by (by apply (f_equal Renderer.timestamp) in Hr2).
  rewrite <- (finishedBars_stripSeries r2), Hr2, finishedBars_stripSeries, Hts.
  exists (finishedBars renderer).
  split; [by destruct (js_lt (TimeRange.to _) _); simpl; rewrite Hchunk2|].
  split; [by destruct (js_lt (TimeRange.to _) _)|].
  split; [done|]. split; [apply finishedBars_elem|].
  by destruct (js_lt (TimeRange.to _) _).
Qed.

Lemma closeBucket_appends_to_active_chunk_witness :
  ∃ c' formatedBars' appended,
    closeBucket Scenario.env 120 (Scenario2.controllerLive, []) = Ok (c', formatedBars')
    ∧ Controller.activeChunk c' = Some 0%nat
    ∧ (Chunk.bars <$> ChartCache.chunks (Controller.chartCache c') !! 0%nat)
      = Some ([Bar.mk "A" None Undefined 100 100 100 100 100 0 1 0 0 0 None]
              ++ appended)
    ∧ length appended = 1%nat.
Proof.
  assert (Hrun : ∃ c' formatedBars',
    closeBucket Scenario.env 120 (Scenario2.controllerLive, []) = Ok (c', formatedBars'))
    by (eexists _, _; vm_compute; reflexivity).
  destruct Hrun as (c' & formatedBars' & Hrun). exists c', formatedBars'.
  edestruct (closeBucket_appends_to_active_chunk
               Scenario.env 120 Scenario2.controllerLive [] c' formatedBars')
    as (appended & Hchunk & Hchunks & Hperm & _);
    [vm_compute; reflexivity | vm_compute; reflexivity | vm_compute; reflexivity
    | right; vm_compute; reflexivity | exact Hrun |].
  exists appended. split; [exact Hrun|]. split; [exact Hchunk|]. split.
  - rewrite Hchunks. vm_compute. reflexivity.
  - apply Permutation_length in Hperm. rewrite Hperm. vm_compute. reflexivity.
Defined.

(** ** The replay of bars *)

Lemma nextBar_untouched activeSeries timestamp renderer :
  Renderer.exchanges renderer = None →
  Renderer.exchanges (nextBar activeSeries timestamp renderer) = None
  ∧ flag (CombinedBar.hasData (Renderer.bar (nextBar activeSeries timestamp renderer)))
    = false.
Proof.
  intros Hexchanges.
  pose proof (stripSeries_nextBar activeSeries timestamp renderer) as Hstrip.
  split.
  - apply (f_equal Renderer.exchanges) in Hstrip. simpl in Hstrip.
    by rewrite Hexchanges in Hstrip.
  - by apply (f_equal (λ r, flag (CombinedBar.hasData (Renderer.bar r)))) in Hstrip.
Qed.

(** Before the first bar of an active source, a step of the loop of
    [renderBars] computes nothing: on a bar of an inactive source it only
    creates or advances the temporary renderer, on a bar of an active
    source it throws. *)
Lemma replayBar_untouched env series st bar :
  untouchedReplay st →
  match replayBar env series st bar with
  | Ok st' =>
      inactiveBar env bar
      ∧ untouchedReplay st'
      ∧ is_Some (Replay.temporaryRenderer st')
      ∧ Replay.computedSeries st' = Replay.computedSeries st
      ∧ Replay.from st' = Replay.from st
      ∧ Replay.to st' = Replay.to st
      ∧ Controller.sink (Replay.controller st') = Controller.sink (Replay.controller st)
      ∧ Controller.activeRenderer (Replay.controller st')
        = Controller.activeRenderer (Replay.controller st)
  | Throw _ => ¬ inactiveBar env bar
  end.
Proof.
  unfold untouchedReplay, replayBar, inactiveBar.
  destruct (Replay.temporaryRenderer st) as [renderer|] eqn:Htemporary.
  - intros [Hexchanges Hdata].
    destruct (js_gt (Bar.timestamp bar) (Renderer.timestamp renderer)).
    + unfold computeReplayBucket. rewrite Htemporary, Hdata.
      cbn [mbind result_bind]. rewrite Htemporary. cbn [mbind result_bind].
      destruct (nextBar_untouched
                  (Controller.activeSeries (Replay.controller st))
                  (Bar.timestamp bar) renderer Hexchanges) as [Hexchanges' Hdata'].
      destruct (isActive env (Bar.exchange bar)); cbn [negb].
      * by rewrite Hexchanges'.
      * cbn. eauto 10.
    + cbn [mbind result_bind].
      destruct (isActive env (Bar.exchange bar)); cbn [negb].
      * by rewrite Hexchanges.
      * cbn. eauto 10.
  - intros _.
    pose proof (createRenderer_frame env
                  (Controller.activeSeries (Replay.controller st))
                  (Bar.timestamp bar) series) as (_ & Hbar & _ & Hexchanges).
    destruct (createRenderer _ _ _ _) as [renderer activeSeries].
    cbn [fst] in Hbar, Hexchanges. cbn [mbind result_bind].
    destruct (isActive env (Bar.exchange bar)); cbn [negb].
    + by rewrite Hexchanges.
    + cbn. rewrite Hbar. eauto 10.
Qed.

Lemma foldM_replayBar_untouched env series bars st :
  untouchedReplay st →
  match foldM (replayBar env series) bars st with
  | Ok st' =>
      Forall (inactiveBar env) bars
      ∧ untouchedReplay st'
      ∧ (bars ≠ [] ∨ is_Some (Replay.temporaryRenderer st) →
         is_Some (Replay.temporaryRenderer st'))
      ∧ Replay.computedSeries st' = Replay.computedSeries st
      ∧ Replay.from st' = Replay.from st
      ∧ Replay.to st' = Replay.to st
      ∧ Controller.sink (Replay.controller st') = Controller.sink (Replay.controller st)
      ∧ Controller.activeRenderer (Replay.controller st')
        = Controller.activeRenderer (Replay.controller st)
  | Throw _ => ¬ Forall (inactiveBar env) bars
  end.
Proof.
  revert st. induction bars as [|bar bars IH]; intros st Hst.
  - simpl. repeat split; try done. by intros [?|?].
  - rewrite foldM_cons.
    pose proof (replayBar_untouched env series st bar Hst) as Hstep.
    destruct (replayBar env series st bar) as [st1|e]; cbn [mbind result_bind].
    + destruct Hstep as (Hbar & Hst1 & Hsome & Hc & Hf & Ht & Hs & Ha).
      specialize (IH st1 Hst1).
      destruct (foldM (replayBar env series) bars st1) as [st2|e].
      * destruct IH as (Hbars & Hst2 & Hsome2 & Hc2 & Hf2 & Ht2 & Hs2 & Ha2).
        repeat split; try congruence; [by constructor|].
        intros _. apply Hsome2. by right.
      * intros Hall. apply IH. by inversion Hall.
    + intros Hall. apply Hstep. by inversion Hall.
Qed.

Lemma clearChart_fold (series : list ActiveSerie.t) c0 :
  let c1 :=
    fold_left
      (fun c serie =>
         Controller.set_sink
           (Controller.sink c ++ [SinkSetData (ActiveSerie.id serie) []]) c)
      series c0 in
  Controller.sink c1
  = Controller.sink c0 ++ ((λ serie, SinkSetData (ActiveSerie.id serie) []) <$> series)
  ∧ Controller.activeRenderer c1 = Controller.activeRenderer c0.
Proof.
  revert c0. induction series as [|serie series IH]; intros c0; simpl.
  - by rewrite app_nil_r.
  - destruct (IH (Controller.set_sink
                    (Controller.sink c0 ++ [SinkSetData (ActiveSerie.id serie) []]) c0))
      as (Hsink & Hrenderer).
    simpl in *. rewrite Hsink, <- app_assoc. done.
Qed.

Lemma clearChart_sink c :
  Controller.sink (clearChart c)
  = Controller.sink c
    ++ ((λ serie, SinkSetData (ActiveSerie.id serie) []) <$> Controller.activeSeries c)
  ∧ Controller.activeRenderer (clearChart c) = Controller.activeRenderer c.
Proof.
  unfold clearChart.
  destruct (clearChart_fold (Controller.activeSeries c) (preventPan c)) as (Hsink & Hr).
  simpl in *. by rewrite Hsink, Hr.
Qed.

Lemma replaceData_empty c :
  Controller.sink (replaceData ∅ c) = Controller.sink c
  ∧ Controller.activeRenderer (replaceData ∅ c) = Controller.activeRenderer c.
Proof.
  unfold replaceData.
  assert (Hfold : ∀ (series : list ActiveSerie.t) c0,
    fold_left
      (fun c serie =>
         match (∅ : gmap string (list Point)) !! ActiveSerie.id serie with
         | Some (p :: ps) =>
             Controller.set_sink
               (Controller.sink c ++ [SinkSetData (ActiveSerie.id serie) (p :: ps)]) c
         | _ => c
         end) series c0 = c0).
  { induction series as [|serie series IH]; intros c0; simpl; [done|].
    rewrite lookup_empty. apply IH. }
  by rewrite Hfold.
Qed.

(** A replay of at least one bar returns exactly when no bar belongs to an
    active source; when it returns, no serie was computed: every call it
    makes on the chart replaces the data of a serie with no points. *)
Theorem renderBars_returns_iff_no_active_bar env bars series c :
  bars ≠ [] →
  ((∃ c', renderBars env bars series c = Ok c') ↔ Forall (inactiveBar env) bars)
  ∧ ∀ c' call,
      renderBars env bars series c = Ok c' →
      call ∈ Controller.sink c' →
      call ∈ Controller.sink c ∨ ∃ id, call = SinkSetData id [].
Proof.
  intros Hbars. unfold renderBars.
  destruct bars as [|bar bars]; [done|].
  pose proof (foldM_replayBar_untouched env series (bar :: bars)
                (Replay.mk c None ∅ Null Null) I) as Hloop.
  destruct (foldM (replayBar env series) (bar :: bars) _) as [st|e];
    cbn [mbind result_bind].
  - destruct Hloop as (Hall & Hst & Hsome & Hcomputed & Hfrom & Hto & Hsink & Hactive).
    cbn [Replay.computedSeries Replay.controller] in Hcomputed, Hsink, Hactive.
    destruct (Hsome (or_introl Hbars)) as [temporary Htemporary].
    unfold untouchedReplay in Hst. rewrite Htemporary in Hst.
    destruct Hst as [_ Hdata].
    unfold computeReplayBucket. rewrite Htemporary, Hdata.
    cbn [mbind result_bind]. rewrite Htemporary, Hcomputed.
    set (c1 := match series with
               | Some _ => Replay.controller st
               | None => _
               end).
    assert (Hc1 : ∀ call, call ∈ Controller.sink c1 →
                    call ∈ Controller.sink c ∨ ∃ id, call = SinkSetData id []).
    { subst c1. destruct series as [ids|].
      - rewrite Hsink. by left.
      - intros call Hin.
        change (call ∈ Controller.sink (clearChart (Replay.controller st))) in Hin.
        destruct (clearChart_sink (Replay.controller st)) as (Hclear & _).
        rewrite Hclear, Hsink in Hin.
        apply elem_of_app in Hin as [Hin|Hin]; [by left|right].
        apply list_elem_of_fmap in Hin as (serie & -> & _). eauto. }
    destruct (replaceData_empty c1) as (Hsink2 & Hactive2).
    split.
    + split; [done|intros _].
      destruct (Controller.activeRenderer (replaceData ∅ c1)); eauto.
    + intros c' call Hrun Hin. apply Hc1. rewrite <- Hsink2.
      destruct (Controller.activeRenderer (replaceData ∅ c1));
        injection Hrun as <-; exact Hin.
  - split; [|done]. split; [by intros [c' ?]|done].
Qed.

Lemma renderBars_returns_iff_no_active_bar_witness :
  (∃ c', renderBars Scenario.env [Scenario2.idleBar; Scenario2.idleBar] None
           Scenario.controller = Ok c')
  ↔ Forall (inactiveBar Scenario.env) [Scenario2.idleBar; Scenario2.idleBar].
Proof.
  apply (renderBars_returns_iff_no_active_bar
           Scenario.env [Scenario2.idleBar; Scenario2.idleBar] None Scenario.controller).
  done.
Defined.
